(** * ayon-usd: the addon packager and the runtime environment bootstrap

    A shallow embedding of [create_package.py] and of
    [client/ayon_usd/__init__.py], and the properties of the packaging
    workflow stated over it.

    The packager is file-system orchestration, so the embedding is built
    on a model of a directory tree: paths are lists of name components,
    a node is a regular file (its bytes) or a directory (its entries), and
    every primitive of [os], [shutil], [pathlib], [zipfile] and
    [urllib.request] the script calls is a function on that tree which
    either succeeds or raises one of Python's exceptions.  Effects that have
    happened before an exception is raised stay on disk.

    What the model holds and what it leaves out:
    - a path is absolute and normalised, so [os.path.join] is the
      concatenation of component lists and [os.path.dirname] drops the last
      component; the addon name and version, and the file name at the end of
      a download URL, are single components;
    - the tree holds regular files and directories only: no symbolic links,
      no permissions, no timestamps, and nobody else writing to the disk
      while the script runs;
    - [os.listdir] names every entry of a directory once, in the order the
      directory holds them;
    - the calls to the logger are left out, they do not touch the disk;
    - [hashlib], the network, [zipfile]'s encoding of members and
      [json.dumps] are parameters of the development; an archive file on
      disk is the encoding of the members written to it so far;
    - [hashlib] is looked up by name: a name the module does not have is an
      [AttributeError], and a name it has is taken to be one of its hash
      constructors with a digest of fixed length (the module's other
      attributes, which cannot be called this way, are outside the model);
    - a download either cannot be opened, or arrives whole, or breaks off
      after some bytes, and the bytes that have arrived are in the
      destination file by then;
    - a read of [n] bytes is served up to the size of the largest object of
      a 64-bit interpreter and up to what the allocator grants, a limit that
      is a parameter and never below the default chunk size. *)

From Stdlib Require Import ZArith Ascii String.
From stdpp Require Import base option list strings gmap sorting.

Open Scope string_scope.
Open Scope list_scope.
Open Scope nat_scope.

(** ** Bytes, paths and directory trees *)

Abbreviation bytes := (list Byte.byte).
Abbreviation path := (list string).

Definition bytes_of_string (s : string) : bytes := String.list_byte_of_string s.

#[warnings="-register-all"]
Inductive node :=
| File (data : bytes)
| Dir (entries : list (string * node)).

Abbreviation entries := (list (string * node)).

(** The entry a name denotes in a directory: the first one carrying it. *)
Fixpoint entry_get (n : string) (es : entries) : option node :=
  match es with
  | [] => None
  | (m, c) :: es' => if decide (m = n) then Some c else entry_get n es'
  end.

Fixpoint entry_put (n : string) (c : node) (es : entries) : entries :=
  match es with
  | [] => [(n, c)]
  | (m, c') :: es' =>
      if decide (m = n) then (n, c) :: es' else (m, c') :: entry_put n c es'
  end.

Definition entry_del (n : string) (es : entries) : entries :=
  filter (λ e, e.1 ≠ n) es.

(** A directory listing names every entry once. *)
Fixpoint names (es : entries) : list string :=
  match es with
  | [] => []
  | (n, _) :: es' => n :: filter (λ m, m ≠ n) (names es')
  end.

Fixpoint resolve (t : node) (p : path) : option node :=
  match p with
  | [] => Some t
  | n :: p' =>
      match t with
      | File _ => None
      | Dir es => entry_get n es ≫= λ c, resolve c p'
      end
  end.

(** What [os.stat] tells about a path, without the directory's contents. *)
Inductive kind :=
| KFile (data : bytes)
| KDir.

Definition kind_of (c : node) : kind :=
  match c with File d => KFile d | Dir _ => KDir end.

Definition stat (t : node) (p : path) : option kind := kind_of <$> resolve t p.

Definition path_exists (t : node) (p : path) : bool :=
  match stat t p with Some _ => true | None => false end.
Definition isdir (t : node) (p : path) : bool :=
  match stat t p with Some KDir => true | _ => false end.
Definition isfile (t : node) (p : path) : bool :=
  match stat t p with Some (KFile _) => true | _ => false end.

(** Replace ([Some]) or unlink ([None]) the node at [p]; the parent has to
    be a directory, otherwise nothing happens. *)
Fixpoint put (p : path) (v : option node) (t : node) : node :=
  match p with
  | [] => default t v
  | n :: p' =>
      match t with
      | File _ => t
      | Dir es =>
          match p' with
          | [] => Dir (match v with
                       | Some c => entry_put n c es
                       | None => entry_del n es
                       end)
          | _ :: _ =>
              match entry_get n es with
              | Some c => Dir (entry_put n (put p' v c) es)
              | None => t
              end
          end
      end
  end.

Definition parent (p : path) : path := removelast p.
Definition basename (p : path) : string := List.last p "".

Fixpoint node_size (t : node) : nat :=
  match t with
  | File _ => 1
  | Dir es => S (sum_list_with (λ e, node_size e.2) es)
  end.

(** ** Exceptions and the packager's monad

    [Stuck] is not a Python exception: it stands for a loop of the model
    that ran out of the steps it was given. *)

Inductive exn :=
| FileNotFoundError
| FileExistsError
| NotADirectoryError
| IsADirectoryError
| SameFileError
| OSError
| AttributeError
| URLError
| ContentTooShortError
| OverflowError
| MemoryError
| ValueError (msg : string)
| Stuck.

Global Instance exn_eq_dec : EqDecision exn.
Proof. solve_decision. Defined.

Inductive outcome (A : Type) :=
| Ok (a : A)
| Raise (e : exn).
Arguments Ok {A} a.
Arguments Raise {A} e.

(** The error [open], [stat] or [listdir] report for a path that does not
    resolve: a file met on the way is [ENOTDIR], a missing name [ENOENT]. *)
Fixpoint path_error (t : node) (p : path) : exn :=
  match p with
  | [] => FileNotFoundError
  | n :: p' =>
      match t with
      | File _ => NotADirectoryError
      | Dir es =>
          match entry_get n es with
          | Some c => path_error c p'
          | None => FileNotFoundError
          end
      end
  end.

(** The world the script runs in: the disk, and the URLs fetched so far. *)
Record world := World { fs : node; fetched : list string }.

Definition M (A : Type) : Type := world → outcome A * world.

Global Instance M_ret : MRet M := λ A a w, (Ok a, w).
Global Instance M_bind : MBind M := λ A B f m w,
  match m w with
  | (Ok a, w') => f a w'
  | (Raise e, w') => (Raise e, w')
  end.

Definition raise {A} (e : exn) : M A := λ w, (Raise e, w).

(** [with contextlib.suppress(Exception)]: whatever the body raises is
    dropped; its effects stay. *)
Definition suppress (m : M unit) : M unit :=
  λ w, match m w with (_, w') => (Ok tt, w') end.

Definition when (b : bool) (m : M unit) : M unit := if b then m else mret tt.

Fixpoint for_each {A} (l : list A) (body : A → M unit) : M unit :=
  match l with
  | [] => mret tt
  | x :: l' => body x;; for_each l' body
  end.

Fixpoint foldM {A S} (body : S → A → M S) (l : list A) (s : S) : M S :=
  match l with
  | [] => mret s
  | x :: l' => s' ← body s x; foldM body l' s'
  end.

Definition read_fs {A} (f : node → A) : M A := λ w, (Ok (f (fs w)), w).
Definition on_fs {A} (f : node → outcome A * node) : M A :=
  λ w, let '(r, t) := f (fs w) in (r, World t (fetched w)).

(** ** The primitives of [os], [shutil] and [pathlib] *)

Abbreviation fsop A := (node → outcome A * node).

Definition os_mkdir (p : path) : fsop unit := λ t,
  if path_exists t p then (Raise FileExistsError, t)
  else match stat t (parent p) with
       | Some KDir => (Ok tt, put p (Some (Dir [])) t)
       | _ => (Raise (path_error t p), t)
       end.

(** [os.makedirs(name)] with [exist_ok=False], on the reversed path: a
    missing head is made first, an already existing one is not an error. *)
Fixpoint makedirs_rev (rp : list string) : fsop unit := λ t,
  match rp with
  | [] => os_mkdir [] t
  | _ :: rhead =>
      let '(r, t1) :=
        if path_exists t (rev rhead) then (Ok tt, t) else makedirs_rev rhead t in
      match r with
      | Ok _ | Raise FileExistsError => os_mkdir (rev rp) t1
      | Raise e => (Raise e, t1)
      end
  end.

Definition os_makedirs (p : path) : fsop unit := makedirs_rev (rev p).

(** [Path.mkdir(parents=..., exist_ok=...)]. *)
Fixpoint path_mkdir_rev (parents exist_ok : bool) (rp : list string) : fsop unit := λ t,
  let retry_or_tolerate (res : outcome unit * node) :=
    match res with
    | (Ok _, t') => (Ok tt, t')
    | (Raise FileNotFoundError, t') => (Raise FileNotFoundError, t')
    | (Raise e, t') =>
        if exist_ok && isdir t' (rev rp) then (Ok tt, t') else (Raise e, t')
    end in
  match os_mkdir (rev rp) t with
  | (Raise FileNotFoundError, t') =>
      match rp with
      | _ :: rparent =>
          if parents then
            match path_mkdir_rev true true rparent t' with
            | (Ok _, t1) => retry_or_tolerate (os_mkdir (rev rp) t1)
            | (Raise e, t1) => (Raise e, t1)
            end
          else (Raise FileNotFoundError, t')
      | [] => (Raise FileNotFoundError, t')
      end
  | res => retry_or_tolerate res
  end.

Definition path_mkdir (parents exist_ok : bool) (p : path) : fsop unit :=
  path_mkdir_rev parents exist_ok (rev p).

(** [open(p, "rb").read()] *)
Definition read_file (p : path) : fsop bytes := λ t,
  match resolve t p with
  | Some (File d) => (Ok d, t)
  | Some (Dir _) => (Raise IsADirectoryError, t)
  | None => (Raise (path_error t p), t)
  end.

(** [open(p, "wb")], the data written, and the file closed. *)
Definition write_file (p : path) (d : bytes) : fsop unit := λ t,
  match stat t p with
  | Some KDir => (Raise IsADirectoryError, t)
  | Some (KFile _) => (Ok tt, put p (Some (File d)) t)
  | None =>
      match stat t (parent p) with
      | Some KDir => (Ok tt, put p (Some (File d)) t)
      | _ => (Raise (path_error t p), t)
      end
  end.

Definition os_remove (p : path) : fsop unit := λ t,
  match stat t p with
  | Some (KFile _) => (Ok tt, put p None t)
  | Some KDir => (Raise IsADirectoryError, t)
  | None => (Raise (path_error t p), t)
  end.

(** [shutil.rmtree(p)]; the root itself cannot be unlinked, only emptied. *)
Definition shutil_rmtree (p : path) : fsop unit := λ t,
  match stat t p with
  | Some KDir =>
      match p with
      | [] => (Raise OSError, Dir [])
      | _ :: _ => (Ok tt, put p None t)
      end
  | Some (KFile _) => (Raise NotADirectoryError, t)
  | None => (Raise (path_error t p), t)
  end.

Definition os_listdir (p : path) : fsop (list string) := λ t,
  match resolve t p with
  | Some (Dir es) => (Ok (names es), t)
  | Some (File _) => (Raise NotADirectoryError, t)
  | None => (Raise (path_error t p), t)
  end.

(** [shutil.copy] and [shutil.copy2] (they differ in the metadata they
    carry over, which the model does not hold): a directory as destination
    receives the file under its own base name. *)
Definition shutil_copy (src dst : path) : fsop unit := λ t,
  let dst := if isdir t dst then dst ++ [basename src] else dst in
  if path_exists t src && bool_decide (src = dst) then (Raise SameFileError, t)
  else match read_file src t with
       | (Ok d, _) => write_file dst d t
       | (Raise e, _) => (Raise e, t)
       end.


(** ** [hashlib]

    A hash object is fed bytes and asked for its digest.  What [hashlib]
    documents about [update] is kept as laws: feeding [a] and then [b] is
    feeding [a ++ b]. *)
Record hash_alg := HashAlg {
  hstate : Type;
  hnew : hstate;
  hupdate : hstate → bytes → hstate;
  hexdigest : hstate → string;
  hupdate_nil : ∀ s, hupdate s [] = s;
  hupdate_app : ∀ s a b, hupdate (hupdate s a) b = hupdate s (a ++ b);
}.

(** The digest of a byte string hashed in one go. *)
Definition digest (H : hash_alg) (data : bytes) : string :=
  hexdigest H (hupdate H (hnew H) data).

(** ** Compiled regular expressions, as far as the script uses them *)
Record regex := Regex { search : string → bool }.

Definition newline : string := String (ascii_of_nat 10) "".

Definition str_endswith (suffix s : string) : bool :=
  String.prefix (String.rev suffix) (String.rev s).

(** [re.compile(r"^\.")] *)
Definition re_leading_dot : regex := Regex (λ s, String.prefix "." s).
(** [re.compile("^__pycache__$")] *)
Definition re_pycache : regex :=
  Regex (λ s, bool_decide (s = "__pycache__") || bool_decide (s = "__pycache__" +:+ newline)).
(** [re.compile(r"\.pyc$")] *)
Definition re_pyc : regex :=
  Regex (λ s, str_endswith ".pyc" s || str_endswith (".pyc" +:+ newline) s).

Definition IGNORE_DIR_PATTERNS : list regex := [re_leading_dot; re_pycache].
Definition IGNORE_FILE_PATTERNS : list regex := [re_leading_dot; re_pyc].

Definition _value_match_regexes (value : string) (regexes : list regex) : bool :=
  existsb (λ r, search r value) regexes.

(** ** Strings that denote paths *)

Fixpoint split_on (sep : ascii) (acc s : string) : list string :=
  match s with
  | EmptyString => [acc]
  | String c s' =>
      if Ascii.eqb c sep then acc :: split_on sep "" s'
      else split_on sep (acc +:+ String c "") s'
  end.

(** [s.split(sep)] for a one-character separator. *)
Definition str_split (sep : ascii) (s : string) : list string := split_on sep "" s.

(** The components the system sees in a relative path string. *)
Definition components (sep : ascii) (s : string) : path :=
  filter (λ c, c ≠ "") (str_split sep s).

Definition sep_join (sep : ascii) (items : list string) : string :=
  String.concat (String sep "") items.

(** ** [os.walk], top down *)
Definition child_is_dir (es : entries) (n : string) : bool :=
  match entry_get n es with Some (Dir _) => true | _ => false end.

Fixpoint walk_node (top : path) (t : node) : list (path * list string * list string) :=
  match t with
  | File _ => []
  | Dir es =>
      (top, filter (λ n, child_is_dir es n) (names es),
            filter (λ n, ¬ child_is_dir es n) (names es)) ::
      (fix sub (seen : list string) (es' : entries) :=
         match es' with
         | [] => []
         | (n, c) :: es'' =>
             (if bool_decide (n ∈ seen) then [] else walk_node (top ++ [n]) c)
               ++ sub (n :: seen) es''
         end) [] es
  end.

Definition os_walk (t : node) (top : path) : list (path * list string * list string) :=
  match resolve t top with
  | Some c => walk_node top c
  | None => []
  end.

(** ** The records of the script *)
Record platform_info := PlatformInfo {
  url : string;
  checksum : string;
  checksum_algorithm : string;
}.

Record archive_record := ArchiveRecord {
  rec_name : string;
  rec_filename : string;
  rec_checksum : string;
  rec_checksum_algorithm : string;
  rec_platform : string;
}.

Definition AYON_SOURCE_URL : string := "https://distribute.openpype.io/thirdparty".

Definition USD_SOURCES : list (string * list (string * platform_info)) :=
  [("24.03",
    [("windows",
      PlatformInfo (AYON_SOURCE_URL +:+ "/usd-24.03_win64_py39.zip")
        "7d7852b9c8e3501e5f64175decc08d70e3bf1c083faaaf2c1a8aa8f9af43ab30"
        "sha256");
     ("linux",
      PlatformInfo (AYON_SOURCE_URL +:+ "/usd-24.03_linux_py39.zip")
        "27010ad67d5acd25e3c95b1ace4ab30e047b5a9e48082db0545ae44ae7ec9b09"
        "sha256")])].

Definition dquote : string := String (ascii_of_nat 34) "".

(** [CLIENT_VERSION_CONTENT.format(name, version)] *)
Definition CLIENT_VERSION_CONTENT (name version : string) : string :=
  "# -*- coding: utf-8 -*-" +:+ newline +:+
  dquote +:+ dquote +:+ dquote +:+ "Package declaring ayon_usd addon version." +:+ newline +:+
  newline +:+
  "Version is regenerated by `create_package.py` script or the" +:+ newline +:+
  "build system based on the content of package.py." +:+ newline +:+
  newline +:+
  "Do not manually edit this file." +:+ newline +:+
  dquote +:+ dquote +:+ dquote +:+ newline +:+
  "name = " +:+ dquote +:+ name +:+ dquote +:+ newline +:+
  "__version__ = " +:+ dquote +:+ version +:+ dquote +:+ newline.

(** ** What a download delivers

    Once [urlopen] has the connection, the body arrives in blocks: all of
    it, or the transfer ends early with an error ([ContentTooShortError]
    for a body shorter than announced, the error of the failing [read]
    otherwise) after some bytes have arrived. *)
Inductive response :=
| Complete (body : bytes)
| Broken (received : bytes) (e : exn).

(** ** The packager *)
Section Packager.

Set Default Proof Using "Type".

(** [package.name], [package.version] and [package.client_dir] of the
    addon's manifest module, which the script imports. *)
Variables ADDON_NAME ADDON_VERSION ADDON_CLIENT_DIR : string.
(** [os.path.dirname(os.path.abspath(__file__))] and [os.path.sep]. *)
Variable script_dir : path.
Variable os_sep : ascii.
(** [getattr(hashlib, name)], for the names of hash constructors; [None]
    for a name the module does not have. *)
Variable hashlib : string → option hash_alg.
(** What a GET of a URL delivers, if the URL can be opened. *)
Variable urlopen : string → option response.
(** The bytes of an archive holding the given members, and of a JSON
    document. *)
Variable zip_bytes : list (string * bytes) → bytes.
Variable json_dumps : list archive_record → bytes.
(** The largest block the allocator of the process serves. *)
Variable alloc_limit : Z.

(** *** [calculate_file_checksum] *)

(** The default of the parameter [chunk_size]. *)
Definition default_chunk_size : Z := 10000.

(** [sys.maxsize] of a 64-bit interpreter, and the bytes a [bytes] object
    needs besides its content. *)
Definition PY_SSIZE_T_MAX : Z := 2 ^ 63 - 1.
Definition PyBytesObject_SIZE : Z := 33.

(** The largest read that is served: [read(size)] allocates the [size]
    bytes it was asked for before it reads, which the allocator has to
    grant.  A block of the default chunk size it always grants. *)
Definition read_max : Z := Z.max default_chunk_size alloc_limit.

(** [f.read(size)] of a buffered binary file with [rest] left to read. *)
Definition file_read (size : Z) (rest : bytes) : outcome (bytes * bytes) :=
  if (size <? -1)%Z then Raise (ValueError "read length must be non-negative or -1")
  else if (size =? -1)%Z then Ok (rest, [])
  else if (PY_SSIZE_T_MAX - PyBytesObject_SIZE <? size)%Z then Raise OverflowError
  else if (read_max <? size)%Z then Raise MemoryError
  else Ok (take (Z.to_nat size) rest, drop (Z.to_nat size) rest).

(** [for chunk in iter(lambda: f.read(chunk_size), b""): hash_obj.update(chunk)] *)
Fixpoint hash_chunks (fuel : nat) (H : hash_alg) (chunk_size : Z) (rest : bytes)
    (hash_obj : hstate H) : outcome (hstate H) :=
  match fuel with
  | 0 => Raise Stuck
  | S fuel' =>
      match file_read chunk_size rest with
      | Raise e => Raise e
      | Ok ([], _) => Ok hash_obj
      | Ok (chunk, rest') =>
          hash_chunks fuel' H chunk_size rest' (hupdate H hash_obj chunk)
      end
  end.

Definition calculate_file_checksum (filepath : path) (hash_algorithm : string)
    (chunk_size : Z) : M string :=
  match hashlib hash_algorithm with
  | None => raise AttributeError
  | Some func =>
      let hash_obj := hnew func in
      content ← on_fs (read_file filepath);
      match hash_chunks (2 + length content) func chunk_size content hash_obj with
      | Raise e => raise e
      | Ok hash_obj => mret (hexdigest func hash_obj)
      end
  end.

(** *** [safe_copy_file] *)
Definition safe_copy_file (src_path dst_path : path) : M unit :=
  if decide (src_path = dst_path) then mret tt
  else
    let dst_dir := parent dst_path in
    suppress (on_fs (os_makedirs dst_dir));;
    on_fs (shutil_copy src_path dst_path).

(** *** [find_files_in_subdir] *)

(** The body of [for name in os.listdir(dirpath)]. *)
Definition scan_name (t : node) (ignore_file_patterns ignore_dir_patterns : list regex)
    (dirpath : path) (parents : list string)
    (st : list (path * string) * list (path * list string)) (name : string)
    : list (path * string) * list (path * list string) :=
  let '(output, hierarchy_queue) := st in
  let path := dirpath ++ [name] in
  if isfile t path then
    if negb (_value_match_regexes name ignore_file_patterns) then
      let items := parents ++ [name] in
      (output ++ [(path, sep_join os_sep items)], hierarchy_queue)
    else (output, hierarchy_queue)
  else if negb (_value_match_regexes name ignore_dir_patterns) then
    let items := parents ++ [name] in
    (output, hierarchy_queue ++ [(path, items)])
  else (output, hierarchy_queue).

(** [while hierarchy_queue: ...], for at most [fuel] directories. *)
Fixpoint walk_queue (fuel : nat) (t : node)
    (ignore_file_patterns ignore_dir_patterns : list regex)
    (hierarchy_queue : list (path * list string)) (output : list (path * string))
    : outcome (list (path * string)) :=
  match fuel with
  | 0 => Raise Stuck
  | S fuel' =>
      match hierarchy_queue with
      | [] => Ok output
      | (dirpath, parents) :: hierarchy_queue =>
          match os_listdir dirpath t with
          | (Raise e, _) => Raise e
          | (Ok listing, _) =>
              let '(output, hierarchy_queue) :=
                foldl (scan_name t ignore_file_patterns ignore_dir_patterns dirpath parents)
                      (output, hierarchy_queue) listing in
              walk_queue fuel' t ignore_file_patterns ignore_dir_patterns
                         hierarchy_queue output
          end
      end
  end.

Definition find_files_in_subdir (src_path : path)
    (ignore_file_patterns ignore_dir_patterns : option (list regex))
    : M (list (path * string)) := λ w,
  let ignore_file_patterns := default IGNORE_FILE_PATTERNS ignore_file_patterns in
  let ignore_dir_patterns := default IGNORE_DIR_PATTERNS ignore_dir_patterns in
  match walk_queue (S (node_size (fs w))) (fs w) ignore_file_patterns ignore_dir_patterns
                   [(src_path, [])] [] with
  | Ok output => (Ok output, w)
  | Raise e => (Raise e, w)
  end.

(** *** [copy_server_content] *)
Definition copy_server_content (addon_output_dir current_dir : path) : M unit :=
  let server_dirpath := current_dir ++ ["server"] in
  found ← find_files_in_subdir server_dirpath None None;
  let filepaths_to_copy :=
    map (λ '(src_path, dst_subpath),
           (src_path, addon_output_dir ++ ["server"] ++ components os_sep dst_subpath))
        found in
  for_each filepaths_to_copy (λ '(src_path, dst_path), safe_copy_file src_path dst_path).

(** *** [_fill_client_version] *)
Definition _fill_client_version (current_dir : path) : M unit :=
  let version_file := current_dir ++ ["client"; ADDON_CLIENT_DIR; "version.py"] in
  on_fs (write_file version_file
           (bytes_of_string (CLIENT_VERSION_CONTENT ADDON_NAME ADDON_VERSION))).

(** *** Writing archives

    [ZipFileLongPaths(path, "w", zipfile.ZIP_DEFLATED)] creates the file;
    each [write] puts one more member into it.  The class changes member
    extraction only (see [LongPaths] below), so this is plain [ZipFile]. *)
Definition zip_open (zip_filepath : path) : M (list (string * bytes)) :=
  on_fs (write_file zip_filepath (zip_bytes []));; mret [].

Definition zip_write (zip_filepath : path) (members : list (string * bytes))
    (filename : path) (arcname : string) : M (list (string * bytes)) :=
  member ← (λ w, match resolve (fs w) filename with
                 | Some (File d) => (Ok (arcname, d), w)
                 | Some (Dir _) => (Ok (arcname +:+ "/", []), w)
                 | None => (Raise (path_error (fs w) filename), w)
                 end);
  let members := members ++ [member] in
  on_fs (write_file zip_filepath (zip_bytes members));;
  mret members.

(** *** [zip_client_side] *)
Definition zip_client_side (addon_package_dir current_dir : path) : M unit :=
  let client_dir := current_dir ++ ["client"] in
  is_dir ← read_fs (λ t, isdir t client_dir);
  if negb is_dir then mret tt
  else
    let private_dir := addon_package_dir ++ ["private"] in
    present ← read_fs (λ t, path_exists t private_dir);
    when (negb present) (on_fs (os_makedirs private_dir));;
    let zip_filepath := private_dir ++ ["client.zip"] in
    zipf ← zip_open zip_filepath;
    found ← find_files_in_subdir client_dir None None;
    foldM (λ zipf '(path, sub_path), zip_write zip_filepath zipf path sub_path) found zipf;;
    mret tt.

(** *** [download_usd_zip] *)
Definition str_last_segment (s : string) : string := List.last (str_split "/" s) "".

(** [urllib.request.urlretrieve(src_url, dst)]: the URL is opened, then the
    destination, and the blocks are written as they arrive; what has arrived
    stays in the file when the transfer fails. *)
Definition urlretrieve (src_url : string) (dst : path) : M unit := λ w,
  let w := World (fs w) (fetched w ++ [src_url]) in
  match urlopen src_url with
  | None => (Raise URLError, w)
  | Some (Complete body) => on_fs (write_file dst body) w
  | Some (Broken received e) => (on_fs (write_file dst received);; raise e) w
  end.

Definition mismatch_message (file_checksum checksum : string) : string :=
  "USD zip checksum mismatch: " +:+ file_checksum +:+ " != " +:+ checksum.

(** The body of the inner loop; [continue] is the early [mret]. *)
Definition download_one (downloads_dir : path) (zip_files_info : list archive_record)
    (item : string * platform_info) : M (list archive_record) :=
  let '(platform_name, platform_info) := item in
  let src_url := url platform_info in
  let filename := str_last_segment src_url in
  let zip_path := downloads_dir ++ [filename] in
  let checksum := checksum platform_info in
  let checksum_algorithm := checksum_algorithm platform_info in
  let zip_files_info :=
    zip_files_info ++ [ArchiveRecord ADDON_NAME filename checksum checksum_algorithm
                                     platform_name] in
  present ← read_fs (λ t, path_exists t zip_path);
  cached ← (if present : bool then
              file_checksum ← calculate_file_checksum zip_path checksum_algorithm
                                default_chunk_size;
              if decide (checksum = file_checksum) then mret true
              else on_fs (os_remove zip_path);; mret false
            else mret false);
  if cached : bool then mret zip_files_info
  else
    urlretrieve src_url zip_path;;
    file_checksum ← calculate_file_checksum zip_path checksum_algorithm default_chunk_size;
    if decide (checksum ≠ file_checksum) then
      raise (ValueError (mismatch_message file_checksum checksum))
    else mret zip_files_info.

Definition download_sources (sources : list (string * list (string * platform_info)))
    (downloads_dir : path) : M (list archive_record) :=
  foldM (λ zip_files_info '(item_name, item_info),
           foldM (download_one downloads_dir) item_info zip_files_info)
        sources [].

Definition download_usd_zip (downloads_dir : path) : M (list archive_record) :=
  download_sources USD_SOURCES downloads_dir.

(** *** [create_server_package] *)
Definition package_filename (addon_version : string) : string :=
  ADDON_NAME +:+ "-" +:+ addon_version +:+ ".zip".

Definition create_server_package (current_dir output_dir addon_output_dir : path)
    (addon_version : string) : M unit :=
  let output_path := output_dir ++ [package_filename addon_version] in
  zipf ← zip_open output_path;
  zipf ← zip_write output_path zipf (current_dir ++ ["package.py"]) "package.py";
  walked ← read_fs (λ t, os_walk t addon_output_dir);
  foldM (λ zipf '(root, _, filenames),
           match filenames with
           | [] => mret zipf
           | _ =>
               let dst_root :=
                 if decide (root ≠ addon_output_dir)
                 then Some (sep_join os_sep (drop (length addon_output_dir) root))
                 else None in
               foldM (λ zipf filename,
                        let src_path := root ++ [filename] in
                        let dst_path :=
                          match dst_root with
                          | Some r => if decide (r = "") then filename
                                      else sep_join os_sep [r; filename]
                          | None => filename
                          end in
                        zip_write output_path zipf src_path dst_path)
                     filenames zipf
           end)
        walked zipf;;
  mret tt.

(** *** [main]

    [output_dir] is [None] for an absent or empty [--output]. *)
Definition main (output_dir : option path) (skip_zip keep_sources : bool) : M unit :=
  let current_dir := script_dir in
  let output_dir := default (current_dir ++ ["package"]) output_dir in
  let downloads_dir := current_dir ++ ["downloads"] in
  on_fs (path_mkdir false true downloads_dir);;
  files_info ← download_usd_zip downloads_dir;
  let new_created_version_dir := output_dir ++ [ADDON_NAME; ADDON_VERSION] in
  purge ← read_fs (λ t, isdir t new_created_version_dir);
  when purge (on_fs (shutil_rmtree output_dir));;
  _fill_client_version current_dir;;
  let addon_output_root := output_dir ++ [ADDON_NAME] in
  let addon_output_dir := addon_output_root ++ [ADDON_VERSION] in
  present ← read_fs (λ t, path_exists t addon_output_dir);
  when (negb present) (on_fs (os_makedirs addon_output_dir));;
  copy_server_content addon_output_dir current_dir;;
  let private_dir := addon_output_dir ++ ["private"] in
  present ← read_fs (λ t, path_exists t private_dir);
  when (negb present) (on_fs (path_mkdir true false private_dir));;
  for_each files_info (λ file_info,
    let filename := rec_filename file_info in
    let src_path := downloads_dir ++ [filename] in
    let dst_path := private_dir ++ [filename] in
    on_fs (shutil_copy src_path dst_path));;
  let zips_info_path := private_dir ++ ["files_info.json"] in
  on_fs (write_file zips_info_path (json_dumps files_info));;
  zip_client_side addon_output_dir current_dir;;
  when (negb skip_zip)
    (create_server_package current_dir output_dir addon_output_dir ADDON_VERSION;;
     when (negb keep_sources) (on_fs (shutil_rmtree addon_output_root))).

(** ** The directory tree: entries, lookups and updates *)

Lemma entry_get_put_eq n c es : entry_get n (entry_put n c es) = Some c.
Proof.
  induction es as [|[m c'] es IH]; simpl.
  - by rewrite decide_True.
  - destruct (decide (m = n)); simpl.
    + by rewrite decide_True.
    + by rewrite decide_False.
Qed.

Lemma entry_get_put_ne m n c es :
  m ≠ n → entry_get m (entry_put n c es) = entry_get m es.
Proof.
  intros Hne. induction es as [|[k c'] es IH]; simpl.
  - by rewrite decide_False.
  - destruct (decide (k = n)) as [->|]; simpl.
    + by rewrite !decide_False.
    + by rewrite IH.
Qed.

Lemma entry_get_del_eq n es : entry_get n (entry_del n es) = None.
Proof.
  unfold entry_del. induction es as [|[k c'] es IH]; [done|].
  rewrite filter_cons. simpl. destruct (decide (k ≠ n)); simpl; [|done].
  by rewrite decide_False.
Qed.

Lemma entry_get_del_ne m n es :
  m ≠ n → entry_get m (entry_del n es) = entry_get m es.
Proof.
  intros Hne. unfold entry_del. induction es as [|[k c'] es IH]; [done|].
  rewrite filter_cons. simpl. destruct (decide (k ≠ n)) as [Hk|Hk]; simpl.
  - by rewrite IH.
  - apply dec_stable in Hk. subst k. rewrite decide_False by done. apply IH.
Qed.

Lemma elem_of_names n es : n ∈ names es ↔ is_Some (entry_get n es).
Proof.
  induction es as [|[m c] es IH]; simpl.
  - split; [by intros ?%elem_of_nil | by intros [? ?]].
  - rewrite elem_of_cons, list_elem_of_filter, IH.
    destruct (decide (m = n)) as [->|Hne].
    + split; [by eauto | by left].
    + split; [by intros [->|[_ ?]] | intros ?; right; split; [congruence | done]].
Qed.

Lemma NoDup_names es : NoDup (names es).
Proof.
  induction es as [|[m c] es IH]; simpl; [constructor|].
  constructor; [|by apply NoDup_filter].
  rewrite list_elem_of_filter. by intros [? _].
Qed.

Lemma resolve_app t p q : resolve t (p ++ q) = resolve t p ≫= λ c, resolve c q.
Proof.
  revert t. induction p as [|n p IH]; intros t; simpl; [done|].
  destruct t as [d|es]; [done|].
  destruct (entry_get n es) as [c|]; simpl; [apply IH | done].
Qed.

(** An existing path has directories all the way above it. *)
Lemma stat_below_dir t p q :
  is_Some (stat t (p ++ q)) → q ≠ [] → stat t p = Some KDir.
Proof.
  unfold stat. rewrite resolve_app. intros [k Hk] Hq.
  destruct (resolve t p) as [[d|es]|]; simpl in *; [|done|done].
  by destruct q.
Qed.

Lemma parent_snoc p n : parent (p ++ [n]) = p.
Proof. unfold parent. by rewrite removelast_last. Qed.

Lemma path_snoc_parent (p : path) : p ≠ [] → p = parent p ++ [basename p].
Proof. intros Hp. unfold parent, basename. by apply app_removelast_last. Qed.

Lemma stat_parent_dir t p :
  p ≠ [] → is_Some (stat t p) → stat t (parent p) = Some KDir.
Proof.
  intros Hp Hs. rewrite (path_snoc_parent p Hp) in Hs.
  by apply stat_below_dir in Hs.
Qed.

Lemma stat_cons_dir es n q :
  stat (Dir es) (n :: q) = entry_get n es ≫= λ c, stat c q.
Proof. unfold stat. simpl. by destruct (entry_get n es). Qed.

Lemma put_dir_is_dir p v es : ∃ es', p ≠ [] → put p v (Dir es) = Dir es'.
Proof.
  destruct p as [|n [|m p]]; simpl.
  - by exists [].
  - by eexists.
  - destruct (entry_get n es); by eexists.
Qed.

(** Updating at [p] is invisible from every path that is not at or below
    [p]. *)
Lemma stat_put_frame p v t q : ¬ p `prefix_of` q → stat (put p v t) q = stat t q.
Proof.
  revert t q. induction p as [|n p IH]; intros t q Hpre.
  - destruct Hpre. apply prefix_nil.
  - destruct t as [d|es]; [done|].
    destruct q as [|m q].
    { destruct (put_dir_is_dir (n :: p) v es) as [es' Hes']. by rewrite Hes'. }
    simpl. destruct p as [|k p].
    + assert (m ≠ n) as Hne.
      { intros ->. apply Hpre. apply prefix_cons, prefix_nil. }
      rewrite !stat_cons_dir.
      destruct v; by rewrite ?entry_get_put_ne, ?entry_get_del_ne.
    + destruct (entry_get n es) as [c|] eqn:Hc; [|done].
      rewrite !stat_cons_dir. destruct (decide (m = n)) as [->|Hne].
      * rewrite entry_get_put_eq, Hc. simpl. apply IH.
        intros Hq. apply Hpre. by apply prefix_cons.
      * by rewrite entry_get_put_ne.
Qed.

(** Below a directory, a node put at [p] is found again at [p]. *)
Lemma resolve_put_below p c t q :
  p ≠ [] → stat t (parent p) = Some KDir →
  resolve (put p (Some c) t) (p ++ q) = resolve c q.
Proof.
  revert t. induction p as [|n p IH]; intros t Hp Hpar; [done|].
  destruct t as [d|es].
  { unfold stat in Hpar. destruct p; simpl in *; [done|]. done. }
  destruct p as [|k p]; simpl.
  - by rewrite entry_get_put_eq.
  - assert (parent (n :: k :: p) = n :: parent (k :: p)) as Hpp by done.
    rewrite Hpp, stat_cons_dir in Hpar.
    destruct (entry_get n es) as [c'|] eqn:Hc'; [|done]. simpl in Hpar.
    rewrite entry_get_put_eq. simpl. by apply (IH c').
Qed.

Lemma stat_put_eq p c t :
  p ≠ [] → stat t (parent p) = Some KDir →
  stat (put p (Some c) t) p = Some (kind_of c).
Proof.
  intros Hp Hpar. unfold stat.
  rewrite <-(app_nil_r p) at 2. by rewrite resolve_put_below.
Qed.

Lemma stat_put_new_dir_below p t q :
  p ≠ [] → stat t (parent p) = Some KDir → q ≠ [] →
  stat (put p (Some (Dir [])) t) (p ++ q) = None.
Proof.
  intros Hp Hpar Hq. unfold stat. rewrite resolve_put_below by done.
  by destruct q.
Qed.

(** Nothing is left at or below an unlinked path. *)
Lemma stat_put_none p t q : p ≠ [] → stat (put p None t) (p ++ q) = None.
Proof.
  revert t. induction p as [|n p IH]; intros t Hp; [done|].
  destruct t as [d|es]; [done|].
  destruct p as [|k p]; simpl.
  - rewrite stat_cons_dir. by rewrite entry_get_del_eq.
  - destruct (entry_get n es) as [c|] eqn:Hc.
    + rewrite stat_cons_dir, entry_get_put_eq. simpl. by apply IH.
    + rewrite stat_cons_dir, Hc. done.
Qed.

Lemma isdir_stat t p : isdir t p = true ↔ stat t p = Some KDir.
Proof. unfold isdir. destruct (stat t p) as [[d|]|]; split; intros; congruence. Qed.

Lemma isfile_stat t p : isfile t p = true ↔ ∃ d, stat t p = Some (KFile d).
Proof.
  unfold isfile. destruct (stat t p) as [[d|]|]; split; try done.
  - by eauto.
  - by intros [? ?].
  - by intros [? ?].
Qed.

Lemma path_exists_stat t p : path_exists t p = true ↔ is_Some (stat t p).
Proof.
  unfold path_exists. destruct (stat t p); split; (done || by intros [? ?]).
Qed.

Lemma path_exists_false t p : path_exists t p = false ↔ stat t p = None.
Proof. unfold path_exists. by destruct (stat t p). Qed.

Lemma stat_resolve_file t p d : stat t p = Some (KFile d) ↔ resolve t p = Some (File d).
Proof.
  unfold stat. destruct (resolve t p) as [[d'|es]|]; simpl; split; intros; congruence.
Qed.

Lemma stat_resolve_dir t p : stat t p = Some KDir ↔ ∃ es, resolve t p = Some (Dir es).
Proof.
  unfold stat. destruct (resolve t p) as [[d'|es]|]; simpl; split;
    first [by intros [? ?] | by eauto | done].
Qed.

Lemma stat_resolve_none t p : stat t p = None ↔ resolve t p = None.
Proof. unfold stat. by destruct (resolve t p). Qed.

(** ** Running the monad *)

Lemma bind_run {A B} (m : M A) (f : A → M B) w :
  (m ≫= f) w = match m w with
               | (Ok a, w') => f a w'
               | (Raise e, w') => (Raise e, w')
               end.
Proof. done. Qed.

Lemma bind_ok {A B} (m : M A) (f : A → M B) w b w' :
  (m ≫= f) w = (Ok b, w') ↔ ∃ a w1, m w = (Ok a, w1) ∧ f a w1 = (Ok b, w').
Proof.
  rewrite bind_run. destruct (m w) as [[a|e] w1]; split.
  - by eauto.
  - by intros (? & ? & [= <- <-] & ?).
  - done.
  - by intros (? & ? & ? & ?).
Qed.

Lemma on_fs_run {A} (f : fsop A) w :
  on_fs f w = ((f (fs w)).1, World (f (fs w)).2 (fetched w)).
Proof. unfold on_fs. by destruct (f (fs w)). Qed.

Lemma foldM_app {A S} (body : S → A → M S) l1 l2 s w :
  foldM body (l1 ++ l2) s w = (foldM body l1 s ≫= foldM body l2) w.
Proof.
  revert s w. induction l1 as [|x l1 IH]; intros s w; [done|].
  simpl. rewrite !bind_run. destruct (body s x w) as [[s'|e] w1]; [|done].
  by rewrite IH, bind_run.
Qed.

(** ** What the primitives change *)

(** The disk [t'] agrees with [t] on every path outside [P]. *)
Definition unchanged_off (P : path → Prop) (t t' : node) : Prop :=
  ∀ q, ¬ P q → stat t' q = stat t q.

Lemma unchanged_off_refl P t : unchanged_off P t t.
Proof. by intros q _. Qed.

Lemma unchanged_off_trans P t1 t2 t3 :
  unchanged_off P t1 t2 → unchanged_off P t2 t3 → unchanged_off P t1 t3.
Proof. intros H12 H23 q Hq. by rewrite H23, H12. Qed.

Lemma unchanged_off_weaken (P Q : path → Prop) t t' :
  (∀ q, P q → Q q) → unchanged_off P t t' → unchanged_off Q t t'.
Proof. intros HPQ H q Hq. apply H. intros HP. by apply Hq, HPQ. Qed.

Lemma path_error_cases t p :
  path_error t p = FileNotFoundError ∨ path_error t p = NotADirectoryError.
Proof.
  revert t. induction p as [|n p IH]; intros t; simpl; [by left|].
  destruct t as [d|es]; [by right|].
  destruct (entry_get n es); [apply IH | by left].
Qed.

Lemma path_error_not_exists t p : path_error t p ≠ FileExistsError.
Proof. by destruct (path_error_cases t p) as [-> | ->]. Qed.

Lemma stat_none_nonroot t p : stat t p = None → p ≠ [].
Proof. by intros Hs ->. Qed.

(** *** [os.mkdir] *)
Lemma os_mkdir_ok p t t' :
  os_mkdir p t = (Ok tt, t') →
  stat t p = None ∧ stat t (parent p) = Some KDir ∧ stat t' p = Some KDir.
Proof.
  unfold os_mkdir. destruct (path_exists t p) eqn:Hex; [done|].
  apply path_exists_false in Hex.
  destruct (stat t (parent p)) as [[d|]|] eqn:Hpar; try done.
  intros [= <-]. repeat split; [done..|].
  by apply (stat_put_eq p (Dir [])); [eapply stat_none_nonroot|].
Qed.

Lemma os_mkdir_raise p t e t' :
  os_mkdir p t = (Raise e, t') →
  t' = t ∧ (e = FileExistsError ↔ is_Some (stat t p)).
Proof.
  unfold os_mkdir. destruct (path_exists t p) eqn:Hex.
  - intros [= <- <-]. apply path_exists_stat in Hex. by split.
  - apply path_exists_false in Hex.
    assert (path_error t p = FileExistsError ↔ is_Some (stat t p)).
    { rewrite Hex. split; [by intros ?%path_error_not_exists | by intros [? ?]]. }
    destruct (stat t (parent p)) as [[d|]|]; try done; by intros [= <- <-].
Qed.

Lemma os_mkdir_only p t r t' :
  os_mkdir p t = (r, t') → unchanged_off (λ q, q = p) t t'.
Proof.
  destruct r as [[]|e].
  - intros Hok. pose proof (os_mkdir_ok _ _ _ Hok) as (Hnone & Hpar & _).
    revert Hok. unfold os_mkdir.
    rewrite (proj2 (path_exists_false t p) Hnone), Hpar. intros [= <-] q Hq.
    assert (p ≠ []) as Hp by by eapply stat_none_nonroot.
    destruct (decide (p `prefix_of` q)) as [[k ->]|Hpre].
    + assert (k ≠ []) as Hk by (intros ->; by rewrite app_nil_r in Hq).
      rewrite stat_put_new_dir_below by done.
      destruct (stat t (p ++ k)) eqn:Hs; [|done].
      assert (is_Some (stat t (p ++ k))) as Hsome by by eexists.
      apply stat_below_dir in Hsome; [congruence|done].
    + by apply stat_put_frame.
  - intros [-> _]%os_mkdir_raise. apply unchanged_off_refl.
Qed.

(** *** [open(p, "wb")] and [open(p, "rb")] *)
Lemma write_file_ok p d t t' :
  write_file p d t = (Ok tt, t') → stat t' p = Some (KFile d).
Proof.
  unfold write_file.
  destruct (stat t p) as [[d'|]|] eqn:Hs; [| done |].
  - intros [= <-]. destruct (decide (p = [])) as [->|Hp].
    + unfold stat in Hs. simpl in Hs. by destruct t.
    + apply (stat_put_eq p (File d)); [done|]. by apply stat_parent_dir.
  - destruct (stat t (parent p)) as [[d'|]|] eqn:Hpar; try done.
    intros [= <-]. apply (stat_put_eq p (File d)); [|done]. by eapply stat_none_nonroot.
Qed.

Lemma write_file_parent p d t t' :
  write_file p d t = (Ok tt, t') → p ≠ [] → stat t (parent p) = Some KDir.
Proof.
  unfold write_file. intros Hw Hp.
  destruct (stat t p) as [[d'|]|] eqn:Hs; [| done |].
  - by apply stat_parent_dir.
  - by destruct (stat t (parent p)) as [[d'|]|].
Qed.

Lemma write_file_raise p d t e t' : write_file p d t = (Raise e, t') → t' = t.
Proof.
  unfold write_file. destruct (stat t p) as [[d'|]|]; [done| by intros [= _ <-] |].
  destruct (stat t (parent p)) as [[d'|]|]; (done || by intros [= _ <-]).
Qed.

Lemma write_file_frame p d t r t' :
  write_file p d t = (r, t') → unchanged_off (λ q, p `prefix_of` q) t t'.
Proof.
  unfold write_file. intros Hw q Hq.
  destruct (stat t p) as [[d'|]|]; simplify_eq; [by apply stat_put_frame|done|].
  destruct (stat t (parent p)) as [[d'|]|]; simplify_eq; (done || by apply stat_put_frame).
Qed.

Lemma read_file_inv p t r t' :
  read_file p t = (r, t') → t' = t ∧ ∀ d, r = Ok d ↔ resolve t p = Some (File d).
Proof.
  unfold read_file. destruct (resolve t p) as [[d|es]|]; intros [= <- <-];
    (split; [done|]); intros d'; split; intros; congruence.
Qed.

(** *** [os.remove] and [shutil.rmtree] *)
Lemma os_remove_frame p t r t' :
  os_remove p t = (r, t') → unchanged_off (λ q, p `prefix_of` q) t t'.
Proof.
  unfold os_remove. intros Hw q Hq.
  destruct (stat t p) as [[d'|]|]; simplify_eq; (done || by apply stat_put_frame).
Qed.

Lemma os_remove_ok p t t' :
  p ≠ [] → os_remove p t = (Ok tt, t') →
  stat t' p = None ∧ stat t (parent p) = Some KDir.
Proof.
  unfold os_remove. intros Hp. destruct (stat t p) as [[d'|]|] eqn:Hs; try done.
  intros [= <-]. split; [|by apply stat_parent_dir].
  rewrite <-(app_nil_r p) at 2. by apply stat_put_none.
Qed.

Lemma shutil_rmtree_frame p t r t' :
  shutil_rmtree p t = (r, t') → unchanged_off (λ q, p `prefix_of` q) t t'.
Proof.
  unfold shutil_rmtree. intros Hw q Hq.
  destruct (stat t p) as [[d'|]|]; simplify_eq; try done.
  destruct p; simplify_eq; [|by apply stat_put_frame].
  destruct Hq. apply prefix_nil.
Qed.

Lemma shutil_rmtree_ok p t t' :
  shutil_rmtree p t = (Ok tt, t') → ∀ q, p `prefix_of` q → stat t' q = None.
Proof.
  unfold shutil_rmtree. destruct (stat t p) as [[d'|]|]; try done.
  destruct p as [|n p]; [done|]. intros [= <-] q [k ->]. by apply (stat_put_none (n :: p)).
Qed.

(** A removal only removes: what is there afterwards was there before. *)
Lemma shutil_rmtree_shrinks p t r t' q k :
  shutil_rmtree p t = (r, t') → stat t' q = Some k → stat t q = Some k.
Proof.
  unfold shutil_rmtree. intros Hrm Hq.
  destruct (stat t p) as [[d'|]|] eqn:Hs; simplify_eq; try done.
  destruct p as [|n p]; simplify_eq.
  - destruct q; [|done]. unfold stat in *. simpl in *. destruct t; by simplify_eq.
  - destruct (decide ((n :: p) `prefix_of` q)) as [[k' ->]|Hpre].
    + by rewrite stat_put_none in Hq.
    + by rewrite stat_put_frame in Hq.
Qed.

(** *** [shutil.copy] *)
Lemma shutil_copy_frame src dst t r t' :
  shutil_copy src dst t = (r, t') → unchanged_off (λ q, dst `prefix_of` q) t t'.
Proof.
  unfold shutil_copy. intros Hc.
  destruct (path_exists t src && _); [simplify_eq; apply unchanged_off_refl|].
  destruct (read_file src t) as [[d|e] t1]; [|simplify_eq; apply unchanged_off_refl].
  apply write_file_frame in Hc. eapply unchanged_off_weaken; [|done].
  intros q. simpl. destruct (isdir t dst); [|done]. apply prefix_app_l.
Qed.

(** A successful copy wrote into a directory that was there. *)
Lemma shutil_copy_ok_parent src dst t t' :
  shutil_copy src dst t = (Ok tt, t') → dst ≠ [] → stat t (parent dst) = Some KDir.
Proof.
  unfold shutil_copy. intros Hc Hdst.
  destruct (path_exists t src && _); [done|].
  destruct (read_file src t) as [[d|e2] t1]; [|done].
  destruct (isdir t dst) eqn:Hd.
  - apply stat_parent_dir; [done|]. apply isdir_stat in Hd. by rewrite Hd.
  - by apply write_file_parent in Hc.
Qed.

(** *** [os.makedirs] *)
Lemma makedirs_rev_spec rp t r t' :
  makedirs_rev rp t = (r, t') →
  unchanged_off (λ q, q `prefix_of` rev rp) t t' ∧
  match r with
  | Ok _ => stat t' (rev rp) = Some KDir
  | Raise e =>
      if decide (e = FileExistsError) then t' = t ∧ is_Some (stat t (rev rp))
      else stat t' (rev rp) = None
  end.
Proof.
  revert t r t'. induction rp as [|n rhead IH]; intros t r t'.
  { simpl. intros [= <- <-]. split; [apply unchanged_off_refl|]. by split. }
  assert (∀ t1 r t',
    os_mkdir (rev (n :: rhead)) t1 = (r, t') →
    unchanged_off (λ q, q `prefix_of` rev (n :: rhead)) t1 t' ∧
    match r with
    | Ok _ => stat t' (rev (n :: rhead)) = Some KDir
    | Raise e => t' = t1 ∧ (e = FileExistsError ↔ is_Some (stat t1 (rev (n :: rhead))))
    end) as Hlast.
  { intros t1 r1 t1' Hmk. split.
    - eapply unchanged_off_weaken; [|by eapply os_mkdir_only]. by intros q ->.
    - destruct r1 as [[]|e]; [by apply os_mkdir_ok in Hmk as (_ & _ & ?)|].
      by apply os_mkdir_raise in Hmk. }
  cbn [makedirs_rev]. destruct (path_exists t (rev rhead)) eqn:Hhead.
  - intros Hmk. apply Hlast in Hmk as [Hfr Hres]. split; [done|].
    destruct r as [[]|e]; [done|]. destruct Hres as [-> Hres].
    case_decide; [split; [done|by apply Hres]|].
    destruct (stat t (rev (n :: rhead))) eqn:Hs; [|done].
    destruct H. by apply Hres.
  - apply path_exists_false in Hhead.
    assert (stat t (rev (n :: rhead)) = None) as Hnone.
    { destruct (stat t (rev (n :: rhead))) eqn:Hs; [|done].
      assert (is_Some (stat t (rev rhead ++ [n]))) as Hsome by (by eexists).
      apply stat_below_dir in Hsome; [congruence|done]. }
    destruct (makedirs_rev rhead t) as [r1 t1] eqn:Hrec.
    apply IH in Hrec as [Hfr1 Hres1].
    assert (unchanged_off (λ q, q `prefix_of` rev (n :: rhead)) t t1) as Hfr1'.
    { eapply unchanged_off_weaken; [|done]. intros q. simpl. apply prefix_app_r. }
    assert (stat t1 (rev (n :: rhead)) = None) as Hnone1.
    { rewrite Hfr1; [done|]. simpl. apply prefix_snoc_not. }
    assert (∀ r t', os_mkdir (rev (n :: rhead)) t1 = (r, t') →
      unchanged_off (λ q, q `prefix_of` rev (n :: rhead)) t t' ∧
      match r with
      | Ok _ => stat t' (rev (n :: rhead)) = Some KDir
      | Raise e =>
          if decide (e = FileExistsError) then t' = t ∧ is_Some (stat t (rev (n :: rhead)))
          else stat t' (rev (n :: rhead)) = None
      end) as Hthen.
    { intros r2 t2 Hmk. apply Hlast in Hmk as [Hfr Hres]. split.
      - by eapply unchanged_off_trans.
      - destruct r2 as [[]|e]; [done|]. destruct Hres as [-> Hres].
        case_decide; [|done]. subst e.
        destruct Hres as [Hres _]. specialize (Hres eq_refl).
        rewrite Hnone1 in Hres. by destruct Hres. }
    destruct r1 as [[]|e1]; [by apply Hthen|].
    destruct (decide (e1 = FileExistsError)) as [->|Hne].
    { destruct Hres1 as [_ Hsome]. rewrite Hhead in Hsome. by destruct Hsome. }
    assert (stat t1 (rev (n :: rhead)) = None) as Hn1 by done.
    destruct e1; try done; intros [= <- <-]; (split; [done|]); by case_decide.
Qed.

Lemma os_makedirs_frame p t r t' :
  os_makedirs p t = (r, t') → unchanged_off (λ q, q `prefix_of` p) t t'.
Proof.
  unfold os_makedirs. intros [Hfr _]%makedirs_rev_spec. by rewrite rev_involutive in Hfr.
Qed.

(** [os.makedirs] fails with "already exists" only when the path is there,
    and then it has changed nothing; after any other failure the path is
    not there. *)
Lemma os_makedirs_raise p t e t' :
  os_makedirs p t = (Raise e, t') →
  if decide (e = FileExistsError) then t' = t ∧ is_Some (stat t p)
  else stat t' p = None.
Proof.
  unfold os_makedirs. intros [_ Hres]%makedirs_rev_spec. by rewrite rev_involutive in Hres.
Qed.

Lemma os_makedirs_existing p t :
  is_Some (stat t p) → os_makedirs p t = (Raise FileExistsError, t).
Proof.
  intros Hs. unfold os_makedirs. destruct (rev p) as [|n rhead] eqn:Hrev.
  { done. }
  assert (p = rev rhead ++ [n]) as ->.
  { by rewrite <-(rev_involutive p), Hrev. }
  cbn [makedirs_rev].
  assert (path_exists t (rev rhead) = true) as ->.
  { apply path_exists_stat. apply stat_below_dir in Hs; [by rewrite Hs|done]. }
  unfold os_mkdir. simpl rev. by rewrite (proj2 (path_exists_stat _ _) Hs).
Qed.

(** *** [Path.mkdir] *)
Lemma path_mkdir_rev_root parents exist_ok t r t' :
  path_mkdir_rev parents exist_ok [] t = (r, t') →
  t' = t ∧ (r = Ok tt → stat t [] = Some KDir).
Proof. destruct t, exist_ok, parents; cbn; intros [= <- <-]; by split. Qed.

Lemma path_mkdir_flat exist_ok p t r t' :
  path_mkdir false exist_ok p t = (r, t') →
  unchanged_off (λ q, q = p) t t' ∧ (r = Ok tt → stat t' p = Some KDir).
Proof.
  unfold path_mkdir. destruct (rev p) as [|n rp] eqn:Hrev.
  - assert (p = []) as -> by (by rewrite <-(rev_involutive p), Hrev).
    intros [-> Hroot]%path_mkdir_rev_root. split; [apply unchanged_off_refl|done].
  - assert (rev (n :: rp) = p) as Hp by (by rewrite <-Hrev, rev_involutive).
    cbn [path_mkdir_rev]. rewrite Hp.
    destruct (os_mkdir p t) as [r1 t1] eqn:Hmk.
    pose proof (os_mkdir_only _ _ _ _ Hmk) as Hfr.
    destruct r1 as [[]|e].
    + intros [= <- <-]. split; [done|]. intros _. by apply os_mkdir_ok in Hmk as (_ & _ & ?).
    + destruct e; try (intros [= <- <-]; by split);
        (destruct (exist_ok && isdir t1 p) eqn:Hd; intros [= <- <-]; (split; [done|]); [|done];
         intros _; apply andb_true_iff in Hd as [_ Hd]; by apply isdir_stat).
Qed.

Lemma path_mkdir_rev_spec parents exist_ok rp t r t' :
  path_mkdir_rev parents exist_ok rp t = (r, t') →
  unchanged_off (λ q, q `prefix_of` rev rp) t t' ∧ (r = Ok tt → stat t' (rev rp) = Some KDir).
Proof.
  revert parents exist_ok t r t'. induction rp as [|n rp IH]; intros parents exist_ok t r t'.
  - intros [-> Hroot]%path_mkdir_rev_root. split; [apply unchanged_off_refl|done].
  - assert (∀ t1 r1 t2 r t',
      os_mkdir (rev (n :: rp)) t1 = (r1, t2) →
      match r1 with
      | Ok _ => (Ok tt, t2)
      | Raise FileNotFoundError => (Raise FileNotFoundError, t2)
      | Raise e => if exist_ok && isdir t2 (rev (n :: rp)) then (Ok tt, t2) else (Raise e, t2)
      end = (r, t') →
      unchanged_off (λ q, q `prefix_of` rev (n :: rp)) t1 t' ∧
      (r = Ok tt → stat t' (rev (n :: rp)) = Some KDir)) as Htol.
    { intros t1 r1 t2 r2 t2' Hmk Hres.
      assert (unchanged_off (λ q, q `prefix_of` rev (n :: rp)) t1 t2) as Hfr.
      { eapply unchanged_off_weaken; [|by eapply os_mkdir_only]. by intros q ->. }
      destruct r1 as [[]|e].
      - simplify_eq. split; [done|]. intros _. by apply os_mkdir_ok in Hmk as (_ & _ & ?).
      - destruct e; try (simplify_eq; by split);
          (destruct (exist_ok && isdir t2 (rev (n :: rp))) eqn:Hd; simplify_eq;
           (split; [done|]); [|done];
           intros _; apply andb_true_iff in Hd as [_ Hd]; by apply isdir_stat). }
    cbn [path_mkdir_rev].
    destruct (os_mkdir (rev (n :: rp)) t) as [r1 t1] eqn:Hmk.
    destruct r1 as [[]|e]; [intros Hres; by apply (Htol t (Ok tt) t1 r t')|].
    destruct (decide (e = FileNotFoundError)) as [->|Hne].
    + apply os_mkdir_raise in Hmk as [-> _].
      destruct parents; [|intros [= <- <-]; split; [apply unchanged_off_refl|done]].
      destruct (path_mkdir_rev true true rp t) as [r2 t2] eqn:Hrec.
      apply IH in Hrec as [Hfr2 _].
      assert (unchanged_off (λ q, q `prefix_of` rev (n :: rp)) t t2) as Hfr2'.
      { eapply unchanged_off_weaken; [|done]. intros q. simpl. apply prefix_app_r. }
      destruct r2 as [[]|e2]; [|by intros [= <- <-]].
      destruct (os_mkdir (rev (n :: rp)) t2) as [r3 t3] eqn:Hmk3.
      intros Hres. destruct (Htol _ _ _ _ _ Hmk3 Hres) as [Hfr3 Hok].
      split; [by eapply unchanged_off_trans|done].
    + intros Hres. destruct e; try done; by apply (Htol _ _ _ _ _ Hmk).
Qed.

Lemma path_mkdir_spec parents exist_ok p t r t' :
  path_mkdir parents exist_ok p t = (r, t') →
  unchanged_off (λ q, q `prefix_of` p) t t' ∧ (r = Ok tt → stat t' p = Some KDir).
Proof.
  unfold path_mkdir. intros Hspec%path_mkdir_rev_spec. by rewrite rev_involutive in Hspec.
Qed.
(** ** [calculate_file_checksum] *)

(** The chunk sizes with which every [read] is served and the loop does not
    end at once: from 1 up to what the allocator grants and a [bytes] object
    can hold, or -1 for the whole file at once. *)
Definition chunk_served (chunk_size : Z) : Prop :=
  (0 < chunk_size ∧ chunk_size ≤ read_max ∧
   chunk_size ≤ PY_SSIZE_T_MAX - PyBytesObject_SIZE)%Z ∨ chunk_size = (-1)%Z.

Lemma default_chunk_served : chunk_served default_chunk_size.
Proof. left. unfold read_max, default_chunk_size, PY_SSIZE_T_MAX, PyBytesObject_SIZE. lia. Qed.

Lemma file_read_served (chunk_size : Z) rest :
  (0 < chunk_size ∧ chunk_size ≤ read_max ∧
   chunk_size ≤ PY_SSIZE_T_MAX - PyBytesObject_SIZE)%Z →
  file_read chunk_size rest
  = Ok (take (Z.to_nat chunk_size) rest, drop (Z.to_nat chunk_size) rest).
Proof.
  intros (Hpos & Hmem & Hidx). unfold file_read.
  destruct (chunk_size <? -1)%Z eqn:H1; [lia|].
  destruct (chunk_size =? -1)%Z eqn:H2; [lia|].
  destruct (PY_SSIZE_T_MAX - PyBytesObject_SIZE <? chunk_size)%Z eqn:H3; [lia|].
  destruct (read_max <? chunk_size)%Z eqn:H4; [lia|]. done.
Qed.

Lemma file_read_all rest : file_read (-1) rest = Ok (rest, []).
Proof. done. Qed.

Lemma hash_chunks_whole H (chunk_size : Z) fuel rest h :
  chunk_served chunk_size → length rest < fuel →
  hash_chunks fuel H chunk_size rest h = Ok (hupdate H h rest).
Proof.
  intros Hsize. revert rest h. induction fuel as [|fuel IH]; intros rest h Hfuel; [lia|].
  cbn [hash_chunks]. destruct Hsize as [Hsize| ->].
  - rewrite file_read_served by done.
    destruct rest as [|b rest].
    { rewrite take_nil. by rewrite hupdate_nil. }
    destruct (Z.to_nat chunk_size) as [|n] eqn:Hn; [lia|].
    simpl take. simpl drop.
    rewrite IH.
    + rewrite hupdate_app. simpl. by rewrite take_drop.
    + rewrite length_drop. simpl in Hfuel. lia.
  - rewrite file_read_all.
    destruct rest as [|b rest]; [by rewrite hupdate_nil|].
    rewrite IH by (simpl in *; lia). by rewrite hupdate_app, app_nil_r.
Qed.

Lemma file_read_zero rest : file_read 0 rest = Ok ([], rest).
Proof.
  unfold file_read. cbn [Z.ltb Z.eqb Z.compare].
  destruct (PY_SSIZE_T_MAX - PyBytesObject_SIZE <? 0)%Z eqn:H3;
    [unfold PY_SSIZE_T_MAX, PyBytesObject_SIZE in H3; lia|].
  destruct (read_max <? 0)%Z eqn:H4; [unfold read_max, default_chunk_size in H4; lia|].
  by rewrite take_0, drop_0.
Qed.

Lemma hash_chunks_zero H fuel rest h :
  hash_chunks (S fuel) H 0 rest h = Ok h.
Proof. cbn [hash_chunks]. by rewrite file_read_zero. Qed.

Lemma hash_chunks_negative H fuel (chunk_size : Z) rest h :
  (chunk_size < -1)%Z →
  hash_chunks (S fuel) H chunk_size rest h
  = Raise (ValueError "read length must be non-negative or -1").
Proof.
  intros Hlt. simpl. unfold file_read.
  destruct (chunk_size <? -1)%Z eqn:Hc; [done|lia].
Qed.

(** A chunk size no [bytes] object can hold, or none the allocator grants:
    the first [read] raises. *)
Lemma hash_chunks_too_large H fuel (chunk_size : Z) rest h :
  (PY_SSIZE_T_MAX - PyBytesObject_SIZE < chunk_size ∨ read_max < chunk_size)%Z →
  hash_chunks (S fuel) H chunk_size rest h
  = Raise (if (PY_SSIZE_T_MAX - PyBytesObject_SIZE <? chunk_size)%Z
           then OverflowError else MemoryError).
Proof.
  intros Hbig. simpl. unfold file_read.
  assert (0 < chunk_size)%Z as Hpos.
  { unfold read_max, default_chunk_size, PY_SSIZE_T_MAX, PyBytesObject_SIZE in Hbig. lia. }
  destruct (chunk_size <? -1)%Z eqn:H1; [lia|].
  destruct (chunk_size =? -1)%Z eqn:H2; [lia|].
  destruct (PY_SSIZE_T_MAX - PyBytesObject_SIZE <? chunk_size)%Z eqn:H3; [done|].
  destruct (read_max <? chunk_size)%Z eqn:H4; [done|lia].
Qed.

Lemma calculate_file_checksum_file filepath alg H (chunk_size : Z) w data :
  hashlib alg = Some H → resolve (fs w) filepath = Some (File data) →
  calculate_file_checksum filepath alg chunk_size w
  = match hash_chunks (2 + length data) H chunk_size data (hnew H) with
    | Ok h => (Ok (hexdigest H h), w)
    | Raise e => (Raise e, w)
    end.
Proof.
  intros HH Hfile. unfold calculate_file_checksum. rewrite HH.
  rewrite bind_run, on_fs_run. unfold read_file. rewrite Hfile.
  destruct w as [t f]. cbn [fst snd fs fetched].
  by destruct (hash_chunks _ _ _ _ _).
Qed.

(** The checksum reads the disk and leaves the world as it is. *)
Lemma calculate_file_checksum_pure filepath alg chunk_size w r w' :
  calculate_file_checksum filepath alg chunk_size w = (r, w') → w' = w.
Proof.
  unfold calculate_file_checksum. destruct (hashlib alg) as [H|]; [|by intros [= _ <-]].
  rewrite bind_run, on_fs_run. unfold read_file.
  destruct w as [t f]. cbn [fst snd fs fetched].
  destruct (resolve t filepath) as [[d|es]|]; cbn [fst snd]; try by intros [= _ <-].
  destruct (hash_chunks _ _ _ _ _); by intros [= _ <-].
Qed.

(** The reader is never cut short by the model: the steps it is given
    suffice for every chunk size. *)
Lemma hash_chunks_not_stuck H (chunk_size : Z) data h :
  hash_chunks (2 + length data) H chunk_size data h ≠ Raise Stuck.
Proof.
  change (2 + length data) with (S (S (length data))).
  destruct (decide (chunk_size < -1)%Z) as [Hneg|Hge].
  { by rewrite hash_chunks_negative. }
  destruct (decide (chunk_size = 0%Z)) as [->|Hnz].
  { by rewrite hash_chunks_zero. }
  destruct (decide (PY_SSIZE_T_MAX - PyBytesObject_SIZE < chunk_size ∨
                    read_max < chunk_size)%Z) as [Hbig|Hfit].
  { rewrite hash_chunks_too_large by done. by destruct (_ <? _)%Z. }
  rewrite hash_chunks_whole; [done| |lia].
  destruct (decide (chunk_size = (-1)%Z)) as [->|Hne]; [by right|left; lia].
Qed.

Lemma calculate_file_checksum_not_stuck filepath alg chunk_size w :
  (calculate_file_checksum filepath alg chunk_size w).1 ≠ Raise Stuck.
Proof.
  unfold calculate_file_checksum. destruct (hashlib alg) as [H|]; [|done].
  rewrite bind_run, on_fs_run. unfold read_file.
  destruct (resolve (fs w) filepath) as [[d|es]|]; cbn [fst snd]; [|done|].
  - pose proof (hash_chunks_not_stuck H chunk_size d (hnew H)).
    by destruct (hash_chunks _ _ _ _ _) as [h|[]].
  - by destruct (path_error_cases (fs w) filepath) as [-> | ->].
Qed.

Lemma calculate_file_checksum_whole alg H data filepath w (chunk_size : Z) :
  hashlib alg = Some H →
  resolve (fs w) filepath = Some (File data) →
  chunk_served chunk_size →
  calculate_file_checksum filepath alg chunk_size w = (Ok (digest H data), w).
Proof.
  intros HH Hfile Hcs.
  rewrite (calculate_file_checksum_file _ alg H chunk_size _ data) by done.
  rewrite hash_chunks_whole by (done || lia). done.
Qed.


(** ** [safe_copy_file] *)

Lemma suppress_run (m : M unit) w : suppress m w = (Ok tt, (m w).2).
Proof. unfold suppress. by destruct (m w). Qed.

Lemma safe_copy_file_run src_path dst_path w :
  src_path ≠ dst_path →
  safe_copy_file src_path dst_path w
  = on_fs (shutil_copy src_path dst_path)
          (World (os_makedirs (parent dst_path) (fs w)).2 (fetched w)).
Proof.
  intros Hne. unfold safe_copy_file. rewrite decide_False by done.
  rewrite bind_run, suppress_run. by rewrite (on_fs_run (os_makedirs _)).
Qed.

(** C6, as amended: in [safe_copy_file] whatever [os.makedirs] raises is
    dropped, not only the error of a directory that is already there: the
    copy is attempted on the disk the directory creation left, and the
    outcome of the copy is the outcome of the call, so every error of the
    copy itself propagates.  A destination directory that exists makes the
    directory creation fail with the disk as it was.  Any other failure of
    the directory creation leaves the destination directory missing, so the
    call does fail then, with the error of the copy. *)
Theorem safe_copy_file_suppresses_directory_errors src_path dst_path w :
  src_path ≠ dst_path → dst_path ≠ [] →
  let dst_dir := parent dst_path in
  let copy_on t1 := on_fs (shutil_copy src_path dst_path) (World t1 (fetched w)) in
  (∀ r t1, os_makedirs dst_dir (fs w) = (r, t1) →
     safe_copy_file src_path dst_path w = copy_on t1) ∧
  (stat (fs w) dst_dir = Some KDir →
     os_makedirs dst_dir (fs w) = (Raise FileExistsError, fs w) ∧
     safe_copy_file src_path dst_path w = on_fs (shutil_copy src_path dst_path) w) ∧
  (∀ e t1, os_makedirs dst_dir (fs w) = (Raise e, t1) →
     stat (fs w) dst_dir ≠ Some KDir →
     ∃ e' w', safe_copy_file src_path dst_path w = (Raise e', w') ∧
              copy_on t1 = (Raise e', w')) ∧
  (∀ r t1 e w', os_makedirs dst_dir (fs w) = (r, t1) →
     copy_on t1 = (Raise e, w') →
     safe_copy_file src_path dst_path w = (Raise e, w')).
Proof.
  intros Hne Hdst dst_dir copy_on.
  assert (∀ r t1, os_makedirs dst_dir (fs w) = (r, t1) →
                  safe_copy_file src_path dst_path w = copy_on t1) as Hrun.
  { intros r t1 Hmk. rewrite safe_copy_file_run by done. fold dst_dir. by rewrite Hmk. }
  split; [done|]. split; [|split].
  - intros Hdir.
    assert (os_makedirs dst_dir (fs w) = (Raise FileExistsError, fs w)) as Hmk.
    { apply os_makedirs_existing. by rewrite Hdir. }
    split; [done|]. rewrite (Hrun _ _ Hmk). unfold copy_on. by destruct w.
  - intros e t1 Hmk Hnodir. rewrite (Hrun _ _ Hmk). unfold copy_on.
    rewrite on_fs_run. cbn [fs fetched].
    destruct (shutil_copy src_path dst_path t1) as [[[]|e'] t2] eqn:Hcopy;
      [|by eexists _, _].
    apply shutil_copy_ok_parent in Hcopy; [|done]. fold dst_dir in Hcopy.
    apply os_makedirs_raise in Hmk. case_decide.
    + destruct Hmk as [-> _]. done.
    + congruence.
  - intros r t1 e w' Hmk Hcopy. by rewrite (Hrun _ _ Hmk).
Qed.

(** ** [download_usd_zip] *)

Definition record_of (item : string * platform_info) : archive_record :=
  ArchiveRecord ADDON_NAME (str_last_segment (url item.2)) (checksum item.2)
                (checksum_algorithm item.2) item.1.

Definition zip_path_of (downloads_dir : path) (item : string * platform_info) : path :=
  downloads_dir ++ [str_last_segment (url item.2)].

(** The records of a source spec, entry by entry, in its own order. *)
Definition records_of (sources : list (string * list (string * platform_info)))
    : list archive_record :=
  flat_map (λ version, map record_of version.2) sources.

Definition strictly_below (d q : path) : Prop := ∃ n k, q = d ++ n :: k.

Lemma strictly_below_prefix d n q : (d ++ [n]) `prefix_of` q → strictly_below d q.
Proof. intros [k ->]. exists n, k. by rewrite <-app_assoc. Qed.

Lemma not_strictly_below_self d : ¬ strictly_below d d.
Proof.
  intros (n & k & Hd). apply (f_equal length) in Hd.
  rewrite length_app in Hd. simpl in Hd. lia.
Qed.

Lemma calculate_file_checksum_default filepath alg H w data :
  hashlib alg = Some H → resolve (fs w) filepath = Some (File data) →
  calculate_file_checksum filepath alg default_chunk_size w = (Ok (digest H data), w).
Proof.
  intros HH Hf. apply calculate_file_checksum_whole; [done..|].
  apply default_chunk_served.
Qed.

Lemma urlretrieve_run src_url dst w :
  urlretrieve src_url dst w
  = match urlopen src_url with
    | None => (Raise URLError, World (fs w) (fetched w ++ [src_url]))
    | Some (Complete data) =>
        ((write_file dst data (fs w)).1,
         World (write_file dst data (fs w)).2 (fetched w ++ [src_url]))
    | Some (Broken data e) =>
        (match (write_file dst data (fs w)).1 with Ok _ => Raise e | Raise e' => Raise e' end,
         World (write_file dst data (fs w)).2 (fetched w ++ [src_url]))
    end.
Proof.
  unfold urlretrieve. destruct (urlopen src_url) as [[data|data e]|]; [| |done].
  - by rewrite on_fs_run.
  - rewrite bind_run, on_fs_run. cbn [fs fetched].
    by destruct (write_file dst data (fs w)) as [[[]|e'] t'].
Qed.

Lemma urlretrieve_frame src_url dst w r w' :
  urlretrieve src_url dst w = (r, w') →
  unchanged_off (λ q, dst `prefix_of` q) (fs w) (fs w').
Proof.
  rewrite urlretrieve_run. destruct (urlopen src_url) as [[data|data e]|].
  - destruct (write_file dst data (fs w)) as [r1 t1] eqn:Hw. intros [= <- <-].
    by eapply write_file_frame.
  - destruct (write_file dst data (fs w)) as [r1 t1] eqn:Hw. intros [= <- <-].
    by eapply write_file_frame.
  - intros [= <- <-]. apply unchanged_off_refl.
Qed.

Lemma download_one_run downloads_dir acc item w :
  download_one downloads_dir acc item w
  = let zip_path := zip_path_of downloads_dir item in
    let alg := checksum_algorithm item.2 in
    let fresh w1 :=
      (urlretrieve (url item.2) zip_path;;
       file_checksum ← calculate_file_checksum zip_path alg default_chunk_size;
       if decide (checksum item.2 ≠ file_checksum) then
         raise (ValueError (mismatch_message file_checksum (checksum item.2)))
       else mret (acc ++ [record_of item])) w1 in
    if path_exists (fs w) zip_path then
      match calculate_file_checksum zip_path alg default_chunk_size w with
      | (Ok file_checksum, w1) =>
          if decide (checksum item.2 = file_checksum) then (Ok (acc ++ [record_of item]), w1)
          else match on_fs (os_remove zip_path) w1 with
               | (Ok _, w2) => fresh w2
               | (Raise e, w2) => (Raise e, w2)
               end
      | (Raise e, w1) => (Raise e, w1)
      end
    else fresh w.
Proof.
  destruct item as [pn info]. unfold download_one, zip_path_of, record_of. cbn [fst snd].
  rewrite bind_run. unfold read_fs at 1. cbn beta iota zeta.
  destruct (path_exists (fs w) _); [|done].
  rewrite bind_run. rewrite bind_run.
  destruct (calculate_file_checksum _ _ _ w) as [[fc|e] w1]; [|done].
  case_decide; [done|].
  rewrite bind_run. by destruct (on_fs _ w1) as [[[]|e] w2].
Qed.

Lemma fresh_download_inv downloads_dir acc item w r w' :
  let zip_path := zip_path_of downloads_dir item in
  (urlretrieve (url item.2) zip_path;;
   file_checksum ← calculate_file_checksum zip_path (checksum_algorithm item.2)
                     default_chunk_size;
   if decide (checksum item.2 ≠ file_checksum) then
     raise (ValueError (mismatch_message file_checksum (checksum item.2)))
   else mret (acc ++ [record_of item])) w = (r, w') →
  unchanged_off (λ q, zip_path `prefix_of` q) (fs w) (fs w') ∧
  (∀ l, r = Ok l → l = acc ++ [record_of item]).
Proof.
  intros zip_path. rewrite bind_run.
  destruct (urlretrieve _ _ w) as [[[]|e] w1] eqn:Hurl;
    pose proof (urlretrieve_frame _ _ _ _ _ Hurl) as Hfr; [|by intros [= <- <-]].
  rewrite bind_run.
  destruct (calculate_file_checksum _ _ _ w1) as [[fc|e] w2] eqn:Hc;
    apply calculate_file_checksum_pure in Hc as ->; [|by intros [= <- <-]].
  case_decide; intros [= <- <-]; split; try done. by intros l [= <-].
Qed.

Lemma download_one_inv downloads_dir acc item w r w' :
  download_one downloads_dir acc item w = (r, w') →
  unchanged_off (λ q, zip_path_of downloads_dir item `prefix_of` q) (fs w) (fs w') ∧
  (∀ l, r = Ok l → l = acc ++ [record_of item]).
Proof.
  rewrite download_one_run. cbn zeta.
  destruct (path_exists (fs w) _); [|apply fresh_download_inv].
  destruct (calculate_file_checksum _ _ _ w) as [[fc|e] w1] eqn:Hc;
    apply calculate_file_checksum_pure in Hc as ->;
    [|intros [= <- <-]; split; [apply unchanged_off_refl|done]].
  case_decide.
  { intros [= <- <-]. split; [apply unchanged_off_refl|]. by intros l [= <-]. }
  rewrite on_fs_run.
  destruct (os_remove _ (fs w)) as [r1 t1] eqn:Hrm. cbn [fst snd].
  pose proof (os_remove_frame _ _ _ _ Hrm) as Hfr1.
  destruct r1 as [[]|e]; [|by intros [= <- <-]].
  intros [Hfr2 Hl]%fresh_download_inv. split; [|done].
  by eapply unchanged_off_trans.
Qed.

Lemma download_one_frame downloads_dir acc item w r w' :
  download_one downloads_dir acc item w = (r, w') →
  unchanged_off (strictly_below downloads_dir) (fs w) (fs w').
Proof.
  intros [Hfr _]%download_one_inv. eapply unchanged_off_weaken; [|done].
  intros q. apply strictly_below_prefix.
Qed.

(** A cache hit: the file is there with the declared digest; nothing is
    fetched and nothing is written. *)
Lemma download_one_hit downloads_dir acc item w H data :
  hashlib (checksum_algorithm item.2) = Some H →
  resolve (fs w) (zip_path_of downloads_dir item) = Some (File data) →
  digest H data = checksum item.2 →
  download_one downloads_dir acc item w = (Ok (acc ++ [record_of item]), w).
Proof.
  intros HH Hfile Hdig. rewrite download_one_run. cbn zeta.
  assert (path_exists (fs w) (zip_path_of downloads_dir item) = true) as ->.
  { apply path_exists_stat. apply stat_resolve_file in Hfile. by rewrite Hfile. }
  rewrite (calculate_file_checksum_default _ _ H _ data) by done.
  by rewrite decide_True.
Qed.

(** The download proper, on a disk where the archive is not there. *)
Lemma fresh_download_run downloads_dir acc item w H data :
  let zip_path := zip_path_of downloads_dir item in
  hashlib (checksum_algorithm item.2) = Some H →
  stat (fs w) zip_path = None → stat (fs w) downloads_dir = Some KDir →
  urlopen (url item.2) = Some (Complete data) →
  ∃ w',
    (urlretrieve (url item.2) zip_path;;
     file_checksum ← calculate_file_checksum zip_path (checksum_algorithm item.2)
                       default_chunk_size;
     if decide (checksum item.2 ≠ file_checksum) then
       raise (ValueError (mismatch_message file_checksum (checksum item.2)))
     else mret (acc ++ [record_of item])) w
    = (if decide (checksum item.2 ≠ digest H data)
       then Raise (ValueError (mismatch_message (digest H data) (checksum item.2)))
       else Ok (acc ++ [record_of item]), w') ∧
    stat (fs w') zip_path = Some (KFile data) ∧
    fetched w' = fetched w ++ [url item.2].
Proof.
  intros zip_path HH Hnone Hdir Hnet.
  destruct (write_file zip_path data (fs w)) as [r1 t1] eqn:Hw.
  assert (r1 = Ok tt) as ->.
  { revert Hw. unfold write_file. rewrite Hnone.
    unfold zip_path, zip_path_of. rewrite parent_snoc, Hdir. by intros [= <- _]. }
  pose proof (write_file_ok _ _ _ _ Hw) as Hstat.
  exists (World t1 (fetched w ++ [url item.2])).
  split; [|done].
  rewrite bind_run, urlretrieve_run, Hnet, Hw. cbn [fst snd].
  rewrite bind_run.
  rewrite (calculate_file_checksum_default _ _ H _ data); [|done|by apply stat_resolve_file].
  by case_decide.
Qed.

(** A stale or missing archive is fetched afresh (a stale one after it has
    been deleted), and the digest of what arrived decides. *)
Lemma download_one_fresh downloads_dir acc item w H data :
  let zip_path := zip_path_of downloads_dir item in
  hashlib (checksum_algorithm item.2) = Some H →
  (stat (fs w) zip_path = None ∧ stat (fs w) downloads_dir = Some KDir) ∨
  (∃ old, resolve (fs w) zip_path = Some (File old) ∧ digest H old ≠ checksum item.2) →
  urlopen (url item.2) = Some (Complete data) →
  ∃ w',
    download_one downloads_dir acc item w
    = (if decide (checksum item.2 ≠ digest H data)
       then Raise (ValueError (mismatch_message (digest H data) (checksum item.2)))
       else Ok (acc ++ [record_of item]), w') ∧
    stat (fs w') zip_path = Some (KFile data) ∧
    fetched w' = fetched w ++ [url item.2].
Proof.
  intros zip_path HH Hstate Hnet. rewrite download_one_run. cbn zeta. fold zip_path.
  destruct Hstate as [[Hnone Hdir]|(old & Hold & Hdig)].
  - rewrite (proj2 (path_exists_false _ _) Hnone).
    by apply (fresh_download_run downloads_dir acc item w H data).
  - assert (stat (fs w) zip_path = Some (KFile old)) as Hstat by by apply stat_resolve_file.
    assert (path_exists (fs w) zip_path = true) as ->.
    { apply path_exists_stat. by rewrite Hstat. }
    rewrite (calculate_file_checksum_default _ _ H _ old) by done.
    rewrite decide_False by congruence.
    rewrite on_fs_run.
    destruct (os_remove zip_path (fs w)) as [r1 t1] eqn:Hrm.
    assert (r1 = Ok tt) as ->.
    { revert Hrm. unfold os_remove. rewrite Hstat. by intros [= <- _]. }
    cbn [fst snd].
    assert (zip_path ≠ []) as Hnonroot by (unfold zip_path, zip_path_of; by destruct downloads_dir).
    apply os_remove_ok in Hrm as Hgone; [|done]. destruct Hgone as [Hgone Hpar].
    assert (stat t1 downloads_dir = Some KDir) as Hdir.
    { unfold zip_path, zip_path_of in Hpar. rewrite parent_snoc in Hpar.
      rewrite (os_remove_frame _ _ _ _ Hrm); [done|].
      unfold zip_path, zip_path_of. apply prefix_snoc_not. }
    destruct (fresh_download_run downloads_dir acc item (World t1 (fetched w)) H data)
      as (w' & Hrun & Hfile & Hfetched); try done.
    by exists w'.
Qed.

Lemma download_loop_inv downloads_dir items acc w r w' :
  foldM (download_one downloads_dir) items acc w = (r, w') →
  unchanged_off (strictly_below downloads_dir) (fs w) (fs w') ∧
  (∀ l, r = Ok l → l = acc ++ map record_of items).
Proof.
  revert acc w. induction items as [|item items IH]; intros acc w.
  - intros [= <- <-]. split; [apply unchanged_off_refl|].
    intros l [= <-]. by rewrite app_nil_r.
  - cbn [foldM]. rewrite bind_run.
    destruct (download_one downloads_dir acc item w) as [[l1|e] w1] eqn:Hone.
    + pose proof (download_one_frame _ _ _ _ _ _ Hone) as Hfr1.
      apply download_one_inv in Hone as [_ Hl1]. rewrite (Hl1 l1 eq_refl).
      intros [Hfr2 Hl]%IH. split; [by eapply unchanged_off_trans|].
      intros l Hr. rewrite (Hl l Hr). by rewrite <-app_assoc.
    + intros [= <- <-]. split; [by eapply download_one_frame|done].
Qed.

Lemma download_sources_acc_inv downloads_dir sources acc w r w' :
  foldM (λ zip_files_info '(item_name, item_info),
           foldM (download_one downloads_dir) item_info zip_files_info)
        sources acc w = (r, w') →
  unchanged_off (strictly_below downloads_dir) (fs w) (fs w') ∧
  (∀ l, r = Ok l → l = acc ++ records_of sources).
Proof.
  revert acc w. induction sources as [|[version items] sources IH]; intros acc w.
  - intros [= <- <-]. split; [apply unchanged_off_refl|].
    intros l [= <-]. by rewrite app_nil_r.
  - cbn [foldM]. rewrite bind_run.
    destruct (foldM (download_one downloads_dir) items acc w) as [[l1|e] w1] eqn:Hin;
      apply download_loop_inv in Hin as [Hfr1 Hl1].
    + rewrite (Hl1 l1 eq_refl).
      intros [Hfr2 Hl]%IH. split; [by eapply unchanged_off_trans|].
      intros l Hr. rewrite (Hl l Hr). unfold records_of. simpl. by rewrite <-app_assoc.
    + by intros [= <- <-].
Qed.

Lemma download_sources_inv sources downloads_dir w r w' :
  download_sources sources downloads_dir w = (r, w') →
  unchanged_off (strictly_below downloads_dir) (fs w) (fs w') ∧
  (∀ l, r = Ok l → l = records_of sources).
Proof. apply download_sources_acc_inv. Qed.

(** ** [main], up to the download step *)

(** The paths of a run. *)
Definition downloads_dir_of : path := script_dir ++ ["downloads"].
Definition out_dir (output_dir : option path) : path :=
  default (script_dir ++ ["package"]) output_dir.
Definition root_dir (output_dir : option path) : path := out_dir output_dir ++ [ADDON_NAME].
Definition version_dir (output_dir : option path) : path :=
  root_dir output_dir ++ [ADDON_VERSION].
Definition private_dir (output_dir : option path) : path :=
  version_dir output_dir ++ ["private"].
Definition manifest_path (output_dir : option path) : path :=
  private_dir output_dir ++ ["files_info.json"].
Definition archive_path (output_dir : option path) : path :=
  out_dir output_dir ++ [package_filename ADDON_VERSION].
Definition version_file : path := script_dir ++ ["client"; ADDON_CLIENT_DIR; "version.py"].


Definition download_phase : M (list archive_record) :=
  on_fs (path_mkdir false true downloads_dir_of);; download_usd_zip downloads_dir_of.

Lemma download_phase_frame w r w' :
  download_phase w = (r, w') →
  unchanged_off (λ q, downloads_dir_of `prefix_of` q) (fs w) (fs w').
Proof.
  unfold download_phase. rewrite bind_run, on_fs_run.
  destruct (path_mkdir _ _ _ (fs w)) as [r0 t0] eqn:Hmk. cbn [fst snd].
  apply path_mkdir_flat in Hmk as [Hfr0 _].
  assert (unchanged_off (λ q, downloads_dir_of `prefix_of` q) (fs w) t0) as Hfr0'.
  { eapply unchanged_off_weaken; [|done]. by intros q ->. }
  destruct r0 as [[]|e]; [|by intros [= <- <-]].
  intros [Hfr1 _]%download_sources_inv. eapply unchanged_off_trans; [done|].
  eapply unchanged_off_weaken; [|done].
  intros q (n & k & ->). by apply prefix_app_r.
Qed.

Lemma main_download_raise output_dir skip_zip keep_sources w e w' :
  download_phase w = (Raise e, w') →
  main output_dir skip_zip keep_sources w = (Raise e, w').
Proof.
  unfold download_phase, main. cbn zeta. fold downloads_dir_of.
  rewrite !bind_run.
  destruct (on_fs _ w) as [[[]|e0] w0]; [|by intros [= -> ->]].
  rewrite bind_run. destruct (download_usd_zip _ w0) as [[l|e1] w1]; by intros [= -> ->].
Qed.

Lemma diverge_names (d : path) n m k1 k2 :
  n ≠ m → ¬ (d ++ n :: k1) `prefix_of` (d ++ m :: k2).
Proof. intros Hne Hpre%prefix_app_inv%prefix_cons_inv_1. done. Qed.

Lemma default_output_apart_from_downloads q :
  out_dir None `prefix_of` q → ¬ downloads_dir_of `prefix_of` q.
Proof.
  unfold out_dir, downloads_dir_of. simpl. intros [k ->] Hdl.
  rewrite <-app_assoc in Hdl. simpl in Hdl. revert Hdl.
  by apply (diverge_names script_dir "downloads" "package" [] k).
Qed.

(** C3, as amended: when the run has reached an entry of the source spec
    whose archive has to be fetched (it is missing, or stale) and the digest
    of what arrives differs from the declared checksum, [download_usd_zip]
    raises the mismatch error, [main] ends with that error, and nothing
    outside the downloads directory has changed by then: no purge, no
    version stamp, no package output.  So the output directory is as it
    was, wherever it does not lie inside the downloads directory, and the
    default one never does. *)
Theorem checksum_mismatch_aborts_before_output
    output_dir skip_zip keep_sources version pre item post w w0 acc w1 H data :
  let downloads_dir := script_dir ++ ["downloads"] in
  let zip_path := zip_path_of downloads_dir item in
  let mismatch := ValueError (mismatch_message (digest H data) (checksum item.2)) in
  USD_SOURCES = [(version, pre ++ item :: post)] →
  on_fs (path_mkdir false true downloads_dir) w = (Ok tt, w0) →
  foldM (download_one downloads_dir) pre [] w0 = (Ok acc, w1) →
  hashlib (checksum_algorithm item.2) = Some H →
  (stat (fs w1) zip_path = None ∨
   ∃ old, resolve (fs w1) zip_path = Some (File old) ∧ digest H old ≠ checksum item.2) →
  urlopen (url item.2) = Some (Complete data) →
  digest H data ≠ checksum item.2 →
  ∃ w',
    download_usd_zip downloads_dir w0 = (Raise mismatch, w') ∧
    main output_dir skip_zip keep_sources w = (Raise mismatch, w') ∧
    unchanged_off (λ q, downloads_dir `prefix_of` q) (fs w) (fs w') ∧
    (∀ q, out_dir output_dir `prefix_of` q → ¬ downloads_dir `prefix_of` q →
          stat (fs w') q = stat (fs w) q) ∧
    (output_dir = None → ∀ q, out_dir None `prefix_of` q → stat (fs w') q = stat (fs w) q).
Proof.
  intros dd zip_path mismatch Hsrc Hmk Hpre HH Hstate Hnet Hdig.
  assert (stat (fs w1) dd = Some KDir) as Hdd.
  { apply download_loop_inv in Hpre as [Hfr _].
    rewrite Hfr by apply not_strictly_below_self.
    revert Hmk. rewrite on_fs_run.
    destruct (path_mkdir false true dd (fs w)) as [r0 t0] eqn:Hmk0. cbn [fst snd].
    intros [= -> <-]. apply path_mkdir_flat in Hmk0 as [_ Hok]. by apply Hok. }
  destruct (download_one_fresh dd acc item w1 H data) as (w' & Hone & _ & _); [done| |done|].
  { destruct Hstate as [Hnone|Hstale]; [by left | by right]. }
  rewrite decide_True in Hone by congruence. fold mismatch in Hone.
  assert (download_usd_zip dd w0 = (Raise mismatch, w')) as Hdl.
  { unfold download_usd_zip, download_sources. rewrite Hsrc. cbn [foldM].
    rewrite bind_run, foldM_app, bind_run, Hpre. cbn [foldM].
    by rewrite bind_run, Hone. }
  assert (download_phase w = (Raise mismatch, w')) as Hphase.
  { unfold download_phase, downloads_dir_of. fold dd. by rewrite bind_run, Hmk. }
  pose proof (download_phase_frame _ _ _ Hphase) as Hframe.
  exists w'. split; [done|]. split; [by apply main_download_raise|].
  split; [done|]. split.
  - intros q _ Hq. by apply Hframe.
  - intros _ q Hq. by apply Hframe, default_output_apart_from_downloads.
Qed.

(** ** [find_files_in_subdir] *)

(** *** The walk ends: sizes of directories *)

Definition child_size (es : entries) (n : string) : nat :=
  from_option node_size 0 (entry_get n es).

Lemma sum_list_with_filter_le {A} (f : A → nat) (P : A → Prop) `{∀ x, Decision (P x)} l :
  sum_list_with f (filter P l) ≤ sum_list_with f l.
Proof.
  induction l as [|x l IH]; [done|].
  rewrite filter_cons. destruct (decide (P x)); simpl; lia.
Qed.

Lemma sum_list_with_ext {A} (f g : A → nat) l :
  (∀ x, x ∈ l → f x = g x) → sum_list_with f l = sum_list_with g l.
Proof.
  induction l as [|x l IH]; [done|]. intros Hfg. simpl.
  rewrite Hfg by left. rewrite IH; [done|]. intros y Hy. apply Hfg. by right.
Qed.

Lemma names_size_le es :
  sum_list_with (child_size es) (names es) ≤ sum_list_with (λ e, node_size e.2) es.
Proof.
  induction es as [|[m c] es IH]; [done|].
  cbn [names sum_list_with snd].
  unfold child_size at 1. cbn [entry_get]. rewrite decide_True by done.
  cbn [from_option].
  rewrite (sum_list_with_ext (child_size ((m, c) :: es)) (child_size es)).
  - pose proof (sum_list_with_filter_le (child_size es) (λ k, k ≠ m) (names es)). lia.
  - intros n [Hne _]%list_elem_of_filter.
    unfold child_size. cbn [entry_get]. by rewrite decide_False.
Qed.

Lemma entry_size_le n c es :
  entry_get n es = Some c → node_size c ≤ sum_list_with (λ e, node_size e.2) es.
Proof.
  induction es as [|[m c'] es IH]; [done|]. simpl.
  destruct (decide (m = n)); [intros [= ->]; lia|]. intros ?%IH. lia.
Qed.

Lemma resolve_size_le t p c : resolve t p = Some c → node_size c ≤ node_size t.
Proof.
  revert t. induction p as [|n p IH]; intros t; simpl; [by intros [= ->]|].
  destruct t as [d|es]; [done|].
  destruct (entry_get n es) as [c'|] eqn:Hc'; [|done]. simpl.
  intros ?%IH. apply entry_size_le in Hc'. lia.
Qed.

Section Walker.

Variable T : node.
Variables ignore_file_patterns ignore_dir_patterns : list regex.
Variable src_path : path.

Definition size_at (d : path) : nat := from_option node_size 0 (resolve T d).

Definition weight (queue : list (path * list string)) : nat :=
  sum_list_with (λ item, size_at item.1) queue.

Lemma weight_app q1 q2 : weight (q1 ++ q2) = weight q1 + weight q2.
Proof. apply sum_list_with_app. Qed.

Abbreviation scan := (scan_name T ignore_file_patterns ignore_dir_patterns).

Lemma scan_weight dirpath parents listing output queue :
  weight (foldl (scan dirpath parents) (output, queue) listing).2
  ≤ weight queue + sum_list_with (λ n, size_at (dirpath ++ [n])) listing.
Proof.
  revert output queue. induction listing as [|n listing IH]; intros output queue.
  - simpl. lia.
  - cbn [foldl sum_list_with].
    unfold scan_name at 2.
    destruct (isfile T (dirpath ++ [n])).
    + destruct (negb _); (etrans; [apply IH|]); lia.
    + destruct (negb _); (etrans; [apply IH|]); [|lia].
      rewrite weight_app. unfold weight at 2. simpl. lia.
Qed.

Lemma listing_weight dirpath es :
  resolve T dirpath = Some (Dir es) →
  sum_list_with (λ n, size_at (dirpath ++ [n])) (names es) < size_at dirpath.
Proof.
  intros Hd. unfold size_at at 2. rewrite Hd. cbn [from_option node_size].
  pose proof (names_size_le es).
  rewrite (sum_list_with_ext _ (child_size es)); [lia|].
  intros n _. unfold size_at, child_size.
  rewrite resolve_app, Hd. simpl. by destruct (entry_get n es).
Qed.


(** *** What the walk collects *)

Definition keeps_file (name : string) : Prop :=
  _value_match_regexes name ignore_file_patterns = false.
Definition enters_dir (name : string) : Prop :=
  _value_match_regexes name ignore_dir_patterns = false.

(** The files the walker is to deliver: a regular file below the root whose
    own name no file pattern matches, under directories (below the root)
    whose names no directory pattern matches, with its path and its path
    relative to the root. *)
Definition selected (p : path) (rel : string) : Prop :=
  ∃ dirs name,
    p = src_path ++ dirs ++ [name] ∧
    rel = sep_join os_sep (dirs ++ [name]) ∧
    isfile T p = true ∧
    keeps_file name ∧
    Forall enters_dir dirs.

Definition apart (a b : path) : Prop := ¬ a `prefix_of` b ∧ ¬ b `prefix_of` a.

Fixpoint antichain (l : list path) : Prop :=
  match l with
  | [] => True
  | a :: l' => Forall (apart a) l' ∧ antichain l'
  end.

Lemma apart_sym a b : apart a b → apart b a.
Proof. by intros [? ?]. Qed.

Lemma antichain_app l1 l2 :
  antichain (l1 ++ l2) ↔
  antichain l1 ∧ antichain l2 ∧ ∀ a b, a ∈ l1 → b ∈ l2 → apart a b.
Proof.
  induction l1 as [|x l1 IH]; simpl.
  - split.
    + intros ?. split; [done|]. split; [done|]. by intros a b ?%elem_of_nil.
    + by intros (_ & ? & _).
  - rewrite Forall_app, IH. split.
    + intros ((Hx1 & Hx2) & H1 & H2 & Hc). split; [done|]. split; [done|].
      intros a b [->|Ha]%elem_of_cons Hb; [|by apply Hc].
      by eapply Forall_forall in Hx2.
    + intros ((Hx1 & H1) & H2 & Hc). split; [split; [done|]|split; [done|split; [done|]]].
      * apply Forall_forall. intros b Hb. apply Hc; [by left|done].
      * intros a b Ha Hb. apply Hc; [by right|done].
Qed.

Lemma antichain_drop_middle l1 x l2 : antichain (l1 ++ x :: l2) → antichain (l1 ++ l2).
Proof.
  rewrite !antichain_app. simpl. intros (H1 & (_ & H2) & Hc). split; [done|]. split; [done|].
  intros a b Ha Hb. apply Hc; [done|by right].
Qed.

Lemma antichain_middle l1 x l2 y :
  antichain (l1 ++ x :: l2) → y ∈ l1 ++ l2 → apart y x.
Proof.
  rewrite antichain_app. simpl. intros (_ & (Hx & _) & Hc) [Hy|Hy]%elem_of_app.
  - apply Hc; [done|by left].
  - apply apart_sym. by eapply Forall_forall in Hx.
Qed.

Lemma prefix_snoc_inv {A} (a d : list A) n :
  a `prefix_of` d ++ [n] → a `prefix_of` d ∨ a = d ++ [n].
Proof.
  intros [k Hk]. destruct k as [|x k _] using rev_ind.
  - right. by rewrite app_nil_r in Hk.
  - left. rewrite app_assoc in Hk. apply app_inj_tail in Hk as [-> _]. by exists k.
Qed.

Lemma siblings_apart (d : path) n m : n ≠ m → apart (d ++ [n]) (d ++ [m]).
Proof.
  intros Hne. split; intros [Hp| [= Heq]%app_inv_head]%prefix_snoc_inv;
    (by apply prefix_snoc_not in Hp) || done.
Qed.

Lemma siblings_antichain (d : path) l :
  NoDup l → antichain ((λ n, d ++ [n]) <$> l).
Proof.
  induction 1 as [|n l Hn Hl IH]; simpl; [done|]. split; [|done].
  apply Forall_fmap, Forall_forall. intros m Hm. apply siblings_apart. by intros ->.
Qed.

Record walk_inv (pending : list path) (output : list (path * string))
    (queue : list (path * list string)) : Prop := WalkInv {
  inv_sound : ∀ p rel, (p, rel) ∈ output → selected p rel;
  inv_queue : ∀ d ps, (d, ps) ∈ queue →
    d = src_path ++ ps ∧ stat T d = Some KDir ∧ Forall enters_dir ps;
  inv_complete : ∀ p rel, selected p rel →
    (p, rel) ∈ output ∨
    (∃ d ps, (d, ps) ∈ queue ∧ strictly_below d p) ∨
    (∃ x, x ∈ pending ∧ x `prefix_of` p);
  inv_nodup : NoDup output.*1;
  inv_apart : ∀ p x, p ∈ output.*1 → x ∈ queue.*1 ++ pending → ¬ x `prefix_of` p;
  inv_anti : antichain (queue.*1 ++ pending);
}.

Lemma selected_exists p rel : selected p rel → is_Some (stat T p).
Proof. intros (dirs & name & _ & _ & (d & Hd)%isfile_stat & _). by rewrite Hd. Qed.

(** Nothing is found below a regular file. *)
Lemma below_file x p :
  isfile T x = true → x `prefix_of` p → is_Some (stat T p) → p = x.
Proof.
  intros (d & Hx)%isfile_stat [k ->] Hp. destruct k as [|n k]; [by rewrite app_nil_r|].
  apply stat_below_dir in Hp; [congruence|done].
Qed.

Lemma selected_name p rel ps n :
  selected p rel → p = src_path ++ ps ++ [n] →
  rel = sep_join os_sep (ps ++ [n]) ∧ keeps_file n.
Proof.
  intros (dirs & name & -> & -> & _ & Hkeep & _) Heq.
  apply app_inv_head in Heq. rewrite Heq. apply app_inj_tail in Heq as [-> ->]. done.
Qed.

Lemma selected_below p rel ps n :
  selected p rel → (src_path ++ ps ++ [n]) `prefix_of` p → p ≠ src_path ++ ps ++ [n] →
  enters_dir n.
Proof.
  intros (dirs & name & -> & _ & _ & _ & Hdirs) Hpre Hne.
  apply prefix_app_inv in Hpre.
  apply prefix_snoc_inv in Hpre as [Hpre| Heq].
  - eapply Forall_forall; [done|]. eapply elem_of_prefix; [|done].
    apply elem_of_app. right. by left.
  - destruct Hne. by rewrite Heq.
Qed.

Lemma scan_step d ps n pending output queue :
  d = src_path ++ ps → Forall enters_dir ps → is_Some (stat T (d ++ [n])) →
  walk_inv ((d ++ [n]) :: pending) output queue →
  walk_inv pending (scan d ps (output, queue) n).1 (scan d ps (output, queue) n).2.
Proof.
  intros Hd Hps Hex [Hsound Hqueue Hcomplete Hnodup Hapart Hanti].
  set (x := d ++ [n]) in *.
  assert (x = src_path ++ ps ++ [n]) as Hx by (unfold x; by rewrite Hd, <-app_assoc).
  assert (antichain (queue.*1 ++ pending)) as Hanti' by by eapply antichain_drop_middle.
  assert (∀ p y, p ∈ output.*1 → y ∈ queue.*1 ++ pending → ¬ y `prefix_of` p) as Hapart'.
  { intros p y Hp Hy. apply Hapart; [done|].
    apply elem_of_app in Hy as [Hy|Hy]; apply elem_of_app; [by left|right; by right]. }
  (* what is left of the completeness argument once [x] itself is dealt with *)
  assert (∀ (output' : list (path * string)) (queue' : list (path * list string)),
            (∀ y, y ∈ output → y ∈ output') → (∀ y, y ∈ queue → y ∈ queue') →
            (∀ p rel, selected p rel → x `prefix_of` p →
               (p, rel) ∈ output' ∨ ∃ d' ps', (d', ps') ∈ queue' ∧ strictly_below d' p) →
            ∀ p rel, selected p rel →
              (p, rel) ∈ output' ∨
              (∃ d' ps', (d', ps') ∈ queue' ∧ strictly_below d' p) ∨
              (∃ y, y ∈ pending ∧ y `prefix_of` p)) as Hcompl.
  { intros output' queue' Hout Hq Hhere p rel Hsel.
    destruct (Hcomplete p rel Hsel) as [?|[(d' & ps' & ? & ?)|(y & [->|Hy]%elem_of_cons & Hpre)]].
    - left. by apply Hout.
    - right. left. exists d', ps'. split; [by apply Hq|done].
    - destruct (Hhere p rel Hsel Hpre) as [?|?]; [by left|right; by left].
    - right. right. by exists y. }
  unfold scan_name. fold x.
  destruct (isfile T x) eqn:Hfile;
    [destruct (_value_match_regexes n ignore_file_patterns) eqn:Hkeep
    |destruct (_value_match_regexes n ignore_dir_patterns) eqn:Henter]; cbn [negb fst snd].
  - (* a file whose name is excluded *)
    constructor; try done.
    apply Hcompl; [done..|]. intros p rel Hsel Hpre.
    apply below_file in Hpre; [|done|by eapply selected_exists]. subst p.
    apply (selected_name _ _ ps n) in Hsel as [_ Hk]; [|done]. congruence.
  - (* a file that is kept *)
    constructor.
    + intros p rel [?|[= -> ->]%list_elem_of_singleton]%elem_of_app; [by apply Hsound|].
      exists ps, n. by repeat split.
    + done.
    + apply Hcompl; [intros y ?; apply elem_of_app; by left|done|].
      intros p rel Hsel Hpre. left.
      apply below_file in Hpre; [|done|by eapply selected_exists]. subst p.
      apply (selected_name _ _ ps n) in Hsel as [-> _]; [|done].
      apply elem_of_app. right. by apply list_elem_of_singleton.
    + rewrite fmap_app. apply NoDup_app. split; [done|]. split; [|apply NoDup_singleton].
      intros p Hp [= ->]%list_elem_of_singleton.
      apply (Hapart x x); [done| |done]. apply elem_of_app. right. by left.
    + intros p y. rewrite fmap_app.
      intros [Hp|[= ->]%list_elem_of_singleton]%elem_of_app Hy; [by apply Hapart'|].
      by apply (antichain_middle _ _ _ _ Hanti) in Hy as [? _].
    + done.
  - (* a directory whose name is excluded *)
    constructor; try done.
    apply Hcompl; [done..|]. intros p rel Hsel Hpre.
    destruct (decide (p = x)) as [->|Hne].
    + destruct Hsel as (_ & _ & _ & _ & Hf & _). congruence.
    + rewrite Hx in Hpre, Hne. apply (selected_below _ _ _ _ Hsel) in Hpre; [|done].
      unfold enters_dir in Hpre. congruence.
  - (* a directory that is entered *)
    assert ((queue ++ [(x, ps ++ [n])]).*1 ++ pending = queue.*1 ++ x :: pending) as Hfront.
    { rewrite fmap_app. simpl. by rewrite <-app_assoc. }
    constructor; rewrite ?Hfront; try done.
    + intros d' ps' [?|[= -> ->]%list_elem_of_singleton]%elem_of_app; [by apply Hqueue|].
      split; [by rewrite Hx|]. split.
      * destruct Hex as [k Hk]. rewrite Hk. unfold isfile in Hfile. rewrite Hk in Hfile.
        by destruct k.
      * apply Forall_app. split; [done|]. by apply Forall_singleton.
    + apply Hcompl; [done|intros y ?; apply elem_of_app; by left|].
      intros p rel Hsel Hpre. right. exists x, (ps ++ [n]). split.
      { apply elem_of_app. right. by apply list_elem_of_singleton. }
      destruct Hpre as [k ->]. destruct k as [|m k].
      * destruct Hsel as (_ & _ & _ & _ & Hf & _). rewrite app_nil_r in Hf. congruence.
      * by exists m, k.
Qed.

Lemma scan_all d ps listing output queue :
  d = src_path ++ ps → Forall enters_dir ps →
  (∀ n, n ∈ listing → is_Some (stat T (d ++ [n]))) →
  walk_inv ((λ n, d ++ [n]) <$> listing) output queue →
  walk_inv [] (foldl (scan d ps) (output, queue) listing).1
              (foldl (scan d ps) (output, queue) listing).2.
Proof.
  intros Hd Hps. revert output queue.
  induction listing as [|n listing IH]; intros output queue Hex Hinv; [done|].
  cbn [foldl]. destruct (scan d ps (output, queue) n) as [output1 queue1] eqn:Hscan.
  apply IH; [intros m Hm; apply Hex; by right|].
  pose proof (scan_step d ps n _ output queue Hd Hps (Hex n ltac:(by left)) Hinv) as Hstep.
  by rewrite Hscan in Hstep.
Qed.

Lemma listed_exists d es n :
  resolve T d = Some (Dir es) → n ∈ names es ↔ is_Some (stat T (d ++ [n])).
Proof.
  intros Hd. rewrite elem_of_names. unfold stat. rewrite resolve_app, Hd. simpl.
  destruct (entry_get n es); simpl; split; intros [? ?]; by eauto.
Qed.

Lemma pop_inv d ps rest output es :
  resolve T d = Some (Dir es) →
  walk_inv [] output ((d, ps) :: rest) →
  walk_inv ((λ n, d ++ [n]) <$> names es) output rest.
Proof.
  intros Hd [Hsound Hqueue Hcomplete Hnodup Hapart Hanti].
  rewrite app_nil_r in Hapart, Hanti. simpl in Hanti. destruct Hanti as [Hdrest Hanti].
  constructor.
  - done.
  - intros d' ps' ?. apply Hqueue. by right.
  - intros p rel Hsel.
    destruct (Hcomplete p rel Hsel)
      as [?|[(d' & ps' & [[= -> ->]|?]%elem_of_cons & Hbelow)|(y & ?%elem_of_nil & _)]];
      [by left| |right; left; by exists d', ps'|done].
    right. right. destruct Hbelow as (n & k & ->). exists (d ++ [n]). split.
    + apply list_elem_of_fmap. exists n. split; [done|].
      apply (listed_exists d es n Hd).
      apply selected_exists in Hsel. destruct k as [|m k].
      * done.
      * rewrite (cons_middle n), app_assoc in Hsel.
        apply stat_below_dir in Hsel; [by rewrite Hsel|done].
    + exists k. by rewrite <-app_assoc.
  - done.
  - intros p y Hp [Hy|(n & -> & Hn)%list_elem_of_fmap]%elem_of_app Hpre.
    + apply (Hapart p y); [done|by right|done].
    + apply (Hapart p d); [done|by left|]. by eapply prefix_app_l.
  - apply antichain_app. split; [done|]. split; [apply siblings_antichain, NoDup_names|].
    intros a b Ha (n & -> & Hn)%list_elem_of_fmap.
    eapply Forall_forall in Hdrest as [Hda Had]; [|done]. split.
    + intros [?| ->]%prefix_snoc_inv; [done|]. apply Hda. by apply prefix_app_r.
    + intros ?%prefix_app_l. done.
Qed.

Lemma walk_queue_correct fuel queue output :
  walk_inv [] output queue → weight queue < fuel →
  ∃ output',
    walk_queue fuel T ignore_file_patterns ignore_dir_patterns queue output = Ok output' ∧
    walk_inv [] output' [].
Proof.
  revert queue output. induction fuel as [|fuel IH]; intros queue output Hinv Hfuel; [lia|].
  destruct queue as [|[d ps] rest]; [by exists output|].
  cbn [walk_queue].
  destruct (inv_queue _ _ _ Hinv d ps ltac:(by left)) as (Hd & [es Hes]%stat_resolve_dir & Hps).
  unfold os_listdir. rewrite Hes.
  pose proof (pop_inv d ps rest output es Hes Hinv) as Hpop.
  apply (scan_all d ps) in Hpop; [|done..|by intros n ?%(listed_exists d es n Hes)].
  pose proof (scan_weight d ps (names es) output rest) as Hw.
  pose proof (listing_weight d es Hes) as Hl.
  destruct (foldl _ _ _) as [output1 queue1]. cbn [fst snd] in *.
  apply IH; [done|]. unfold weight in Hfuel. cbn [sum_list_with fst] in Hfuel.
  unfold weight in *. lia.
Qed.

Lemma walk_inv_start : stat T src_path = Some KDir → walk_inv [] [] [(src_path, [])].
Proof.
  intros Hsrc. constructor.
  - by intros p rel ?%elem_of_nil.
  - intros d ps [= -> ->]%list_elem_of_singleton. by rewrite app_nil_r.
  - intros p rel (dirs & name & -> & _). right. left. exists src_path, []. split; [by left|].
    destruct dirs as [|m dirs]; [by exists name, []|by exists m, (dirs ++ [name])].
  - constructor.
  - by intros p x ?%elem_of_nil.
  - simpl. by repeat split.
Qed.

End Walker.

(** *** What is to be delivered, in the specification's words

    A pattern list excludes a name when one of its patterns is found in the
    name.  The walker is to deliver the regular files below the root whose
    own name the file patterns do not exclude and none of whose directories
    below the root has a name the directory patterns exclude, each with its
    path relative to the root. *)
Definition excluded (patterns : list regex) (name : string) : Prop :=
  ∃ r, r ∈ patterns ∧ search r name = true.

Definition wanted (t : node) (file_patterns dir_patterns : list regex) (root : path)
    (p : path) (rel : string) : Prop :=
  ∃ dirs name data,
    p = root ++ dirs ++ [name] ∧
    rel = sep_join os_sep (dirs ++ [name]) ∧
    resolve t p = Some (File data) ∧
    ¬ excluded file_patterns name ∧
    Forall (λ dir, ¬ excluded dir_patterns dir) dirs.

Lemma value_match_false value regexes :
  _value_match_regexes value regexes = false ↔ Forall (λ r, search r value = false) regexes.
Proof.
  unfold _value_match_regexes. induction regexes as [|r regexes IH]; simpl.
  - split; [constructor|done].
  - rewrite orb_false_iff, IH, Forall_cons. done.
Qed.

Lemma value_match_excluded value regexes :
  _value_match_regexes value regexes = false ↔ ¬ excluded regexes value.
Proof.
  rewrite value_match_false, Forall_forall. split.
  - intros Hall (r & Hr & Hfound). by rewrite (Hall r Hr) in Hfound.
  - intros Hnone r Hr. destruct (search r value) eqn:Hfound; [|done].
    destruct Hnone. by exists r.
Qed.

Lemma selected_wanted t igf igd src_path p rel :
  selected t igf igd src_path p rel ↔ wanted t igf igd src_path p rel.
Proof.
  split.
  - intros (dirs & name & Hp & Hrel & [data Hfile]%isfile_stat & Hkeep & Hdirs).
    exists dirs, name, data. split; [done|]. split; [done|].
    split; [by apply stat_resolve_file|]. split; [by apply value_match_excluded|].
    eapply Forall_impl; [exact Hdirs|]. intros dir. apply value_match_excluded.
  - intros (dirs & name & data & Hp & Hrel & Hfile%stat_resolve_file & Hkeep & Hdirs).
    exists dirs, name. split; [done|]. split; [done|].
    split; [apply isfile_stat; by exists data|]. split; [by apply value_match_excluded|].
    eapply Forall_impl; [exact Hdirs|]. intros dir. apply value_match_excluded.
Qed.

(** C1: on a root that is a directory the walker returns, and what it
    returns is exactly what is wanted: every regular file below the root
    whose name no file pattern is found in and none of whose directories
    below the root has a name a directory pattern is found in, each once,
    with its path relative to the root.  A file whose name a file pattern
    matches is left out, and so is everything below a directory whose name a
    directory pattern matches, while what lies beside that directory is
    delivered.  The patterns are searched in single names only ([wanted]
    asks nothing of the root's own path). *)
Theorem find_files_in_subdir_exact src_path ignore_file_patterns ignore_dir_patterns w :
  isdir (fs w) src_path = true →
  ∃ output,
    find_files_in_subdir src_path ignore_file_patterns ignore_dir_patterns w
      = (Ok output, w) ∧
    (∀ p rel,
       (p, rel) ∈ output ↔
       wanted (fs w)
              (default IGNORE_FILE_PATTERNS ignore_file_patterns)
              (default IGNORE_DIR_PATTERNS ignore_dir_patterns)
              src_path p rel) ∧
    NoDup output.*1.
Proof.
  intros Hsrc%isdir_stat.
  set (igf := default IGNORE_FILE_PATTERNS ignore_file_patterns).
  set (igd := default IGNORE_DIR_PATTERNS ignore_dir_patterns).
  destruct (walk_queue_correct (fs w) igf igd src_path (S (node_size (fs w)))
              [(src_path, [])] []) as (output & Hrun & Hinv).
  { by apply walk_inv_start. }
  { unfold weight, size_at. cbn [sum_list_with fst].
    destruct (resolve (fs w) src_path) as [c|] eqn:Hc; simpl; [|lia].
    apply resolve_size_le in Hc. lia. }
  exists output. split; [|split].
  - unfold find_files_in_subdir. fold igf igd. by rewrite Hrun.
  - intros p rel. rewrite <-selected_wanted.
    split; [apply (inv_sound _ _ _ _ _ _ _ Hinv)|].
    intros Hsel.
    destruct (inv_complete _ _ _ _ _ _ _ Hinv p rel Hsel)
      as [?|[(d & ps & ?%elem_of_nil & _)|(x & ?%elem_of_nil & _)]]; done.
  - apply (inv_nodup _ _ _ _ _ _ _ Hinv).
Qed.

(** The walker is never cut short by the model. *)
Lemma find_files_in_subdir_not_stuck src_path igf igd w :
  (find_files_in_subdir src_path igf igd w).1 ≠ Raise Stuck.
Proof.
  unfold find_files_in_subdir.
  destruct (stat (fs w) src_path) as [[d|]|] eqn:Hsrc.
  - apply stat_resolve_file in Hsrc. cbn [walk_queue]. unfold os_listdir. by rewrite Hsrc.
  - destruct (walk_queue_correct (fs w) (default IGNORE_FILE_PATTERNS igf)
                (default IGNORE_DIR_PATTERNS igd) src_path (S (node_size (fs w)))
                [(src_path, [])] []) as (output & -> & _); [by apply walk_inv_start| |done].
    unfold weight, size_at. cbn [sum_list_with fst].
    destruct (resolve (fs w) src_path) as [c|] eqn:Hc; simpl; [|lia].
    apply resolve_size_le in Hc. lia.
  - apply stat_resolve_none in Hsrc. cbn [walk_queue]. unfold os_listdir. rewrite Hsrc.
    by destruct (path_error_cases (fs w) src_path) as [-> | ->].
Qed.

(** The walker only reads. *)
Lemma find_files_in_subdir_pure src_path igf igd w r w' :
  find_files_in_subdir src_path igf igd w = (r, w') → w' = w.
Proof.
  unfold find_files_in_subdir. destruct (walk_queue _ _ _ _ _ _); by intros [= _ <-].
Qed.

(** ** Which paths an action may change *)

Definition frames {A} (P : path → Prop) (m : M A) : Prop :=
  ∀ w r w', m w = (r, w') → unchanged_off P (fs w) (fs w').

Lemma frames_weaken {A} (P Q : path → Prop) (m : M A) :
  (∀ q, P q → Q q) → frames P m → frames Q m.
Proof. intros HPQ Hm w r w' Hrun. eapply unchanged_off_weaken; [done|]. by eapply Hm. Qed.

Lemma frames_mret {A} P (a : A) : frames P (mret a).
Proof. intros w r w' [= <- <-]. apply unchanged_off_refl. Qed.

Lemma frames_bind {A B} P (m : M A) (f : A → M B) :
  frames P m → (∀ a, frames P (f a)) → frames P (m ≫= f).
Proof.
  intros Hm Hf w r w'. rewrite bind_run.
  destruct (m w) as [[a|e] w1] eqn:Hrun; specialize (Hm _ _ _ Hrun).
  - intros Hrun2. eapply unchanged_off_trans; [done|]. by eapply Hf.
  - by intros [= <- <-].
Qed.

Lemma frames_read_fs {A} P (f : node → A) : frames P (read_fs f).
Proof. intros w r w' [= <- <-]. apply unchanged_off_refl. Qed.

Lemma frames_on_fs {A} P (f : fsop A) :
  (∀ t r t', f t = (r, t') → unchanged_off P t t') → frames P (on_fs f).
Proof.
  intros Hf w r w'. rewrite on_fs_run. intros [= <- <-]. cbn [fs].
  by apply (Hf _ (f (fs w)).1), surjective_pairing.
Qed.

Lemma frames_when P b m : frames P m → frames P (when b m).
Proof. destruct b; [done|]. intros _. apply frames_mret. Qed.

Lemma frames_suppress P m : frames P m → frames P (suppress m).
Proof.
  intros Hm w r w'. rewrite suppress_run. intros [= <- <-].
  by apply (Hm w (m w).1), surjective_pairing.
Qed.

Lemma frames_for_each {A} P (l : list A) body :
  (∀ x, x ∈ l → frames P (body x)) → frames P (for_each l body).
Proof.
  induction l as [|x l IH]; intros Hbody; [apply frames_mret|].
  apply frames_bind; [apply Hbody; by left|].
  intros _. apply IH. intros y Hy. apply Hbody. by right.
Qed.

Lemma frames_foldM {A S} P (body : S → A → M S) l s :
  (∀ s x, x ∈ l → frames P (body s x)) → frames P (foldM body l s).
Proof.
  revert s. induction l as [|x l IH]; intros s Hbody; [apply frames_mret|].
  apply frames_bind; [apply Hbody; by left|].
  intros s'. apply IH. intros s'' y Hy. apply Hbody. by right.
Qed.

Lemma frames_find_files P src_path igf igd :
  frames P (find_files_in_subdir src_path igf igd).
Proof.
  intros w r w' ->%find_files_in_subdir_pure. apply unchanged_off_refl.
Qed.

(** At or above [x], or below it. *)
Definition comparable (x q : path) : Prop := q `prefix_of` x ∨ x `prefix_of` q.

Lemma comparable_above x k q : q `prefix_of` x ++ k → comparable x q.
Proof. intros Hq. eapply prefix_weak_total; [done|]. by apply prefix_app_r. Qed.

Lemma comparable_below x k q : (x ++ k) `prefix_of` q → comparable x q.
Proof. intros Hq. right. by eapply prefix_app_l. Qed.

Lemma frames_safe_copy_file src_path dst_path :
  frames (λ q, q `prefix_of` parent dst_path ∨ dst_path `prefix_of` q)
         (safe_copy_file src_path dst_path).
Proof.
  unfold safe_copy_file. case_decide; [apply frames_mret|].
  apply frames_bind.
  - apply frames_suppress, frames_on_fs. intros t r t' Hmk.
    eapply unchanged_off_weaken; [|by eapply os_makedirs_frame]. by left.
  - intros _. apply frames_on_fs. intros t r t' Hcp.
    eapply unchanged_off_weaken; [|by eapply shutil_copy_frame]. by right.
Qed.

Lemma frames_copy_server_content addon_output_dir current_dir :
  frames (comparable addon_output_dir) (copy_server_content addon_output_dir current_dir).
Proof.
  unfold copy_server_content. apply frames_bind; [apply frames_find_files|].
  intros found. apply frames_for_each.
  intros [src dst] ([src' rel] & [= -> ->] & _)%list_elem_of_fmap.
  eapply frames_weaken; [|apply frames_safe_copy_file].
  set (dst := addon_output_dir ++ ["server"] ++ components os_sep rel).
  intros q [Hq|Hq].
  - assert (dst = parent dst ++ [basename dst]) as Hdst.
    { apply path_snoc_parent. unfold dst. by destruct addon_output_dir. }
    apply (comparable_above _ (["server"] ++ components os_sep rel)).
    fold dst. rewrite Hdst. by apply prefix_app_r.
  - by eapply comparable_below.
Qed.

Lemma frames_fill_client_version current_dir :
  frames (λ q, (current_dir ++ ["client"; ADDON_CLIENT_DIR; "version.py"]) `prefix_of` q)
         (_fill_client_version current_dir).
Proof. apply frames_on_fs. intros t r t'. apply write_file_frame. Qed.

Lemma frames_zip_open zip_filepath :
  frames (λ q, zip_filepath `prefix_of` q) (zip_open zip_filepath).
Proof.
  apply frames_bind; [|intros _; apply frames_mret].
  apply frames_on_fs. intros t r t'. apply write_file_frame.
Qed.

Lemma frames_zip_write zip_filepath members filename arcname :
  frames (λ q, zip_filepath `prefix_of` q) (zip_write zip_filepath members filename arcname).
Proof.
  apply frames_bind.
  - intros w r w'. destruct (resolve (fs w) filename) as [[d|es]|];
      intros [= <- <-]; apply unchanged_off_refl.
  - intros member. apply frames_bind; [|intros _; apply frames_mret].
    apply frames_on_fs. intros t r t'. apply write_file_frame.
Qed.

Lemma frames_zip_client_side addon_package_dir current_dir :
  frames (λ q, q `prefix_of` addon_package_dir ++ ["private"] ∨
               (addon_package_dir ++ ["private"; "client.zip"]) `prefix_of` q)
         (zip_client_side addon_package_dir current_dir).
Proof.
  unfold zip_client_side. apply frames_bind; [apply frames_read_fs|].
  intros is_dir. destruct (negb is_dir); [apply frames_mret|].
  apply frames_bind; [apply frames_read_fs|]. intros present.
  apply frames_bind.
  { apply frames_when, frames_on_fs. intros t r t' Hmk.
    eapply unchanged_off_weaken; [|by eapply os_makedirs_frame]. by left. }
  intros _.
  assert ((addon_package_dir ++ ["private"]) ++ ["client.zip"]
          = addon_package_dir ++ ["private"; "client.zip"]) as Hzip by by rewrite <-app_assoc.
  rewrite Hzip.
  eapply frames_weaken; [intros q Hq; right; exact Hq|].
  apply frames_bind; [apply frames_zip_open|]. intros zipf.
  apply frames_bind; [apply frames_find_files|]. intros found.
  apply frames_bind; [|intros _; apply frames_mret].
  apply frames_foldM. intros members [p sub] _. apply frames_zip_write.
Qed.

Lemma frames_create_server_package current_dir output_dir addon_output_dir addon_version :
  frames (λ q, (output_dir ++ [package_filename addon_version]) `prefix_of` q)
         (create_server_package current_dir output_dir addon_output_dir addon_version).
Proof.
  unfold create_server_package.
  apply frames_bind; [apply frames_zip_open|]. intros zipf.
  apply frames_bind; [apply frames_zip_write|]. intros zipf'.
  apply frames_bind; [apply frames_read_fs|]. intros walked.
  apply frames_bind; [|intros _; apply frames_mret].
  apply frames_foldM. intros members [[root dirs] filenames] _.
  destruct filenames as [|f filenames]; [apply frames_mret|].
  apply frames_foldM. intros members' filename _. apply frames_zip_write.
Qed.

(** ** The phases of [main] *)

(** Lines 401 to 406: the purge. *)
Definition purge_step (output_dir : option path) : M unit :=
  purge ← read_fs (λ t, isdir t (out_dir output_dir ++ [ADDON_NAME; ADDON_VERSION]));
  when purge (on_fs (shutil_rmtree (out_dir output_dir))).

(** Lines 408 to 427: the version stamp, the server tree, the archives. *)
Definition stage (output_dir : option path) (files_info : list archive_record) : M unit :=
  _fill_client_version script_dir;;
  present ← read_fs (λ t, path_exists t (version_dir output_dir));
  when (negb present) (on_fs (os_makedirs (version_dir output_dir)));;
  copy_server_content (version_dir output_dir) script_dir;;
  present ← read_fs (λ t, path_exists t (private_dir output_dir));
  when (negb present) (on_fs (path_mkdir true false (private_dir output_dir)));;
  for_each files_info (λ file_info,
    on_fs (shutil_copy (downloads_dir_of ++ [rec_filename file_info])
                       (private_dir output_dir ++ [rec_filename file_info]))).

Definition write_manifest (output_dir : option path) (files_info : list archive_record)
    : M unit :=
  on_fs (write_file (manifest_path output_dir) (json_dumps files_info)).

(** Lines 435 to 443: the distributable archive and the clean-up. *)
Definition finish (output_dir : option path) (skip_zip keep_sources : bool) : M unit :=
  when (negb skip_zip)
    (create_server_package script_dir (out_dir output_dir) (version_dir output_dir)
                           ADDON_VERSION;;
     when (negb keep_sources) (on_fs (shutil_rmtree (root_dir output_dir)))).

Lemma bind_assoc_run {A B C} (m : M A) (f : A → M B) (g : B → M C) w :
  ((m ≫= f) ≫= g) w = (m ≫= λ a, f a ≫= g) w.
Proof. rewrite !bind_run. by destruct (m w) as [[a|e] w1]. Qed.

Ltac lockstep :=
  repeat (rewrite ?bind_assoc_run; rewrite !bind_run;
          match goal with
          | |- (let (_, _) := ?s in _) = _ => destruct s as [[?|?] ?]; [|reflexivity]
          end).

Lemma main_phases output_dir skip_zip keep_sources w :
  main output_dir skip_zip keep_sources w
  = (files_info ← download_phase;
     purge_step output_dir;;
     stage output_dir files_info;;
     write_manifest output_dir files_info;;
     zip_client_side (version_dir output_dir) script_dir;;
     finish output_dir skip_zip keep_sources) w.
Proof.
  unfold main, download_phase, purge_step, stage, write_manifest, finish.
  unfold manifest_path, private_dir, version_dir, root_dir, out_dir, downloads_dir_of.
  cbn zeta. lockstep. reflexivity.
Qed.

(** *** Where the paths of a run lie *)

Lemma string_length_app s1 s2 :
  String.length (s1 +:+ s2) = String.length s1 + String.length s2.
Proof. induction s1 as [|c s1 IH]; simpl; [done|]. by rewrite IH. Qed.

Lemma package_filename_not_name v : package_filename v ≠ ADDON_NAME.
Proof.
  intros Heq. apply (f_equal String.length) in Heq.
  unfold package_filename in Heq. rewrite !string_length_app in Heq. simpl in Heq. lia.
Qed.

Lemma version_dir_eq od : version_dir od = out_dir od ++ [ADDON_NAME; ADDON_VERSION].
Proof. unfold version_dir, root_dir. by rewrite <-app_assoc. Qed.

Lemma private_dir_eq od :
  private_dir od = out_dir od ++ [ADDON_NAME; ADDON_VERSION; "private"].
Proof. unfold private_dir. by rewrite version_dir_eq, <-app_assoc. Qed.

Lemma archive_not_under_root od k : ¬ (root_dir od ++ k) `prefix_of` archive_path od.
Proof.
  unfold root_dir, archive_path. rewrite <-app_assoc. simpl.
  apply diverge_names. intros Heq. by apply (package_filename_not_name ADDON_VERSION).
Qed.

Lemma root_not_under_archive od k : ¬ archive_path od `prefix_of` (root_dir od ++ k).
Proof.
  unfold root_dir, archive_path. rewrite <-app_assoc. simpl.
  apply diverge_names, package_filename_not_name.
Qed.

Lemma archive_not_comparable od k : ¬ comparable (root_dir od ++ k) (archive_path od).
Proof.
  intros [H|H]; [by apply root_not_under_archive in H|by apply archive_not_under_root in H].
Qed.

(** What the staging, the manifest and the client archive may change. *)
Definition build_area (od : option path) (q : path) : Prop :=
  version_file `prefix_of` q ∨ comparable (version_dir od) q.

Lemma frames_stage od files_info : frames (build_area od) (stage od files_info).
Proof.
  unfold stage. apply frames_bind.
  { eapply frames_weaken; [|apply frames_fill_client_version]. by left. }
  intros _. apply frames_bind; [apply frames_read_fs|]. intros present.
  apply frames_bind.
  { apply frames_when, frames_on_fs. intros t r t' Hmk.
    eapply unchanged_off_weaken; [|by eapply os_makedirs_frame].
    intros q Hq. right. by left. }
  intros _. apply frames_bind.
  { eapply frames_weaken; [|apply frames_copy_server_content]. by right. }
  intros _. apply frames_bind; [apply frames_read_fs|]. intros present'.
  apply frames_bind.
  { apply frames_when, frames_on_fs. intros t r t' [Hmk _]%path_mkdir_spec.
    eapply unchanged_off_weaken; [|done].
    intros q Hq. right. unfold private_dir in Hq. by eapply comparable_above. }
  intros _. apply frames_for_each. intros file_info _.
  apply frames_on_fs. intros t r t' Hcp.
  eapply unchanged_off_weaken; [|by eapply shutil_copy_frame].
  intros q Hq. right. unfold private_dir in Hq. rewrite <-app_assoc in Hq.
  by eapply comparable_below.
Qed.

Lemma frames_write_manifest od files_info :
  frames (build_area od) (write_manifest od files_info).
Proof.
  apply frames_on_fs. intros t r t' Hw.
  eapply unchanged_off_weaken; [|by eapply write_file_frame].
  intros q Hq. right. unfold manifest_path, private_dir in Hq.
  rewrite <-app_assoc in Hq. by eapply comparable_below.
Qed.

Lemma frames_zip_client_side_area od :
  frames (build_area od) (zip_client_side (version_dir od) script_dir).
Proof.
  eapply frames_weaken; [|apply frames_zip_client_side].
  intros q [Hq|Hq]; right; [by eapply comparable_above|by eapply comparable_below].
Qed.

Lemma archive_outside_build_area od :
  ¬ version_file `prefix_of` archive_path od → ¬ build_area od (archive_path od).
Proof.
  intros Hvf [?|Hc]; [done|].
  unfold version_dir in Hc. by apply archive_not_comparable in Hc.
Qed.

(** With the default output directory the archive lies apart from the
    downloads and from the version stamp. *)
Lemma default_archive_apart :
  ¬ downloads_dir_of `prefix_of` archive_path None ∧
  ¬ version_file `prefix_of` archive_path None.
Proof.
  unfold downloads_dir_of, version_file, archive_path, out_dir. simpl.
  rewrite <-app_assoc. simpl. split.
  - by apply diverge_names.
  - intros Hpre%prefix_app_inv%prefix_length. simpl in Hpre. lia.
Qed.

(** *** The purge *)
Lemma purge_step_shrinks od w r w' q k :
  purge_step od w = (r, w') → stat (fs w') q = Some k → stat (fs w) q = Some k.
Proof.
  unfold purge_step. rewrite bind_run. unfold read_fs at 1.
  destruct (isdir (fs w) _); cbn [when].
  - rewrite on_fs_run. intros [= <- <-]. cbn [fs]. intros Hq.
    eapply (shutil_rmtree_shrinks (out_dir od) (fs w)); [apply surjective_pairing|done].
  - by intros [= <- <-].
Qed.

(** When the version directory is there, the purge removes the whole
    output directory, whatever else it holds. *)
Lemma purge_step_removes_output_dir od w w' :
  isdir (fs w) (out_dir od ++ [ADDON_NAME; ADDON_VERSION]) = true →
  purge_step od w = (Ok tt, w') →
  ∀ q, out_dir od `prefix_of` q → stat (fs w') q = None.
Proof.
  intros Hd. unfold purge_step. rewrite bind_run. unfold read_fs at 1. rewrite Hd.
  cbn [when]. rewrite on_fs_run. intros [= Hok <-]. cbn [fs].
  apply (shutil_rmtree_ok (out_dir od) (fs w)).
  by destruct (shutil_rmtree _ _) as [[[]|?] ?].
Qed.

(** *** The distributable archive *)
Lemma foldM_invariant {A S} (I : world → Prop) (body : S → A → M S) l s w r w' :
  (∀ s x w r w', body s x w = (r, w') → I w → I w') →
  foldM body l s w = (r, w') → I w → I w'.
Proof.
  intros Hbody. revert s w. induction l as [|x l IH]; intros s w; [by intros [= _ <-]|].
  cbn [foldM]. rewrite bind_run.
  destruct (body s x w) as [[s1|e] w1] eqn:Hx.
  - intros Hrest Hw. eapply IH; [done|]. by eapply Hbody.
  - intros [= _ <-] Hw. by eapply Hbody.
Qed.

Lemma zip_write_keeps zip_filepath members filename arcname w r w' :
  zip_write zip_filepath members filename arcname w = (r, w') →
  isfile (fs w) zip_filepath = true → isfile (fs w') zip_filepath = true.
Proof.
  unfold zip_write. rewrite bind_run.
  assert (∀ member, (on_fs (write_file zip_filepath (zip_bytes (members ++ [member])));;
                     mret (members ++ [member])) w = (r, w') →
            isfile (fs w) zip_filepath = true → isfile (fs w') zip_filepath = true) as Hput.
  { intros member. rewrite bind_run, on_fs_run.
    destruct (write_file _ _ (fs w)) as [[[]|e] t1] eqn:Hw; cbn [fst snd].
    - intros [= _ <-] _. cbn [fs]. apply isfile_stat. eexists. by eapply write_file_ok.
    - intros [= _ <-]. cbn [fs]. by apply write_file_raise in Hw as ->. }
  destruct (resolve (fs w) filename) as [[d|es]|]; [apply Hput..|by intros [= _ <-]].
Qed.

Lemma zip_open_ok zip_filepath w members w' :
  zip_open zip_filepath w = (Ok members, w') → isfile (fs w') zip_filepath = true.
Proof.
  unfold zip_open. rewrite bind_run, on_fs_run.
  destruct (write_file _ _ (fs w)) as [[[]|e] t1] eqn:Hw; cbn [fst snd]; [|done].
  intros [= _ <-]. cbn [fs]. apply isfile_stat. eexists. by eapply write_file_ok.
Qed.

Lemma create_server_package_ok current_dir output_dir addon_output_dir addon_version w w' :
  create_server_package current_dir output_dir addon_output_dir addon_version w = (Ok tt, w') →
  isfile (fs w') (output_dir ++ [package_filename addon_version]) = true.
Proof.
  unfold create_server_package.
  intros (zipf & w1 & Hopen%zip_open_ok & Hrest)%bind_ok.
  apply bind_ok in Hrest as (zipf' & w2 & Hmanifest & Hrest).
  apply zip_write_keeps in Hmanifest; [|done].
  apply bind_ok in Hrest as (walked & w3 & [= _ <-] & Hrest).
  apply bind_ok in Hrest as (zipf'' & w4 & Hloop & [= <-]).
  set (zp := output_dir ++ [package_filename addon_version]) in *.
  eapply (foldM_invariant (λ w, isfile (fs w) zp = true)); [|exact Hloop|done].
  intros members [[root dirs] filenames] wa r wb. cbn beta iota.
  destruct filenames as [|f filenames]; [by intros [= _ <-]|].
  apply (foldM_invariant (λ w, isfile (fs w) zp = true)).
  intros members' filename wc r' wd. apply zip_write_keeps.
Qed.

Lemma finish_ok od skip_zip keep_sources w w' :
  finish od skip_zip keep_sources w = (Ok tt, w') →
  if skip_zip then w' = w
  else isfile (fs w') (archive_path od) = true ∧
       if keep_sources then unchanged_off (λ q, archive_path od `prefix_of` q) (fs w) (fs w')
       else ∀ q, root_dir od `prefix_of` q → stat (fs w') q = None.
Proof.
  unfold finish. destruct skip_zip; cbn [negb when]; [by intros [= <-]|].
  intros ([] & w1 & Hpkg & Hclean)%bind_ok.
  pose proof (create_server_package_ok _ _ _ _ _ _ Hpkg) as Harchive.
  fold (archive_path od) in Harchive.
  destruct keep_sources; cbn [negb when] in Hclean.
  - injection Hclean as <-. split; [done|].
    by apply frames_create_server_package in Hpkg.
  - rewrite on_fs_run in Hclean. injection Hclean as Hok <-. cbn [fs].
    destruct (shutil_rmtree (root_dir od) (fs w1)) as [r t2] eqn:Hrm. cbn [fst snd] in *.
    subst r. split; [|by eapply shutil_rmtree_ok].
    apply isfile_stat in Harchive as [d Hd]. apply isfile_stat. exists d.
    rewrite (shutil_rmtree_frame _ _ _ _ Hrm); [done|].
    rewrite <-(app_nil_r (root_dir od)). apply archive_not_under_root.
Qed.

(** *** After the client archive *)
Lemma manifest_survives_client_zip od w r w' :
  zip_client_side (version_dir od) script_dir w = (r, w') →
  stat (fs w') (manifest_path od) = stat (fs w) (manifest_path od).
Proof.
  intros Hzip%frames_zip_client_side. apply Hzip.
  unfold manifest_path, private_dir. intros [Hpre|Hpre].
  - apply prefix_length in Hpre. rewrite !length_app in Hpre. simpl in Hpre. lia.
  - rewrite <-!app_assoc in Hpre. by apply prefix_app_inv in Hpre as [k [=]].
Qed.

(** The directories of the package and the manifest are there. *)
Definition directories_in_place (od : option path) (t : node) : Prop :=
  stat t (version_dir od) = Some KDir ∧
  stat t (private_dir od) = Some KDir ∧
  isfile t (manifest_path od) = true.

Lemma directories_in_place_of_manifest od t :
  isfile t (manifest_path od) = true → directories_in_place od t.
Proof.
  intros Hm. split; [|split; [|done]].
  - apply isfile_stat in Hm as [d Hd].
    apply (stat_below_dir _ _ ["private"; "files_info.json"]); [|done].
    unfold manifest_path, private_dir in Hd. rewrite <-app_assoc in Hd.
    simpl in Hd. by rewrite Hd.
  - apply isfile_stat in Hm as [d Hd].
    apply (stat_below_dir _ _ ["files_info.json"]); [|done].
    unfold manifest_path in Hd. by rewrite Hd.
Qed.

Lemma main_ok_inv od skip_zip keep_sources w w' :
  main od skip_zip keep_sources w = (Ok tt, w') →
  ∃ files_info w1 w2 w3 w4 w5,
    download_phase w = (Ok files_info, w1) ∧
    purge_step od w1 = (Ok tt, w2) ∧
    stage od files_info w2 = (Ok tt, w3) ∧
    write_manifest od files_info w3 = (Ok tt, w4) ∧
    zip_client_side (version_dir od) script_dir w4 = (Ok tt, w5) ∧
    finish od skip_zip keep_sources w5 = (Ok tt, w').
Proof.
  rewrite main_phases.
  intros (files_info & w1 & H1 & ([] & w2 & H2 & ([] & w3 & H3 & ([] & w4 & H4 &
          ([] & w5 & H5 & H6)%bind_ok)%bind_ok)%bind_ok)%bind_ok)%bind_ok.
  by exists files_info, w1, w2, w3, w4, w5.
Qed.

(** What the flags decide, for every output directory: a run of [main] that
    completes leaves, with [--skip-zip], the version directory with its
    private directory and manifest, and at the path of the distributable
    archive what was there before or nothing, as long as that path lies
    apart from the downloads and the version stamp, which it does for the
    default output directory; without [--skip-zip] it leaves the archive,
    and the version directory is gone, unless [--keep-sources] was given, in
    which case it is still there. *)
Lemma main_flags_basic od skip_zip keep_sources w w' :
  main od skip_zip keep_sources w = (Ok tt, w') →
  match skip_zip, keep_sources with
  | true, _ =>
      directories_in_place od (fs w') ∧
      (od = None ∨
       (¬ downloads_dir_of `prefix_of` archive_path od ∧
        ¬ version_file `prefix_of` archive_path od) →
       stat (fs w') (archive_path od) = stat (fs w) (archive_path od) ∨
       stat (fs w') (archive_path od) = None)
  | false, true =>
      isfile (fs w') (archive_path od) = true ∧ directories_in_place od (fs w')
  | false, false =>
      isfile (fs w') (archive_path od) = true ∧
      stat (fs w') (version_dir od) = None ∧ stat (fs w') (root_dir od) = None
  end.
Proof.
  intros (files_info & w1 & w2 & w3 & w4 & w5 & H1 & H2 & H3 & H4 & H5 & H6)%main_ok_inv.
  assert (directories_in_place od (fs w5)) as Hlayout.
  { apply directories_in_place_of_manifest. apply isfile_stat. eexists.
    rewrite (manifest_survives_client_zip _ _ _ _ H5).
    revert H4. unfold write_manifest. rewrite on_fs_run. intros [= Hok <-]. cbn [fs].
    eapply write_file_ok.
    destruct (write_file _ _ (fs w3)) as [[[]|?] ?] eqn:Hw; [exact Hw|done]. }
  apply finish_ok in H6. destruct skip_zip.
  - subst w'. split; [done|]. intros Hapart.
    assert (¬ downloads_dir_of `prefix_of` archive_path od ∧
            ¬ version_file `prefix_of` archive_path od) as [Hdl Hvf].
    { destruct Hapart as [->|?]; [apply default_archive_apart|done]. }
    assert (stat (fs w5) (archive_path od) = stat (fs w2) (archive_path od)) as ->.
    { pose proof (archive_outside_build_area od Hvf) as Hout.
      rewrite (frames_zip_client_side_area _ _ _ _ H5) by done.
      rewrite (frames_write_manifest _ _ _ _ _ H4) by done.
      by rewrite (frames_stage _ _ _ _ _ H3). }
    destruct (stat (fs w2) (archive_path od)) as [k|] eqn:Hk; [left|by right].
    apply (purge_step_shrinks _ _ _ _ _ _ H2) in Hk.
    by rewrite <-(download_phase_frame _ _ _ H1).
  - destruct H6 as [Harchive Hrest]. destruct keep_sources.
    + split; [done|].
      destruct Hlayout as (Hv & Hp & [d Hm]%isfile_stat).
      assert (∀ k, ¬ archive_path od `prefix_of` (root_dir od ++ k)) as Hout
        by (intros k; apply root_not_under_archive).
      split; [|split].
      * rewrite Hrest; [done|]. apply (Hout [ADDON_VERSION]).
      * rewrite Hrest; [done|]. unfold private_dir, version_dir. rewrite <-app_assoc. apply Hout.
      * apply isfile_stat. exists d. rewrite Hrest; [done|].
        unfold manifest_path, private_dir, version_dir. rewrite <-!app_assoc. apply Hout.
    + split; [done|]. split; apply Hrest; [by apply prefix_app_r|done].
Qed.

(** *** A source tree without a client directory *)
Lemma zip_client_side_without_client_dir addon_package_dir current_dir w :
  isdir (fs w) (current_dir ++ ["client"]) = false →
  zip_client_side addon_package_dir current_dir w = (Ok tt, w).
Proof.
  intros Hd. unfold zip_client_side. rewrite bind_run. unfold read_fs at 1. by rewrite Hd.
Qed.

Lemma fill_client_version_needs_client_dir w :
  isdir (fs w) (script_dir ++ ["client"]) = false →
  ∃ e, _fill_client_version script_dir w = (Raise e, w).
Proof.
  intros Hd. unfold _fill_client_version. rewrite on_fs_run.
  set (vf := script_dir ++ ["client"; ADDON_CLIENT_DIR; "version.py"]).
  assert (∀ k, k ≠ [] → stat (fs w) ((script_dir ++ ["client"]) ++ k) = None) as Hbelow.
  { intros k Hk. destruct (stat (fs w) _) eqn:Hs; [|done].
    assert (is_Some (stat (fs w) ((script_dir ++ ["client"]) ++ k))) as Hsome by by eexists.
    apply stat_below_dir in Hsome; [|done]. apply isdir_stat in Hsome. congruence. }
  assert (vf = (script_dir ++ ["client"]) ++ [ADDON_CLIENT_DIR; "version.py"]) as Hvf
    by (unfold vf; by rewrite <-app_assoc).
  assert (parent vf = (script_dir ++ ["client"]) ++ [ADDON_CLIENT_DIR]) as Hpar.
  { unfold vf. rewrite (app_assoc _ ["client"; ADDON_CLIENT_DIR] ["version.py"]).
    rewrite parent_snoc. by rewrite <-app_assoc. }
  unfold write_file. rewrite Hpar, Hvf, !Hbelow by done. destruct w. by eexists.
Qed.

Lemma main_aborts_without_client_dir od skip_zip keep_sources w :
  isdir (fs w) (script_dir ++ ["client"]) = false →
  ∃ e w', main od skip_zip keep_sources w = (Raise e, w').
Proof.
  intros Hd. rewrite main_phases, bind_run.
  destruct (download_phase w) as [[files_info|e] w1] eqn:H1; [|by eauto].
  rewrite bind_run.
  destruct (purge_step od w1) as [[[]|e] w2] eqn:H2; [|by eauto].
  assert (isdir (fs w2) (script_dir ++ ["client"]) = false) as Hd2.
  { destruct (isdir (fs w2) _) eqn:Hd2; [|done].
    apply isdir_stat in Hd2. apply (purge_step_shrinks _ _ _ _ _ _ H2) in Hd2.
    rewrite (download_phase_frame _ _ _ H1) in Hd2.
    - apply isdir_stat in Hd2. congruence.
    - unfold downloads_dir_of. by apply (diverge_names _ _ _ [] []). }
  destruct (fill_client_version_needs_client_dir w2 Hd2) as [e He].
  exists e, w2. rewrite bind_run. unfold stage. by rewrite bind_run, He.
Qed.

(** ** [safe_copy_file] where it succeeds *)

(** No regular file stands at [p] or on the way to it. *)
Definition clear_way (t : node) (p : path) : Prop :=
  ∀ q d, q `prefix_of` p → stat t q ≠ Some (KFile d).

(** The same, computed along the path. *)
Fixpoint way_clear (t : node) (p : path) : bool :=
  match t with
  | File _ => false
  | Dir es =>
      match p with
      | [] => true
      | n :: p' =>
          match entry_get n es with
          | Some c => way_clear c p'
          | None => true
          end
      end
  end.

Lemma way_clear_sound t p : way_clear t p = true → clear_way t p.
Proof.
  revert t. induction p as [|n p IH]; intros [data|es] Hclear q d Hq; try done.
  - apply prefix_nil_inv in Hq as ->. done.
  - destruct q as [|m q]; [done|].
    pose proof (prefix_cons_inv_1 _ _ _ _ Hq) as ->.
    apply prefix_cons_inv_2 in Hq. rewrite stat_cons_dir. simpl in Hclear.
    destruct (entry_get n es) as [c|]; [|done]. simpl. by apply IH.
Qed.

Lemma clear_way_prefix t p q : clear_way t p → q `prefix_of` p → clear_way t q.
Proof. intros Hp Hq x d Hx. apply Hp. by etrans. Qed.

Lemma clear_way_dir t p : clear_way t p → is_Some (stat t p) → stat t p = Some KDir.
Proof.
  intros Hclear [[d|] Hk]; [|done]. by destruct (Hclear p d).
Qed.

Lemma os_mkdir_clear p n t :
  clear_way t (p ++ [n]) → stat t p = Some KDir →
  ∃ r t', os_mkdir (p ++ [n]) t = (r, t') ∧
          (r = Ok tt ∨ r = Raise FileExistsError) ∧ stat t' (p ++ [n]) = Some KDir.
Proof.
  intros Hclear Hp. unfold os_mkdir. destruct (path_exists t (p ++ [n])) eqn:Hex.
  - exists (Raise FileExistsError), t. split; [done|]. split; [by right|].
    apply clear_way_dir; [done|]. by apply path_exists_stat.
  - rewrite parent_snoc, Hp. eexists _, _. split; [done|]. split; [by left|].
    apply (stat_put_eq (p ++ [n]) (Dir [])); [by destruct p|by rewrite parent_snoc].
Qed.

Lemma makedirs_rev_clear rp t :
  clear_way t (rev rp) →
  ∃ r t', makedirs_rev rp t = (r, t') ∧
          (r = Ok tt ∨ r = Raise FileExistsError) ∧ stat t' (rev rp) = Some KDir.
Proof.
  revert t. induction rp as [|n rhead IH]; intros t Hclear.
  - exists (Raise FileExistsError), t. simpl in *. unfold os_mkdir.
    assert (is_Some (stat t [])) as Hroot by (unfold stat; simpl; by eexists).
    rewrite (proj2 (path_exists_stat t []) Hroot). split; [done|]. split; [by right|].
    by apply clear_way_dir.
  - cbn [makedirs_rev]. simpl rev in *.
    assert (clear_way t (rev rhead)) as Hhead.
    { eapply clear_way_prefix; [done|]. by apply prefix_app_r. }
    destruct (path_exists t (rev rhead)) eqn:Hex.
    + apply os_mkdir_clear; [done|]. apply clear_way_dir; [done|]. by apply path_exists_stat.
    + destruct (IH t Hhead) as (r1 & t1 & Hrec & Hr1 & Hdir1). rewrite Hrec.
      pose proof (makedirs_rev_spec _ _ _ _ Hrec) as [Hfr _].
      assert (clear_way t1 (rev rhead ++ [n])) as Hclear1.
      { intros q d Hq Hfile.
        apply prefix_snoc_inv in Hq as [Hq| ->].
        - assert (stat t1 q = Some KDir) as Hd; [|congruence].
          destruct Hq as [k Hk]. destruct k as [|m k].
          + rewrite app_nil_r in Hk. by rewrite <-Hk.
          + apply (stat_below_dir _ _ (m :: k)); [by rewrite <-Hk, Hdir1|done].
        - rewrite Hfr in Hfile by apply prefix_snoc_not.
          by apply (Hclear (rev rhead ++ [n]) d). }
      destruct (os_mkdir_clear (rev rhead) n t1 Hclear1 Hdir1) as (r & t' & Hmk & Hr & Hdir).
      exists r, t'. split; [|done]. by destruct Hr1 as [-> | ->].
Qed.

(** Where no file is in the way, the directory is there after
    [os.makedirs], whether the call made it or found it, and nothing else
    has changed. *)
Lemma os_makedirs_clear p t :
  clear_way t p →
  ∃ r t', os_makedirs p t = (r, t') ∧ stat t' p = Some KDir ∧
          unchanged_off (λ q, q `prefix_of` p) t t'.
Proof.
  intros Hclear. unfold os_makedirs.
  destruct (makedirs_rev_clear (rev p) t) as (r & t' & Hmk & _ & Hdir).
  { by rewrite rev_involutive. }
  exists r, t'. split; [done|]. rewrite rev_involutive in Hdir. split; [done|].
  by apply (os_makedirs_frame p t r t').
Qed.

(** Writing a file where a file can be: it holds the data afterwards, and
    no other path has changed. *)
Lemma write_file_replaces p d t :
  p ≠ [] → stat t (parent p) = Some KDir → stat t p ≠ Some KDir →
  ∃ t', write_file p d t = (Ok tt, t') ∧
        stat t' p = Some (KFile d) ∧
        (∀ q, q ≠ p → stat t' q = stat t q).
Proof.
  intros Hp Hpar Hnodir.
  destruct (write_file p d t) as [r t'] eqn:Hw.
  assert (r = Ok tt) as ->.
  { revert Hw. unfold write_file. destruct (stat t p) as [[d'|]|]; [|done|]; rewrite ?Hpar;
      by intros [= <- _]. }
  exists t'. split; [done|]. split; [by eapply write_file_ok|].
  intros q Hq. destruct (decide (p `prefix_of` q)) as [[k ->]|Hpre].
  - assert (k ≠ []) as Hk by (intros ->; by rewrite app_nil_r in Hq).
    assert (∀ t0 d0, stat t0 p = Some (KFile d0) → stat t0 (p ++ k) = None) as Hbelow.
    { intros t0 d0 Hd. destruct (stat t0 (p ++ k)) eqn:Hs; [|done].
      assert (is_Some (stat t0 (p ++ k))) as Hsome by by eexists.
      apply stat_below_dir in Hsome; [congruence|done]. }
    rewrite (Hbelow t' d) by by eapply write_file_ok.
    destruct (stat t (p ++ k)) eqn:Hs; [|done].
    assert (is_Some (stat t (p ++ k))) as Hsome by by eexists.
    by apply stat_below_dir in Hsome.
  - by apply (write_file_frame _ _ _ _ _ Hw).
Qed.

(** What a copy does once its destination directory is there. *)
Lemma shutil_copy_into_dir src dst t data :
  src ≠ dst → dst ≠ [] →
  resolve t src = Some (File data) →
  stat t (parent dst) = Some KDir → stat t dst ≠ Some KDir →
  ∃ t', shutil_copy src dst t = (Ok tt, t') ∧
        stat t' dst = Some (KFile data) ∧
        (∀ q, q ≠ dst → stat t' q = stat t q).
Proof.
  intros Hne Hdst Hsrc Hpar Hnodir. unfold shutil_copy.
  assert (isdir t dst = false) as ->.
  { destruct (isdir t dst) eqn:Hd; [|done]. by apply isdir_stat in Hd. }
  rewrite bool_decide_false, andb_false_r by done.
  unfold read_file. rewrite Hsrc. by apply write_file_replaces.
Qed.

(** The copy, where no file stands on the way to the destination. *)
Lemma safe_copy_file_clear src_path dst_path w data :
  src_path ≠ dst_path → dst_path ≠ [] →
  resolve (fs w) src_path = Some (File data) →
  clear_way (fs w) (parent dst_path) →
  stat (fs w) dst_path ≠ Some KDir →
  ∃ w',
    safe_copy_file src_path dst_path w = (Ok tt, w') ∧
    stat (fs w') dst_path = Some (KFile data) ∧
    (∀ q, q `prefix_of` parent dst_path → stat (fs w') q = Some KDir) ∧
    (∀ q, ¬ q `prefix_of` parent dst_path → q ≠ dst_path → stat (fs w') q = stat (fs w) q) ∧
    fetched w' = fetched w.
Proof.
  intros Hne Hdst Hsrc Hclear Hnodir.
  rewrite safe_copy_file_run by done.
  destruct (os_makedirs_clear _ _ Hclear) as (r & t1 & Hmk & Hdir & Hfr).
  rewrite Hmk. cbn [snd].
  assert (¬ dst_path `prefix_of` parent dst_path) as Hdst_not.
  { rewrite (path_snoc_parent dst_path Hdst) at 1. apply prefix_snoc_not. }
  assert (¬ src_path `prefix_of` parent dst_path) as Hsrc_not.
  { intros Hpre. apply (Hclear src_path data Hpre). by apply stat_resolve_file. }
  assert (resolve t1 src_path = Some (File data)) as Hsrc1.
  { apply stat_resolve_file. rewrite Hfr by done. by apply stat_resolve_file. }
  destruct (shutil_copy_into_dir src_path dst_path t1 data) as (t' & Hcp & Hout & Hrest);
    try done.
  { by rewrite Hfr. }
  exists (World t' (fetched w)). rewrite on_fs_run. cbn [fs fetched]. rewrite Hcp.
  split; [done|]. split; [done|]. split; [|split; [|done]].
  - intros q Hq. rewrite Hrest by (intros ->; done).
    destruct Hq as [k Hk]. destruct k as [|m k].
    + rewrite app_nil_r in Hk. by rewrite <-Hk.
    + apply (stat_below_dir _ _ (m :: k)); [by rewrite <-Hk, Hdir|done].
  - intros q Hq Hqd. rewrite Hrest by done. by apply Hfr.
Qed.

(** X2: [safe_copy_file] makes the directories the destination needs and
    copies the file.  When the source is a regular file, no regular file
    stands on the way to the destination's directory and the destination
    itself is not a directory, the call succeeds; afterwards the destination
    holds the source's bytes, every directory on the way is there, the source
    is as it was, and nothing else on disk has changed. *)
Theorem safe_copy_file_creates_directories src_path dst_path w data :
  src_path ≠ dst_path → dst_path ≠ [] →
  resolve (fs w) src_path = Some (File data) →
  way_clear (fs w) (parent dst_path) = true →
  stat (fs w) dst_path ≠ Some KDir →
  ∃ w',
    safe_copy_file src_path dst_path w = (Ok tt, w') ∧
    stat (fs w') dst_path = Some (KFile data) ∧
    stat (fs w') src_path = Some (KFile data) ∧
    (∀ q, q `prefix_of` parent dst_path → stat (fs w') q = Some KDir) ∧
    (∀ q, ¬ q `prefix_of` parent dst_path → q ≠ dst_path → stat (fs w') q = stat (fs w) q) ∧
    fetched w' = fetched w.
Proof.
  intros Hne Hdst Hsrc Hclear%way_clear_sound Hnodir.
  destruct (safe_copy_file_clear src_path dst_path w data)
    as (w' & Hrun & Hfile & Hdirs & Hrest & Hlog); try done.
  exists w'. split; [done|]. split; [done|]. split; [|done].
  assert (¬ src_path `prefix_of` parent dst_path) as Hsrc_not.
  { intros Hpre. apply (Hclear src_path data Hpre). by apply stat_resolve_file. }
  rewrite Hrest by done. by apply stat_resolve_file.
Qed.

(** ** More about [find_files_in_subdir] *)

(** What a walk that returns has returned. *)
Lemma find_files_in_subdir_ok src_path igf igd w output w' :
  find_files_in_subdir src_path igf igd w = (Ok output, w') →
  w' = w ∧
  stat (fs w) src_path = Some KDir ∧
  (∀ p rel, (p, rel) ∈ output ↔
     selected (fs w) (default IGNORE_FILE_PATTERNS igf) (default IGNORE_DIR_PATTERNS igd)
              src_path p rel) ∧
  NoDup output.*1.
Proof.
  intros Hrun. pose proof (find_files_in_subdir_pure _ _ _ _ _ _ Hrun) as ->.
  split; [done|]. revert Hrun. unfold find_files_in_subdir.
  destruct (stat (fs w) src_path) as [[d|]|] eqn:Hsrc.
  - apply stat_resolve_file in Hsrc. cbn [walk_queue]. unfold os_listdir. by rewrite Hsrc.
  - destruct (walk_queue_correct (fs w) (default IGNORE_FILE_PATTERNS igf)
                (default IGNORE_DIR_PATTERNS igd) src_path (S (node_size (fs w)))
                [(src_path, [])] []) as (output' & -> & Hinv); [by apply walk_inv_start| |].
    { unfold weight, size_at. cbn [sum_list_with fst].
      destruct (resolve (fs w) src_path) as [c|] eqn:Hc; simpl; [|lia].
      apply resolve_size_le in Hc. lia. }
    intros [= ->]. split; [done|]. split; [|apply (inv_nodup _ _ _ _ _ _ _ Hinv)].
    intros p rel. split; [apply (inv_sound _ _ _ _ _ _ _ Hinv)|].
    intros Hsel.
    destruct (inv_complete _ _ _ _ _ _ _ Hinv p rel Hsel)
      as [?|[(d & ps & ?%elem_of_nil & _)|(x & ?%elem_of_nil & _)]]; done.
  - apply stat_resolve_none in Hsrc. cbn [walk_queue]. unfold os_listdir. by rewrite Hsrc.
Qed.

Lemma find_files_in_subdir_no_dir src_path igf igd w :
  stat (fs w) src_path ≠ Some KDir →
  find_files_in_subdir src_path igf igd w
  = (Raise (match stat (fs w) src_path with
            | Some _ => NotADirectoryError
            | None => path_error (fs w) src_path
            end), w).
Proof.
  intros Hsrc. unfold find_files_in_subdir. cbn [walk_queue]. unfold os_listdir, stat in *.
  by destruct (resolve (fs w) src_path) as [[d|es]|].
Qed.

(** X3: the walker needs its root to be a directory: on a regular file it
    raises [NotADirectoryError], on a missing path the error of
    [os.listdir], and it returns nothing.  [copy_server_content] walks the
    [server] directory of the checkout first, so without that directory it
    raises the same error before anything is copied. *)
Theorem find_files_in_subdir_needs_directory src_path igf igd addon_output_dir current_dir w :
  (stat (fs w) src_path ≠ Some KDir →
   ∃ e, find_files_in_subdir src_path igf igd w = (Raise e, w) ∧
        (e = NotADirectoryError ∨ e = FileNotFoundError) ∧
        (is_Some (stat (fs w) src_path) → e = NotADirectoryError)) ∧
  (stat (fs w) (current_dir ++ ["server"]) ≠ Some KDir →
   ∃ e, copy_server_content addon_output_dir current_dir w = (Raise e, w) ∧
        (e = NotADirectoryError ∨ e = FileNotFoundError)).
Proof.
  assert (∀ src, stat (fs w) src ≠ Some KDir →
            ∃ e, find_files_in_subdir src igf igd w = (Raise e, w) ∧
                 (e = NotADirectoryError ∨ e = FileNotFoundError) ∧
                 (is_Some (stat (fs w) src) → e = NotADirectoryError)) as Hwalk.
  { intros src Hsrc. rewrite find_files_in_subdir_no_dir by done.
    eexists. split; [done|]. destruct (stat (fs w) src) as [k|].
    - split; [by left|done].
    - split; [|by intros [? ?]].
      destruct (path_error_cases (fs w) src) as [-> | ->]; [by right|by left]. }
  split; [apply Hwalk|].
  intros Hsrc. unfold copy_server_content. rewrite bind_run.
  rewrite find_files_in_subdir_no_dir by done. eexists. split; [done|].
  destruct (stat (fs w) _) as [k|]; [by left|].
  destruct (path_error_cases (fs w) (current_dir ++ ["server"])) as [-> | ->];
    [by right|by left].
Qed.

(** *** The order of the output *)

Definition by_depth {A} (a b : path * A) : Prop := length a.1 ≤ length b.1.

Lemma StronglySorted_snoc {A} (R : relation A) l y :
  StronglySorted R l → Forall (λ x, R x y) l → StronglySorted R (l ++ [y]).
Proof.
  intros Hl Hy. induction Hl as [|x l Hl IH Hx]; simpl.
  - repeat constructor.
  - apply Forall_cons in Hy as [Hxy Hy]. constructor; [by apply IH|].
    apply Forall_app. split; [done|]. by apply Forall_singleton.
Qed.

Section Order.

Variable T : node.
Variables ignore_file_patterns ignore_dir_patterns : list regex.

(** While the directory [dirpath], [k] levels deep, is scanned. *)
Definition level_inv (k : nat) (st : list (path * string) * list (path * list string))
    : Prop :=
  StronglySorted by_depth st.1 ∧ Forall (λ o, length o.1 ≤ S k) st.1 ∧
  StronglySorted by_depth st.2 ∧ Forall (λ q, k ≤ length q.1 ≤ S k) st.2.

Lemma scan_name_level dirpath parents st name :
  level_inv (length dirpath) st →
  level_inv (length dirpath)
            (scan_name T ignore_file_patterns ignore_dir_patterns dirpath parents st name).
Proof.
  destruct st as [output queue]. intros (Ho & Hod & Hq & Hqd). unfold scan_name.
  cbn [fst snd] in *.
  assert (length (dirpath ++ [name]) = S (length dirpath)) as Hlen.
  { rewrite length_app. simpl. lia. }
  destruct (isfile T _); destruct (negb _); try done.
  - split; [|split; [|done]]; cbn [fst snd].
    + apply StronglySorted_snoc; [done|]. eapply Forall_impl; [exact Hod|].
      intros o Hle. unfold by_depth. cbn [fst] in *. rewrite Hlen. lia.
    + apply Forall_app. split; [done|]. apply Forall_singleton. cbn [fst]. rewrite Hlen. lia.
  - split; [done|]. split; [done|]. split; cbn [fst snd].
    + apply StronglySorted_snoc; [done|]. eapply Forall_impl; [exact Hqd|].
      intros q Hle. unfold by_depth. cbn [fst] in *. rewrite Hlen. lia.
    + apply Forall_app. split; [done|]. apply Forall_singleton. cbn [fst]. rewrite Hlen. lia.
Qed.

Lemma scan_all_level dirpath parents listing st :
  level_inv (length dirpath) st →
  level_inv (length dirpath)
            (foldl (scan_name T ignore_file_patterns ignore_dir_patterns dirpath parents)
                   st listing).
Proof.
  revert st. induction listing as [|n listing IH]; intros st Hst; [done|].
  cbn [foldl]. by apply IH, scan_name_level.
Qed.

(** Between two directories. *)
Definition queue_inv (output : list (path * string)) (queue : list (path * list string))
    : Prop :=
  StronglySorted by_depth output ∧ StronglySorted by_depth queue ∧
  match queue with
  | [] => True
  | (d, _) :: _ =>
      Forall (λ o, length o.1 ≤ S (length d)) output ∧
      Forall (λ q, length q.1 ≤ S (length d)) queue
  end.

Lemma walk_queue_by_depth fuel queue output output' :
  queue_inv output queue →
  walk_queue fuel T ignore_file_patterns ignore_dir_patterns queue output = Ok output' →
  StronglySorted by_depth output'.
Proof.
  revert queue output. induction fuel as [|fuel IH]; intros queue output Hinv; [done|].
  cbn [walk_queue]. destruct queue as [|[d ps] rest].
  { intros [= <-]. by destruct Hinv. }
  destruct (os_listdir d T) as [[listing|e] t]; [|done].
  destruct Hinv as (Ho & Hq & Hod & Hqd).
  apply StronglySorted_inv in Hq as [Hrest Hhead].
  apply Forall_cons in Hqd as [_ Hqd].
  assert (level_inv (length d) (output, rest)) as Hlevel.
  { split; [done|]. split; [done|]. split; [done|]. cbn [snd].
    apply Forall_forall. intros q Hin. split.
    - eapply Forall_forall in Hhead; [|done]. exact Hhead.
    - by eapply Forall_forall in Hqd. }
  apply (scan_all_level d ps listing) in Hlevel.
  destruct (foldl _ _ listing) as [output1 queue1]. destruct Hlevel as (Ho1 & Hod1 & Hq1 & Hqd1).
  cbn [fst snd] in *. apply IH. split; [done|]. split; [done|].
  destruct queue1 as [|[d' ps'] rest']; [done|].
  apply Forall_cons in Hqd1 as Hd'. destruct Hd' as [Hd' _]. cbn [fst] in Hd'. split.
  - eapply Forall_impl; [exact Hod1|]. intros o Hle. simpl in Hle. lia.
  - eapply Forall_impl; [exact Hqd1|]. intros q Hle. simpl in Hle. lia.
Qed.

End Order.

(** X4: the walker delivers the files breadth first: a file never comes
    before one that lies less deep below the root. *)
Theorem find_files_in_subdir_breadth_first src_path igf igd w output w' :
  find_files_in_subdir src_path igf igd w = (Ok output, w') →
  StronglySorted by_depth output ∧
  (∀ l1 a l2 b l3, output = l1 ++ a :: l2 ++ b :: l3 → length a.1 ≤ length b.1).
Proof.
  intros Hrun.
  assert (StronglySorted by_depth output) as Hsorted.
  { revert Hrun. unfold find_files_in_subdir.
    destruct (walk_queue _ _ _ _ _ _) as [output0|e] eqn:Hwalk; [|done].
    intros [= <- _]. eapply walk_queue_by_depth; [|exact Hwalk].
    split; [constructor|]. split; [repeat constructor|].
    split; [constructor|]. repeat constructor. }
  split; [done|]. intros l1 a l2 b l3 ->.
  apply StronglySorted_app in Hsorted as (_ & _ & Hsorted).
  apply StronglySorted_inv in Hsorted as [_ Ha].
  eapply Forall_forall in Ha; [exact Ha|]. apply elem_of_app. right. by left.
Qed.

(** *** The patterns *)

(** X5: with the default patterns the walker passes over every file whose
    name starts with a dot or ends in [.pyc], and over everything below a
    directory whose name starts with a dot or is [__pycache__]: no file it
    returns has such a name or such a directory on its way from the root. *)
Theorem default_patterns_skip_hidden_and_compiled src_path w output w' :
  find_files_in_subdir src_path None None w = (Ok output, w') →
  ∀ p rel, (p, rel) ∈ output →
    ∃ dirs name,
      p = src_path ++ dirs ++ [name] ∧
      rel = sep_join os_sep (dirs ++ [name]) ∧
      String.prefix "." name = false ∧
      str_endswith ".pyc" name = false ∧
      Forall (λ d, String.prefix "." d = false ∧ d ≠ "__pycache__") dirs.
Proof.
  intros (_ & _ & Hsel & _)%find_files_in_subdir_ok p rel Hin.
  apply Hsel in Hin as (dirs & name & -> & -> & _ & Hkeep & Hdirs).
  exists dirs, name. split; [done|]. split; [done|].
  apply value_match_false in Hkeep. cbn [default IGNORE_FILE_PATTERNS] in Hkeep.
  apply Forall_cons in Hkeep as [Hdot Hkeep]. apply Forall_cons in Hkeep as [Hpyc _].
  cbn [search re_leading_dot re_pyc] in Hdot, Hpyc.
  apply orb_false_iff in Hpyc as [Hpyc _].
  split; [done|]. split; [done|].
  eapply Forall_impl; [exact Hdirs|]. intros d Hd.
  apply value_match_false in Hd. cbn [default IGNORE_DIR_PATTERNS] in Hd.
  apply Forall_cons in Hd as [Hddot Hd]. apply Forall_cons in Hd as [Hcache _].
  cbn [search re_leading_dot re_pycache] in Hddot, Hcache.
  apply orb_false_iff in Hcache as [Hcache _].
  split; [done|]. intros ->. by rewrite bool_decide_true in Hcache.
Qed.

Lemma value_match_permutation value regexes regexes' :
  regexes ≡ₚ regexes' →
  _value_match_regexes value regexes = _value_match_regexes value regexes'.
Proof.
  unfold _value_match_regexes. induction 1 as [|r l l' _ IH|r1 r2 l|l1 l2 l3 _ IH1 _ IH2]; simpl.
  - done.
  - by rewrite IH.
  - by rewrite !orb_assoc, (orb_comm (search r1 value)).
  - by rewrite IH1.
Qed.

Lemma walk_queue_ext fuel t igf igd igf' igd' queue output :
  (∀ name, _value_match_regexes name igf = _value_match_regexes name igf') →
  (∀ name, _value_match_regexes name igd = _value_match_regexes name igd') →
  walk_queue fuel t igf igd queue output = walk_queue fuel t igf' igd' queue output.
Proof.
  intros Hf Hd. revert queue output.
  induction fuel as [|fuel IH]; intros queue output; [done|].
  cbn [walk_queue]. destruct queue as [|[d ps] rest]; [done|].
  destruct (os_listdir d t) as [[listing|e] t']; [|done].
  assert (∀ st, foldl (scan_name t igf igd d ps) st listing
                = foldl (scan_name t igf' igd' d ps) st listing) as ->.
  { induction listing as [|n listing IHl]; intros st; [done|]. cbn [foldl].
    rewrite IHl. f_equal. destruct st as [o q]. unfold scan_name. by rewrite Hf, Hd. }
  destruct (foldl _ _ _) as [o1 q1]. apply IH.
Qed.

(** X6: the pattern lists are built from set displays, so the order of
    their elements is whatever Python's set iteration gives; the walker's
    result does not depend on it.  [_value_match_regexes] asks whether any
    pattern matches, and lists that are permutations of each other give the
    same walk. *)
Theorem pattern_order_is_immaterial src_path igf igf' igd igd' w :
  igf ≡ₚ igf' → igd ≡ₚ igd' →
  (∀ value, _value_match_regexes value igf = _value_match_regexes value igf') ∧
  find_files_in_subdir src_path (Some igf) (Some igd) w
  = find_files_in_subdir src_path (Some igf') (Some igd') w.
Proof.
  intros Hf Hd. split; [intros value; by apply value_match_permutation|].
  unfold find_files_in_subdir. cbn [default].
  rewrite (walk_queue_ext _ _ igf igd igf' igd'); [done|..];
    intros name; by apply value_match_permutation.
Qed.

(** ** [_fill_client_version] *)

Lemma entry_put_put n c c' es : entry_put n c (entry_put n c' es) = entry_put n c es.
Proof.
  induction es as [|[m x] es IH]; simpl.
  - by rewrite decide_True.
  - destruct (decide (m = n)); simpl.
    + by rewrite decide_True.
    + by rewrite decide_False, IH.
Qed.

Lemma put_below n m p v es :
  put (n :: m :: p) v (Dir es)
  = match entry_get n es with
    | Some c => Dir (entry_put n (put (m :: p) v c) es)
    | None => Dir es
    end.
Proof. done. Qed.

Lemma put_put p c t : put p (Some c) (put p (Some c) t) = put p (Some c) t.
Proof.
  revert t. induction p as [|n p IH]; intros t; [done|].
  destruct t as [d|es]; [done|]. destruct p as [|m p].
  - simpl. by rewrite entry_put_put.
  - rewrite !put_below. destruct (entry_get n es) as [x|] eqn:Hx.
    + rewrite put_below, entry_get_put_eq, IH. by rewrite entry_put_put.
    + by rewrite put_below, Hx.
Qed.

(** X7: [_fill_client_version] regenerates [version.py] from the addon's
    name and version.  Where the client package directory is there, the
    call succeeds whatever the file held before (or if it was missing); the
    file then holds the template filled in with the name and the version,
    no other path has changed, and a second call changes nothing at all. *)
Theorem fill_client_version_regenerates current_dir w :
  let version_py := current_dir ++ ["client"; ADDON_CLIENT_DIR; "version.py"] in
  let content := bytes_of_string (CLIENT_VERSION_CONTENT ADDON_NAME ADDON_VERSION) in
  stat (fs w) (current_dir ++ ["client"; ADDON_CLIENT_DIR]) = Some KDir →
  stat (fs w) version_py ≠ Some KDir →
  ∃ w',
    _fill_client_version current_dir w = (Ok tt, w') ∧
    stat (fs w') version_py = Some (KFile content) ∧
    (∀ q, q ≠ version_py → stat (fs w') q = stat (fs w) q) ∧
    fetched w' = fetched w ∧
    _fill_client_version current_dir w' = (Ok tt, w').
Proof.
  intros version_py content Hdir Hnodir.
  assert (parent version_py = current_dir ++ ["client"; ADDON_CLIENT_DIR]) as Hpar.
  { unfold version_py.
    rewrite (app_assoc _ ["client"; ADDON_CLIENT_DIR] ["version.py"]).
    by rewrite parent_snoc. }
  assert (version_py ≠ []) as Hnonroot by (unfold version_py; by destruct current_dir).
  destruct (write_file_replaces version_py content (fs w)) as (t' & Hw & Hfile & Hrest);
    [done|by rewrite Hpar|done|].
  exists (World t' (fetched w)). unfold _fill_client_version. fold version_py content.
  rewrite !on_fs_run, Hw. cbn [fst snd fs fetched].
  split; [done|]. split; [done|]. split; [done|]. split; [done|].
  revert Hw. unfold write_file.
  destruct (stat (fs w) version_py) as [[d|]|] eqn:Hs; [|done|]; rewrite ?Hpar, ?Hdir;
    intros [= <-].
  - assert (stat (put version_py (Some (File content)) (fs w)) version_py
            = Some (KFile content)) as -> by done.
    by rewrite put_put.
  - assert (stat (put version_py (Some (File content)) (fs w)) version_py
            = Some (KFile content)) as -> by done.
    by rewrite put_put.
Qed.

(** ** More about [download_usd_zip] *)

(** Writing and removing a file change that one path and no other. *)
Lemma below_non_dir t p k :
  stat t p ≠ Some KDir → k ≠ [] → stat t (p ++ k) = None.
Proof.
  intros Hp Hk. destruct (stat t (p ++ k)) eqn:Hs; [|done].
  assert (is_Some (stat t (p ++ k))) as Hsome by by eexists.
  by apply stat_below_dir in Hsome.
Qed.

Lemma write_file_exact p d t r t' :
  write_file p d t = (r, t') → ∀ q, q ≠ p → stat t' q = stat t q.
Proof.
  intros Hw q Hq. destruct (decide (p `prefix_of` q)) as [[k ->]|Hpre];
    [|by apply (write_file_frame _ _ _ _ _ Hw)].
  assert (k ≠ []) as Hk by (intros ->; by rewrite app_nil_r in Hq).
  destruct r as [[]|e]; [|by apply write_file_raise in Hw as ->].
  pose proof (write_file_ok _ _ _ _ Hw) as Hfile.
  rewrite (below_non_dir t') by (done || congruence).
  symmetry. apply below_non_dir; [|done].
  revert Hw. unfold write_file. by destruct (stat t p) as [[d'|]|].
Qed.

Lemma os_remove_exact p t r t' :
  os_remove p t = (r, t') → ∀ q, q ≠ p → stat t' q = stat t q.
Proof.
  intros Hrm q Hq. destruct (decide (p `prefix_of` q)) as [[k ->]|Hpre];
    [|by apply (os_remove_frame _ _ _ _ Hrm)].
  assert (k ≠ []) as Hk by (intros ->; by rewrite app_nil_r in Hq).
  revert Hrm. unfold os_remove.
  destruct (stat t p) as [[d'|]|] eqn:Hs; try by intros [= _ <-].
  intros [= _ <-]. destruct (decide (p = [])) as [->|Hp]; [done|].
  rewrite stat_put_none by done. symmetry. apply below_non_dir; [congruence|done].
Qed.

Lemma urlretrieve_exact src_url dst w r w' :
  urlretrieve src_url dst w = (r, w') →
  (∀ q, q ≠ dst → stat (fs w') q = stat (fs w) q) ∧ fetched w' = fetched w ++ [src_url].
Proof.
  rewrite urlretrieve_run.
  destruct (urlopen src_url) as [[data|data e]|]; [| |by intros [= _ <-]];
    destruct (write_file dst data (fs w)) as [r1 t1] eqn:Hw; intros [= _ <-];
    (split; [|done]); by apply (write_file_exact _ _ _ _ _ Hw).
Qed.

(** A checksum that was computed, with the default chunk size, is the digest
    of the file's bytes. *)
Lemma calculate_file_checksum_ok_inv filepath alg w fc w' :
  calculate_file_checksum filepath alg default_chunk_size w = (Ok fc, w') →
  w' = w ∧ ∃ H data,
    hashlib alg = Some H ∧ resolve (fs w) filepath = Some (File data) ∧ fc = digest H data.
Proof.
  intros Hrun. pose proof (calculate_file_checksum_pure _ _ _ _ _ _ Hrun) as ->.
  split; [done|].
  destruct (hashlib alg) as [H|] eqn:HH;
    [|unfold calculate_file_checksum in Hrun; by rewrite HH in Hrun].
  destruct (resolve (fs w) filepath) as [[data|es]|] eqn:Hfile.
  - rewrite (calculate_file_checksum_default _ _ H w data) in Hrun by done.
    injection Hrun as <-. by exists H, data.
  - unfold calculate_file_checksum in Hrun. rewrite HH, bind_run, on_fs_run in Hrun.
    unfold read_file in Hrun. by rewrite Hfile in Hrun.
  - unfold calculate_file_checksum in Hrun. rewrite HH, bind_run, on_fs_run in Hrun.
    unfold read_file in Hrun. by rewrite Hfile in Hrun.
Qed.

Lemma download_one_exact downloads_dir acc item w r w' :
  download_one downloads_dir acc item w = (r, w') →
  ∀ q, q ≠ zip_path_of downloads_dir item → stat (fs w') q = stat (fs w) q.
Proof.
  rewrite download_one_run. cbn zeta. set (zip_path := zip_path_of downloads_dir item).
  assert (∀ w1, (urlretrieve (url item.2) zip_path;;
                 file_checksum ← calculate_file_checksum zip_path (checksum_algorithm item.2)
                                   default_chunk_size;
                 if decide (checksum item.2 ≠ file_checksum) then
                   raise (ValueError (mismatch_message file_checksum (checksum item.2)))
                 else mret (acc ++ [record_of item])) w1 = (r, w') →
            ∀ q, q ≠ zip_path → stat (fs w') q = stat (fs w1) q) as Hfresh.
  { intros w1. rewrite bind_run.
    destruct (urlretrieve _ _ w1) as [[[]|e] w2] eqn:Hurl;
      apply urlretrieve_exact in Hurl as [Hurl _]; [|by intros [= _ <-]].
    rewrite bind_run.
    destruct (calculate_file_checksum _ _ _ w2) as [[fc|e] w3] eqn:Hc;
      apply calculate_file_checksum_pure in Hc as ->; [|by intros [= _ <-]].
    by case_decide; intros [= _ <-]. }
  destruct (path_exists (fs w) zip_path); [|apply Hfresh].
  destruct (calculate_file_checksum _ _ _ w) as [[fc|e] w1] eqn:Hc;
    apply calculate_file_checksum_pure in Hc as ->; [|by intros [= _ <-]].
  case_decide; [by intros [= _ <-]|].
  rewrite on_fs_run. destruct (os_remove zip_path (fs w)) as [r1 t1] eqn:Hrm. cbn [fst snd].
  pose proof (os_remove_exact _ _ _ _ Hrm) as Hrm'.
  destruct r1 as [[]|e]; [|by intros [= _ <-]].
  intros Hrun q Hq. rewrite (Hfresh _ Hrun q Hq). by apply Hrm'.
Qed.

(** *** What the download step may touch *)

Definition all_items (sources : list (string * list (string * platform_info)))
    : list (string * platform_info) :=
  flat_map snd sources.

Lemma download_sources_flat sources downloads_dir acc w :
  foldM (λ zip_files_info '(item_name, item_info),
           foldM (download_one downloads_dir) item_info zip_files_info)
        sources acc w
  = foldM (download_one downloads_dir) (all_items sources) acc w.
Proof.
  revert acc w. induction sources as [|[version items] sources IH]; intros acc w; [done|].
  unfold all_items. cbn [foldM flat_map snd]. rewrite foldM_app, !bind_run.
  destruct (foldM (download_one downloads_dir) items acc w) as [[l1|e] w1]; [|done].
  apply IH.
Qed.

Lemma download_loop_exact downloads_dir items acc w r w' :
  foldM (download_one downloads_dir) items acc w = (r, w') →
  ∀ q, q ∉ zip_path_of downloads_dir <$> items → stat (fs w') q = stat (fs w) q.
Proof.
  revert acc w. induction items as [|item items IH]; intros acc w; [by intros [= _ <-]|].
  cbn [foldM]. rewrite bind_run. intros Hrun q Hq.
  rewrite fmap_cons, not_elem_of_cons in Hq. destruct Hq as [Hq1 Hq2].
  destruct (download_one downloads_dir acc item w) as [[l1|e] w1] eqn:Hone;
    pose proof (download_one_exact _ _ _ _ _ _ Hone q Hq1) as Hstep.
  - rewrite (IH _ _ Hrun q Hq2). done.
  - by injection Hrun as _ <-.
Qed.

(** X10: whatever its outcome, the download step changes nothing on disk
    but the archive files of the source spec themselves: every other path,
    inside the downloads directory or not, is as it was. *)
Theorem download_usd_zip_touches_archives_only sources downloads_dir w r w' :
  download_sources sources downloads_dir w = (r, w') →
  ∀ q, q ∉ zip_path_of downloads_dir <$> all_items sources →
       stat (fs w') q = stat (fs w) q.
Proof.
  unfold download_sources. rewrite download_sources_flat. apply download_loop_exact.
Qed.

(** *** A second run *)

(** The archive of [item] is on disk with the declared digest. *)
Definition cached (downloads_dir : path) (t : node) (item : string * platform_info) : Prop :=
  ∃ H data,
    hashlib (checksum_algorithm item.2) = Some H ∧
    resolve t (zip_path_of downloads_dir item) = Some (File data) ∧
    digest H data = checksum item.2.

Lemma cached_same_stat downloads_dir t t' item :
  stat t' (zip_path_of downloads_dir item) = stat t (zip_path_of downloads_dir item) →
  cached downloads_dir t item → cached downloads_dir t' item.
Proof.
  intros Hstat (H & data & HH & Hfile & Hdig). exists H, data. split; [done|]. split; [|done].
  apply stat_resolve_file. rewrite Hstat. by apply stat_resolve_file.
Qed.

Lemma download_one_ok_cached downloads_dir acc item w l w' :
  download_one downloads_dir acc item w = (Ok l, w') → cached downloads_dir (fs w') item.
Proof.
  rewrite download_one_run. cbn zeta. set (zip_path := zip_path_of downloads_dir item).
  assert (∀ w1, (urlretrieve (url item.2) zip_path;;
                 file_checksum ← calculate_file_checksum zip_path (checksum_algorithm item.2)
                                   default_chunk_size;
                 if decide (checksum item.2 ≠ file_checksum) then
                   raise (ValueError (mismatch_message file_checksum (checksum item.2)))
                 else mret (acc ++ [record_of item])) w1 = (Ok l, w') →
            cached downloads_dir (fs w') item) as Hfresh.
  { intros w1. rewrite bind_run.
    destruct (urlretrieve _ _ w1) as [[[]|e] w2]; [|done].
    rewrite bind_run.
    destruct (calculate_file_checksum _ _ _ w2) as [[fc|e] w3] eqn:Hc; [|done].
    apply calculate_file_checksum_ok_inv in Hc as (-> & H & data & HH & Hfile & ->).
    case_decide as Hdig; [done|]. intros [= _ <-].
    exists H, data. split; [done|]. split; [done|].
    by destruct (decide (digest H data = checksum item.2)) as [|Hne]; [|destruct Hdig]. }
  destruct (path_exists (fs w) zip_path); [|apply Hfresh].
  destruct (calculate_file_checksum _ _ _ w) as [[fc|e] w1] eqn:Hc; [|done].
  apply calculate_file_checksum_ok_inv in Hc as (-> & H & data & HH & Hfile & ->).
  case_decide as Hdig.
  { intros [= _ <-]. by exists H, data. }
  destruct (on_fs (os_remove zip_path) w) as [[[]|e] w2]; [apply Hfresh|done].
Qed.

Lemma download_loop_cached downloads_dir items acc w l w' :
  foldM (download_one downloads_dir) items acc w = (Ok l, w') →
  NoDup (zip_path_of downloads_dir <$> items) →
  Forall (cached downloads_dir (fs w')) items.
Proof.
  revert acc w. induction items as [|item items IH]; intros acc w; [constructor|].
  cbn [foldM]. rewrite bind_run.
  destruct (download_one downloads_dir acc item w) as [[l1|e] w1] eqn:Hone; [|done].
  intros Hrest [Hnotin Hnodup]%NoDup_cons. constructor; [|by eapply IH].
  apply download_one_ok_cached in Hone.
  eapply cached_same_stat; [|exact Hone].
  by apply (download_loop_exact _ _ _ _ _ _ Hrest).
Qed.

Lemma download_loop_all_cached downloads_dir items acc w :
  Forall (cached downloads_dir (fs w)) items →
  foldM (download_one downloads_dir) items acc w = (Ok (acc ++ map record_of items), w).
Proof.
  intros Hall. revert acc. induction Hall as [|item items (H & data & HH & Hfile & Hdig) _ IH];
    intros acc.
  - by rewrite app_nil_r.
  - cbn [foldM]. rewrite bind_run.
    rewrite (download_one_hit _ _ _ _ H data) by done.
    rewrite IH. cbn [map]. by rewrite <-app_assoc.
Qed.

Lemma usd_sources_files_differ downloads_dir :
  NoDup (zip_path_of downloads_dir <$> all_items USD_SOURCES).
Proof.
  assert (zip_path_of downloads_dir <$> all_items USD_SOURCES
          = (λ n, downloads_dir ++ [n]) <$> ["usd-24.03_win64_py39.zip";
                                              "usd-24.03_linux_py39.zip"]) as -> by done.
  apply NoDup_fmap_2; [intros n m Hnm; by apply app_inv_head in Hnm as [= ->]|].
  apply NoDup_cons. split; [|apply NoDup_singleton].
  by intros [= ]%list_elem_of_singleton.
Qed.

(** X9: once the download step has completed, running it again fetches
    nothing and changes nothing: every archive is found on disk with the
    declared digest, and the same records are returned.  This holds for any
    source spec whose archives have distinct file names, and so for
    [USD_SOURCES]. *)
Theorem download_usd_zip_second_run_is_cached downloads_dir w l w' :
  (∀ sources,
     NoDup (zip_path_of downloads_dir <$> all_items sources) →
     download_sources sources downloads_dir w = (Ok l, w') →
     download_sources sources downloads_dir w' = (Ok l, w')) ∧
  (download_usd_zip downloads_dir w = (Ok l, w') →
   download_usd_zip downloads_dir w' = (Ok l, w')).
Proof.
  assert (∀ sources,
     NoDup (zip_path_of downloads_dir <$> all_items sources) →
     download_sources sources downloads_dir w = (Ok l, w') →
     download_sources sources downloads_dir w' = (Ok l, w')) as Hgen.
  { intros sources Hnodup Hrun.
    pose proof (download_sources_inv _ _ _ _ _ Hrun) as [_ Hl].
    specialize (Hl l eq_refl). subst l.
    revert Hrun. unfold download_sources. rewrite !download_sources_flat.
    intros Hall%download_loop_cached; [|done].
    rewrite download_loop_all_cached by done. f_equal. f_equal.
    rewrite app_nil_l. unfold records_of, all_items. clear.
    induction sources as [|[v items] sources IH]; [done|].
    cbn [flat_map snd]. by rewrite map_app, IH. }
  split; [done|]. apply Hgen, usd_sources_files_differ.
Qed.

(** ** What a run of [main] may touch *)

Lemma comparable_version_dir od q :
  comparable (version_dir od) q → comparable (out_dir od) q.
Proof.
  rewrite version_dir_eq. intros [Hq|Hq]; [by eapply comparable_above|by eapply comparable_below].
Qed.

(** The downloads, the version stamp, and the output directory with the
    directories leading to it. *)
Definition run_area (od : option path) (q : path) : Prop :=
  downloads_dir_of `prefix_of` q ∨ version_file `prefix_of` q ∨ comparable (out_dir od) q.

Lemma build_area_run_area od q : build_area od q → run_area od q.
Proof.
  intros [Hq|Hq]; [right; by left|]. right. right. by apply comparable_version_dir.
Qed.

Lemma frames_purge_step_below od :
  frames (λ q, out_dir od `prefix_of` q) (purge_step od).
Proof.
  unfold purge_step. apply frames_bind; [apply frames_read_fs|]. intros purge.
  apply frames_when, frames_on_fs. intros t r t'. apply shutil_rmtree_frame.
Qed.

Lemma frames_purge_step od : frames (run_area od) (purge_step od).
Proof.
  eapply frames_weaken; [|apply frames_purge_step_below].
  intros q Hq. right. right. by right.
Qed.

Lemma frames_finish od skip_zip keep_sources :
  frames (run_area od) (finish od skip_zip keep_sources).
Proof.
  unfold finish. apply frames_when, frames_bind.
  - eapply frames_weaken; [|apply frames_create_server_package].
    intros q Hq. right. right. by eapply comparable_below.
  - intros _. apply frames_when, frames_on_fs. intros t r t' Hrm.
    eapply unchanged_off_weaken; [|by eapply shutil_rmtree_frame].
    intros q Hq. right. right. by eapply comparable_below.
Qed.

Lemma frames_main od skip_zip keep_sources :
  frames (run_area od) (main od skip_zip keep_sources).
Proof.
  intros w r w'. rewrite main_phases. revert w r w'.
  change (frames (run_area od)
            (files_info ← download_phase;
             purge_step od;;
             stage od files_info;;
             write_manifest od files_info;;
             zip_client_side (version_dir od) script_dir;;
             finish od skip_zip keep_sources)).
  apply frames_bind.
  { intros w r w' Hrun. eapply unchanged_off_weaken; [|by eapply download_phase_frame].
    intros q Hq. by left. }
  intros files_info. apply frames_bind; [apply frames_purge_step|]. intros _.
  apply frames_bind.
  { eapply frames_weaken; [apply build_area_run_area|apply frames_stage]. }
  intros _. apply frames_bind.
  { eapply frames_weaken; [apply build_area_run_area|apply frames_write_manifest]. }
  intros _. apply frames_bind.
  { eapply frames_weaken; [apply build_area_run_area|apply frames_zip_client_side_area]. }
  intros _. apply frames_finish.
Qed.

(** X11: a run of [main], however it ends, changes nothing outside the
    downloads directory, the version stamp [version.py], and the output
    directory (with the directories leading to it, which it may have to
    make).  With the default output directory the sources of the addon are
    therefore as they were: everything in [server], [package.py], and
    everything in [client] but [version.py]. *)
Theorem main_leaves_sources_alone od skip_zip keep_sources w r w' :
  main od skip_zip keep_sources w = (r, w') →
  (∀ q, ¬ downloads_dir_of `prefix_of` q → ¬ version_file `prefix_of` q →
        ¬ comparable (out_dir od) q →
        stat (fs w') q = stat (fs w) q) ∧
  (od = None →
   (∀ k, stat (fs w') (script_dir ++ "server" :: k) = stat (fs w) (script_dir ++ "server" :: k)) ∧
   stat (fs w') (script_dir ++ ["package.py"]) = stat (fs w) (script_dir ++ ["package.py"]) ∧
   (∀ k, ¬ version_file `prefix_of` script_dir ++ "client" :: k →
         stat (fs w') (script_dir ++ "client" :: k) = stat (fs w) (script_dir ++ "client" :: k))).
Proof.
  intros Hrun%frames_main.
  assert (∀ q, ¬ downloads_dir_of `prefix_of` q → ¬ version_file `prefix_of` q →
               ¬ comparable (out_dir od) q → stat (fs w') q = stat (fs w) q) as Hframe.
  { intros q Hdl Hvf Hout. apply Hrun. by intros [?|[?|?]]. }
  split; [done|]. intros ->.
  assert (∀ n k, n ≠ "downloads" → n ≠ "package" →
                 ¬ version_file `prefix_of` script_dir ++ n :: k →
                 stat (fs w') (script_dir ++ n :: k) = stat (fs w) (script_dir ++ n :: k))
    as Hsrc.
  { intros n k Hdl Hpkg Hvf. apply Hframe; [|done|].
    - unfold downloads_dir_of. by apply (diverge_names script_dir "downloads" n [] k).
    - unfold out_dir. cbn [default]. intros [Hc|Hc].
      + apply prefix_app_inv, prefix_cons_inv_1 in Hc. done.
      + revert Hc. by apply (diverge_names script_dir "package" n [] k). }
  assert (∀ n k, n ≠ "client" → ¬ version_file `prefix_of` script_dir ++ n :: k) as Hvf.
  { intros n k Hn. unfold version_file. by apply diverge_names. }
  split; [|split].
  - intros k. apply Hsrc; [done..|by apply Hvf].
  - apply Hsrc; [done..|by apply Hvf].
  - intros k Hk. by apply Hsrc.
Qed.

(** ** What a completed run has put into the package *)

(** After the purge nothing is left below the version directory, purged or
    not: if it was there, the output directory has gone; if it was not,
    there was nothing below it. *)
Lemma purge_step_clears_version_dir od w w' k :
  purge_step od w = (Ok tt, w') → k ≠ [] → stat (fs w') (version_dir od ++ k) = None.
Proof.
  intros Hpurge Hk. rewrite version_dir_eq.
  destruct (isdir (fs w) (out_dir od ++ [ADDON_NAME; ADDON_VERSION])) eqn:Hd.
  - apply (purge_step_removes_output_dir od w w' Hd Hpurge).
    rewrite <-app_assoc. by apply prefix_app_r.
  - revert Hpurge. unfold purge_step. rewrite bind_run. unfold read_fs at 1. rewrite Hd.
    intros [= <-]. apply below_non_dir; [|done]. intros Hdir%isdir_stat. congruence.
Qed.

Lemma prefix_app_cons_cases (q l : path) n k :
  q `prefix_of` l ++ n :: k → q `prefix_of` l ∨ (l ++ [n]) `prefix_of` q.
Proof.
  intros Hq.
  destruct (prefix_weak_total _ _ _ Hq (prefix_app_r l l (n :: k) (reflexivity _)))
    as [Hle|[j ->]]; [by left|].
  destruct j as [|m j]; [left; by rewrite app_nil_r|]. right.
  destruct Hq as [k' Hk']. rewrite <-app_assoc in Hk'. apply app_inv_head in Hk'.
  simpl in Hk'. injection Hk' as <- _. apply prefix_app, prefix_cons, prefix_nil.
Qed.

Lemma frames_copy_server_content_below addon_output_dir current_dir :
  frames (λ q, q `prefix_of` addon_output_dir ∨ (addon_output_dir ++ ["server"]) `prefix_of` q)
         (copy_server_content addon_output_dir current_dir).
Proof.
  unfold copy_server_content. apply frames_bind; [apply frames_find_files|].
  intros found. apply frames_for_each.
  intros [src dst] ([src' rel] & [= -> ->] & _)%list_elem_of_fmap.
  eapply frames_weaken; [|apply frames_safe_copy_file].
  generalize (components os_sep rel). intros comps q [Hq|Hq].
  - destruct comps as [|c comps _] using rev_ind.
    + left. by rewrite parent_snoc in Hq.
    + assert (parent (addon_output_dir ++ "server" :: comps ++ [c])
              = addon_output_dir ++ "server" :: comps) as Hpar.
      { change ("server" :: comps ++ [c]) with (("server" :: comps) ++ [c]).
        by rewrite app_assoc, parent_snoc. }
      rewrite Hpar in Hq. by apply prefix_app_cons_cases in Hq.
  - right. etrans; [|exact Hq]. apply prefix_app, prefix_cons, prefix_nil.
Qed.

(** A copy that succeeded, where the destination was not a directory. *)
Lemma shutil_copy_ok_inv src dst t t' :
  shutil_copy src dst t = (Ok tt, t') → stat t dst ≠ Some KDir →
  ∃ data, resolve t src = Some (File data) ∧ stat t' dst = Some (KFile data) ∧
          ∀ q, q ≠ dst → stat t' q = stat t q.
Proof.
  unfold shutil_copy. intros Hcp Hnodir.
  assert (isdir t dst = false) as Hd.
  { destruct (isdir t dst) eqn:Hd; [|done]. by apply isdir_stat in Hd. }
  rewrite Hd in Hcp. destruct (path_exists t src && _); [done|].
  destruct (read_file src t) as [[data|e] t1] eqn:Hread; [|done].
  apply read_file_inv in Hread as [_ Hread]. exists data.
  split; [by apply Hread|]. split; [by eapply write_file_ok|by eapply write_file_exact].
Qed.

(** The loop of lines 423 to 427, into a private directory that holds no
    directories. *)
Lemma copy_archives_ok downloads_dir private files_info w w' :
  for_each files_info (λ file_info,
    on_fs (shutil_copy (downloads_dir ++ [rec_filename file_info])
                       (private ++ [rec_filename file_info]))) w = (Ok tt, w') →
  downloads_dir ≠ private →
  (∀ name, stat (fs w) (private ++ [name]) ≠ Some KDir) →
  (∀ file_info, file_info ∈ files_info →
     ∃ data, stat (fs w) (downloads_dir ++ [rec_filename file_info]) = Some (KFile data) ∧
             stat (fs w') (private ++ [rec_filename file_info]) = Some (KFile data)) ∧
  (∀ q, q ∉ (λ file_info, private ++ [rec_filename file_info]) <$> files_info →
        stat (fs w') q = stat (fs w) q).
Proof.
  intros Hrun Hapart. revert w Hrun.
  induction files_info as [|fi files_info IH]; intros w Hrun Hnodir.
  { injection Hrun as <-. split; [by intros fi ?%elem_of_nil|done]. }
  cbn [for_each] in Hrun. apply bind_ok in Hrun as ([] & w1 & Hcp & Hrest).
  rewrite on_fs_run in Hcp. injection Hcp as Hcp Hw1.
  destruct (shutil_copy _ _ (fs w)) as [r t1] eqn:Hcopy. cbn [fst snd] in *. subst r.
  apply shutil_copy_ok_inv in Hcopy as (data & Hsrc & Hdst & Hexact); [|apply Hnodir].
  assert (fs w1 = t1) as Hfs by by subst w1.
  assert (∀ name, stat (fs w1) (private ++ [name]) ≠ Some KDir) as Hnodir1.
  { intros name. rewrite Hfs.
    destruct (decide (private ++ [name] = private ++ [rec_filename fi])) as [->|Hne].
    - by rewrite Hdst.
    - rewrite Hexact by done. apply Hnodir. }
  assert (∀ name, stat (fs w1) (downloads_dir ++ [name]) = stat (fs w) (downloads_dir ++ [name]))
    as Hdl.
  { intros name. rewrite Hfs. apply Hexact. intros [Heq _]%app_inj_tail. done. }
  destruct (IH w1 Hrest Hnodir1) as [Hfiles Hframe]. split.
  - intros fi' [->|Hin]%elem_of_cons.
    + exists data. split; [by apply stat_resolve_file|].
      destruct (decide (private ++ [rec_filename fi]
                        ∈ (λ file_info, private ++ [rec_filename file_info]) <$> files_info))
        as [Hagain|Hnot].
      * apply list_elem_of_fmap in Hagain as (fi2 & Heq & Hin2).
        destruct (Hfiles fi2 Hin2) as (data2 & Hsrc2 & Hdst2).
        apply app_inj_tail in Heq as [_ Heq]. rewrite <-Heq in Hsrc2, Hdst2.
        rewrite Hdl in Hsrc2. apply stat_resolve_file in Hsrc2. congruence.
      * rewrite (Hframe _ Hnot). by rewrite Hfs.
    + destruct (Hfiles fi' Hin) as (data' & Hsrc' & Hdst'). exists data'.
      split; [by rewrite <-Hdl|done].
  - intros q Hq. rewrite fmap_cons, not_elem_of_cons in Hq. destruct Hq as [Hq1 Hq2].
    rewrite (Hframe q Hq2), Hfs. by apply Hexact.
Qed.

(** The paths of a run with the default output directory, from the
    directory of the script. *)
Lemma default_private_dir :
  private_dir None = script_dir ++ ["package"; ADDON_NAME; ADDON_VERSION; "private"].
Proof.
  unfold private_dir, version_dir, root_dir, out_dir. cbn [default]. by rewrite <-!app_assoc.
Qed.

Lemma default_version_dir :
  version_dir None = script_dir ++ ["package"; ADDON_NAME; ADDON_VERSION].
Proof. unfold version_dir, root_dir, out_dir. cbn [default]. by rewrite <-!app_assoc. Qed.

Lemma default_build_area_apart n k :
  n ≠ "package" → ¬ comparable (version_dir None) (script_dir ++ n :: k).
Proof.
  intros Hn. rewrite default_version_dir. intros [Hc|Hc].
  - apply prefix_app_inv, prefix_cons_inv_1 in Hc. done.
  - revert Hc. by apply (diverge_names script_dir "package" n).
Qed.

(** The download phase, when it completes, leaves every archive of the
    source spec on disk with its declared digest. *)
Lemma download_phase_ok_cached w files_info w1 :
  download_phase w = (Ok files_info, w1) →
  files_info = records_of USD_SOURCES ∧
  Forall (cached downloads_dir_of (fs w1)) (all_items USD_SOURCES).
Proof.
  unfold download_phase. intros ([] & w0 & _ & Hdl)%bind_ok.
  pose proof (download_sources_inv _ _ _ _ _ Hdl) as [_ Hl]. split; [by apply Hl|].
  revert Hdl. unfold download_usd_zip, download_sources. rewrite download_sources_flat.
  intros Hdl. eapply download_loop_cached; [exact Hdl|apply usd_sources_files_differ].
Qed.

(** The rest of the staging, once the version stamp is written. *)
Definition stage_output (output_dir : option path) (files_info : list archive_record)
    : M unit :=
  present ← read_fs (λ t, path_exists t (version_dir output_dir));
  when (negb present) (on_fs (os_makedirs (version_dir output_dir)));;
  copy_server_content (version_dir output_dir) script_dir;;
  present ← read_fs (λ t, path_exists t (private_dir output_dir));
  when (negb present) (on_fs (path_mkdir true false (private_dir output_dir)));;
  for_each files_info (λ file_info,
    on_fs (shutil_copy (downloads_dir_of ++ [rec_filename file_info])
                       (private_dir output_dir ++ [rec_filename file_info]))).

Lemma stage_split od files_info w :
  stage od files_info w = (_fill_client_version script_dir;; stage_output od files_info) w.
Proof. done. Qed.

Lemma frames_stage_output od files_info :
  frames (comparable (version_dir od)) (stage_output od files_info).
Proof.
  unfold stage_output. apply frames_bind; [apply frames_read_fs|]. intros present.
  apply frames_bind.
  { apply frames_when, frames_on_fs. intros t r t' Hmk.
    eapply unchanged_off_weaken; [|by eapply os_makedirs_frame]. by left. }
  intros _. apply frames_bind; [apply frames_copy_server_content|].
  intros _. apply frames_bind; [apply frames_read_fs|]. intros present'.
  apply frames_bind.
  { apply frames_when, frames_on_fs. intros t r t' [Hmk _]%path_mkdir_spec.
    eapply unchanged_off_weaken; [|done].
    intros q Hq. unfold private_dir in Hq. by eapply comparable_above. }
  intros _. apply frames_for_each. intros file_info _.
  apply frames_on_fs. intros t r t' Hcp.
  eapply unchanged_off_weaken; [|by eapply shutil_copy_frame].
  intros q Hq. unfold private_dir in Hq. rewrite <-app_assoc in Hq.
  by eapply comparable_below.
Qed.

Lemma path_mkdir_frame parents exist_ok p t r t' :
  path_mkdir parents exist_ok p t = (r, t') → unchanged_off (λ q, q `prefix_of` p) t t'.
Proof. by intros [? _]%path_mkdir_spec. Qed.

(** What the staging leaves in the private directory, when nothing was
    below the version directory before. *)
Lemma stage_output_archives od files_info w w' :
  stage_output od files_info w = (Ok tt, w') →
  (∀ k, k ≠ [] → stat (fs w) (version_dir od ++ k) = None) →
  downloads_dir_of ≠ private_dir od →
  (∀ name, ¬ comparable (version_dir od) (downloads_dir_of ++ [name])) →
  ∀ file_info, file_info ∈ files_info →
    ∃ data, stat (fs w) (downloads_dir_of ++ [rec_filename file_info]) = Some (KFile data) ∧
            stat (fs w') (private_dir od ++ [rec_filename file_info]) = Some (KFile data).
Proof.
  unfold stage_output.
  intros (present & w0 & [= <- <-] & Hrun)%bind_ok Hempty Hne Hdl.
  apply bind_ok in Hrun as ([] & wa & Hmk & Hrun).
  apply bind_ok in Hrun as ([] & wb & Hcopy & Hrun).
  apply bind_ok in Hrun as (present' & wb' & [= <- <-] & Hrun).
  apply bind_ok in Hrun as ([] & wc & Hpriv & Hrun).
  assert (∀ k, k ≠ [] → ¬ (version_dir od ++ k) `prefix_of` version_dir od) as Hbelow.
  { intros k Hk Hpre%prefix_length. rewrite length_app in Hpre.
    destruct k; [done|]. simpl in Hpre. lia. }
  assert (unchanged_off (λ q, q `prefix_of` version_dir od) (fs w) (fs wa)) as Hfr_a.
  { eapply (frames_when _ _ _ (frames_on_fs _ _ (os_makedirs_frame _))). exact Hmk. }
  assert (unchanged_off (λ q, q `prefix_of` private_dir od) (fs wb) (fs wc)) as Hfr_c.
  { eapply (frames_when _ _ _ (frames_on_fs _ _ (path_mkdir_frame _ _ _))). exact Hpriv. }
  pose proof (frames_copy_server_content_below _ _ _ _ _ Hcopy) as Hfr_b.
  assert (∀ k, k ≠ [] → ¬ (version_dir od ++ ["server"]) `prefix_of` private_dir od ++ k →
               stat (fs wb) (private_dir od ++ k) = None) as Hnone_b.
  { intros k Hk Hserver. unfold private_dir in *. rewrite <-app_assoc in *.
    rewrite Hfr_b, Hfr_a; [by apply Hempty|by apply Hbelow|].
    intros [Hq|Hq]; [by apply Hbelow in Hq|done]. }
  assert (stat (fs wb) (private_dir od) = None) as Hpriv_none.
  { unfold private_dir. rewrite Hfr_b, Hfr_a; [by apply Hempty|by apply Hbelow|].
    intros [Hq|Hq]; [by apply Hbelow in Hq|].
    by apply prefix_app_inv, prefix_cons_inv_1 in Hq. }
  assert (∀ name, stat (fs wc) (private_dir od ++ [name]) ≠ Some KDir) as Hfresh.
  { intros name. rewrite Hfr_c.
    - rewrite Hnone_b; [done..|]. unfold private_dir. rewrite <-app_assoc.
      intros Hq. by apply prefix_app_inv, prefix_cons_inv_1 in Hq.
    - intros Hpre%prefix_length. rewrite length_app in Hpre. simpl in Hpre. lia. }
  destruct (copy_archives_ok _ _ _ _ _ Hrun Hne Hfresh) as [Hfiles _].
  intros file_info Hin. destruct (Hfiles file_info Hin) as (data & Hsrc & Hdst).
  exists data. split; [|done]. rewrite <-Hsrc.
  assert (stat (fs wc) (downloads_dir_of ++ [rec_filename file_info])
          = stat (fs wb) (downloads_dir_of ++ [rec_filename file_info])) as ->.
  { apply Hfr_c. intros Hq. apply (Hdl (rec_filename file_info)). unfold private_dir in Hq.
    by eapply comparable_above. }
  rewrite (frames_copy_server_content _ _ _ _ _ Hcopy) by apply Hdl.
  symmetry. apply Hfr_a. intros Hq. apply (Hdl (rec_filename file_info)). by left.
Qed.


(** X12: a run with the default output directory that completes and keeps
    the version directory (with [--skip-zip] or [--keep-sources]) has put a
    copy of every archive of the source spec into the private directory, and
    each copy has the checksum the spec declares for it; the manifest beside
    them lists the records of the source spec; and [version.py] holds the
    regenerated stamp. *)
Theorem packaged_archives_have_declared_checksums skip_zip keep_sources w w' :
  main None skip_zip keep_sources w = (Ok tt, w') →
  skip_zip = true ∨ keep_sources = true →
  (∀ item, item ∈ all_items USD_SOURCES →
     ∃ H data,
       hashlib (checksum_algorithm item.2) = Some H ∧
       digest H data = checksum item.2 ∧
       stat (fs w') (private_dir None ++ [str_last_segment (url item.2)])
       = Some (KFile data)) ∧
  stat (fs w') (manifest_path None) = Some (KFile (json_dumps (records_of USD_SOURCES))) ∧
  stat (fs w') version_file
  = Some (KFile (bytes_of_string (CLIENT_VERSION_CONTENT ADDON_NAME ADDON_VERSION))).
Proof.
  intros (files_info & w1 & w2 & w3 & w4 & w5 & H1 & H2 & H3 & H4 & H5 & H6)%main_ok_inv Hkeep.
  apply download_phase_ok_cached in H1 as [-> Hcached].
  rewrite stage_split in H3. apply bind_ok in H3 as ([] & wv & Hfill & H3).
  (* what the last step leaves alone *)
  assert (∀ q, ¬ archive_path None `prefix_of` q → stat (fs w') q = stat (fs w5) q) as Hlast.
  { intros q Harchive. apply finish_ok in H6. destruct skip_zip; [by subst|].
    destruct Hkeep as [Hs | ->]; [done|]. destruct H6 as [_ H6]. by apply H6. }
  assert (∀ k, ¬ archive_path None `prefix_of` private_dir None ++ k) as Hprivate.
  { intros k. unfold private_dir, version_dir. rewrite <-!app_assoc.
    apply root_not_under_archive. }
  split; [|split].
  - intros item Hitem.
    pose proof Hcached as Hall. rewrite Forall_forall in Hall.
    destruct (Hall item Hitem) as (H & data & HH & Hfile & Hdig).
    exists H, data. split; [done|]. split; [done|].
    set (name := str_last_segment (url item.2)).
    assert (stat (fs wv) (downloads_dir_of ++ [name]) = Some (KFile data)) as Hsrc.
    { rewrite (frames_fill_client_version _ _ _ _ Hfill).
      - rewrite (frames_purge_step_below _ _ _ _ H2); [by apply stat_resolve_file|].
        unfold downloads_dir_of, out_dir. cbn [default]. rewrite <-app_assoc.
        by apply (diverge_names script_dir "package" "downloads" []).
      - unfold downloads_dir_of. rewrite <-app_assoc. by apply diverge_names. }
    destruct (stage_output_archives None _ _ _ H3) with
      (file_info := record_of item) as (data' & Hsrc' & Hdst').
    + intros k Hk. rewrite (frames_fill_client_version _ _ _ _ Hfill).
      * by apply (purge_step_clears_version_dir None w1 w2).
      * rewrite default_version_dir, <-app_assoc. by apply diverge_names.
    + rewrite default_private_dir. unfold downloads_dir_of.
      intros Heq%app_inv_head. done.
    + intros n. unfold downloads_dir_of. rewrite <-app_assoc.
      by apply default_build_area_apart.
    + unfold records_of, all_items in *. apply list_elem_of_In, in_flat_map.
      apply list_elem_of_In, in_flat_map in Hitem as (version & Hv & Hi).
      exists version. split; [done|]. by apply in_map.
    + cbn [record_of rec_filename] in Hsrc', Hdst'. fold name in Hsrc', Hdst'.
      rewrite Hsrc in Hsrc'. injection Hsrc' as <-.
      rewrite Hlast by apply Hprivate.
      rewrite (frames_zip_client_side _ _ _ _ _ H5).
      * revert H4. unfold write_manifest. rewrite on_fs_run. intros [= _ <-]. cbn [fs].
        rewrite (write_file_exact _ _ _ _ _ (surjective_pairing _)); [done|].
        unfold manifest_path. intros [_ Heq]%app_inj_tail.
        clear -Hitem Heq. unfold all_items in Hitem. cbn in Hitem.
        rewrite !elem_of_cons, elem_of_nil in Hitem.
        destruct Hitem as [->|[->|[]]]; by vm_compute in Heq.
      * fold (private_dir None). intros [Hq|Hq].
        -- apply prefix_length in Hq. rewrite length_app in Hq. simpl in Hq. lia.
        -- unfold private_dir in Hq. rewrite <-app_assoc in Hq.
           apply prefix_app_inv, prefix_cons_inv_2, prefix_cons_inv_1 in Hq.
           clear -Hitem Hq. unfold all_items in Hitem. cbn in Hitem.
           rewrite !elem_of_cons, elem_of_nil in Hitem. subst name.
           destruct Hitem as [->|[->|[]]]; by vm_compute in Hq.
  - rewrite Hlast by apply (Hprivate ["files_info.json"]).
    rewrite (manifest_survives_client_zip _ _ _ _ H5).
    revert H4. unfold write_manifest. rewrite on_fs_run. intros [= Hok <-]. cbn [fs].
    eapply write_file_ok.
    destruct (write_file _ _ (fs w3)) as [[[]|?] ?] eqn:Hw; [exact Hw|done].
  - assert (¬ comparable (version_dir None) version_file) as Hvf.
    { unfold version_file. by apply default_build_area_apart. }
    rewrite Hlast.
    2:{ unfold archive_path, version_file, out_dir. cbn [default]. rewrite <-app_assoc.
        by apply diverge_names. }
    rewrite (frames_zip_client_side _ _ _ _ _ H5).
    2:{ intros [Hq|Hq]; apply Hvf; [by eapply comparable_above|by eapply comparable_below]. }
    assert (stat (fs w4) version_file = stat (fs w3) version_file) as ->.
    { revert H4. unfold write_manifest. rewrite on_fs_run. intros [= _ <-]. cbn [fs].
      eapply write_file_exact; [apply surjective_pairing|].
      intros Heq. apply Hvf. right. rewrite Heq. unfold manifest_path, private_dir.
      rewrite <-app_assoc. by apply prefix_app_r. }
    rewrite (frames_stage_output _ _ _ _ _ H3) by done.
    revert Hfill. unfold _fill_client_version. rewrite on_fs_run. intros [= Hok <-]. cbn [fs].
    eapply write_file_ok.
    destruct (write_file _ _ (fs w2)) as [[[]|?] ?] eqn:Hw; [exact Hw|done].
Qed.

(** ** What goes into the archives *)

(** The member [ZipFile.write] makes of a path: a file under its archive
    name with its bytes, a directory as an empty member whose name ends in a
    slash. *)
Definition member_of (k : kind) (arcname : string) : string * bytes :=
  match k with
  | KFile d => (arcname, d)
  | KDir => (arcname +:+ "/", [])
  end.

Lemma zip_write_ok zip_filepath members filename arcname w members' w' :
  zip_write zip_filepath members filename arcname w = (Ok members', w') →
  ∃ k, stat (fs w) filename = Some k ∧
       members' = members ++ [member_of k arcname] ∧
       stat (fs w') zip_filepath = Some (KFile (zip_bytes members')) ∧
       (∀ q, q ≠ zip_filepath → stat (fs w') q = stat (fs w) q).
Proof.
  unfold zip_write. intros (member & w0 & Hmember & Hput)%bind_ok.
  assert (w0 = w ∧ ∃ k, stat (fs w) filename = Some k ∧ member = member_of k arcname)
    as [-> (k & Hk & ->)].
  { revert Hmember. unfold stat.
    destruct (resolve (fs w) filename) as [[d|es]|]; intros [= <- <-]; (split; [done|]).
    - by exists (KFile d).
    - by exists KDir. }
  apply bind_ok in Hput as ([] & w1 & Hwrite & [= <- <-]).
  rewrite on_fs_run in Hwrite. injection Hwrite as Hok <-. cbn [fs].
  destruct (write_file _ _ (fs w)) as [r t1] eqn:Hw. cbn [fst snd] in *. subst r.
  exists k. split; [done|]. split; [done|].
  split; [by eapply write_file_ok|by eapply write_file_exact].
Qed.

Lemma Forall2_impl_elem {A B} (R R' : A → B → Prop) l k :
  Forall2 R l k → (∀ x y, x ∈ l → R x y → R' x y) → Forall2 R' l k.
Proof.
  induction 1 as [|x y l k Hxy _ IH]; intros Himpl; constructor.
  - apply Himpl; [by left|done].
  - apply IH. intros x' y' Hin. apply Himpl. by right.
Qed.

(** A loop of [zipf.write] calls: the members are added in the order of the
    list, each with what its source held when the loop began, and the
    archive file is the only path that changes. *)
Lemma zip_write_loop {A} (src : A → path) (arc : A → string) zip_filepath l members0 w
    members w' :
  foldM (λ zipf x, zip_write zip_filepath zipf (src x) (arc x)) l members0 w
    = (Ok members, w') →
  (∀ x, x ∈ l → src x ≠ zip_filepath) →
  stat (fs w) zip_filepath = Some (KFile (zip_bytes members0)) →
  ∃ added,
    members = members0 ++ added ∧
    Forall2 (λ x m, ∃ k, stat (fs w) (src x) = Some k ∧ m = member_of k (arc x)) l added ∧
    stat (fs w') zip_filepath = Some (KFile (zip_bytes members)) ∧
    (∀ q, q ≠ zip_filepath → stat (fs w') q = stat (fs w) q).
Proof.
  revert members0 w. induction l as [|x l IH]; intros members0 w Hrun Hsrc Hzip.
  { injection Hrun as <- <-. exists []. rewrite app_nil_r. by repeat split. }
  cbn [foldM] in Hrun. apply bind_ok in Hrun as (members1 & w1 & Hone & Hrest).
  apply zip_write_ok in Hone as (k & Hk & -> & Hzip1 & Hexact).
  destruct (IH _ _ Hrest) as (added & -> & Hadded & Hzip' & Hexact'); [|done|].
  { intros y Hy. apply Hsrc. by right. }
  exists (member_of k (arc x) :: added). rewrite <-app_assoc. split; [done|].
  split; [|split; [by rewrite <-app_assoc in Hzip'|]].
  - constructor; [by exists k|].
    eapply Forall2_impl_elem; [exact Hadded|]. cbn beta.
    intros y m Hy (k' & Hk' & ->). exists k'. split; [|done].
    rewrite <-Hk'. symmetry. apply Hexact. apply Hsrc. by right.
  - intros q Hq. rewrite Hexact' by done. by apply Hexact.
Qed.

Lemma foldM_ext {A S} (body body' : S → A → M S) l s w :
  (∀ s x w, body s x w = body' s x w) → foldM body l s w = foldM body' l s w.
Proof.
  intros Hext. revert s w. induction l as [|x l IH]; intros s w; [done|].
  cbn [foldM]. rewrite !bind_run, Hext. destruct (body' s x w) as [[s'|e] w1]; [apply IH|done].
Qed.

(** Which files are selected below [src_path] depends on the regular files
    below it only. *)
Lemma selected_same_files t t' igf igd src_path p rel :
  (∀ q, src_path `prefix_of` q → isfile t' q = isfile t q) →
  selected t igf igd src_path p rel → selected t' igf igd src_path p rel.
Proof.
  intros Hsame (dirs & name & -> & -> & Hfile & Hkeep & Hdirs).
  exists dirs, name. repeat split; try done. rewrite Hsame; [done|]. by apply prefix_app_r.
Qed.

Lemma zip_open_run zip_filepath w members w' :
  zip_open zip_filepath w = (Ok members, w') →
  members = [] ∧ stat (fs w) zip_filepath ≠ Some KDir ∧
  stat (fs w') zip_filepath = Some (KFile (zip_bytes [])) ∧
  (∀ q, q ≠ zip_filepath → stat (fs w') q = stat (fs w) q).
Proof.
  unfold zip_open. intros ([] & w1 & Hwrite & [= <- <-])%bind_ok.
  rewrite on_fs_run in Hwrite. injection Hwrite as Hok <-. cbn [fs].
  destruct (write_file _ _ (fs w)) as [r t1] eqn:Hw. cbn [fst snd] in *. subst r.
  split; [done|]. split; [|split; [by eapply write_file_ok|by eapply write_file_exact]].
  intros Hdir. revert Hw. unfold write_file. by rewrite Hdir.
Qed.

(** The members of the client archive. *)
Lemma zip_client_side_members addon_package_dir current_dir w w' :
  let client_dir := current_dir ++ ["client"] in
  let zip_filepath := addon_package_dir ++ ["private"; "client.zip"] in
  ¬ client_dir `prefix_of` zip_filepath →
  stat (fs w) client_dir = Some KDir →
  zip_client_side addon_package_dir current_dir w = (Ok tt, w') →
  ∃ found members,
    (∀ p rel, (p, rel) ∈ found ↔
       selected (fs w) IGNORE_FILE_PATTERNS IGNORE_DIR_PATTERNS client_dir p rel) ∧
    NoDup found.*1 ∧
    Forall2 (λ x member, member.1 = x.2 ∧ stat (fs w) x.1 = Some (KFile member.2))
            found members ∧
    stat (fs w') zip_filepath = Some (KFile (zip_bytes members)) ∧
    (∀ q, ¬ q `prefix_of` addon_package_dir ++ ["private"] → q ≠ zip_filepath →
          stat (fs w') q = stat (fs w) q).
Proof.
  intros client_dir zip_filepath Hout Hclient. unfold zip_client_side. fold client_dir.
  assert ((addon_package_dir ++ ["private"]) ++ ["client.zip"] = zip_filepath) as ->.
  { unfold zip_filepath. by rewrite <-app_assoc. }
  intros (is_dir & w0 & [= <- <-] & Hrun)%bind_ok.
  rewrite (proj2 (isdir_stat _ _) Hclient) in Hrun. cbn [negb] in Hrun.
  apply bind_ok in Hrun as (present & w0 & [= <- <-] & Hrun).
  apply bind_ok in Hrun as ([] & w1 & Hmk & Hrun).
  apply bind_ok in Hrun as (zipf & w2 & Hopen & Hrun).
  apply bind_ok in Hrun as (found & w3 & Hfound & Hrun).
  apply bind_ok in Hrun as (members & w4 & Hloop & [= <-]).
  apply find_files_in_subdir_ok in Hfound as (-> & Hclient2 & Hsel & Hnodup).
  cbn [default] in Hsel.
  apply zip_open_run in Hopen as (-> & Hnodir & Hzip2 & Hexact2).
  assert (unchanged_off (λ q, q `prefix_of` addon_package_dir ++ ["private"]) (fs w) (fs w1))
    as Hfr1.
  { eapply (frames_when _ _ _ (frames_on_fs _ _ (os_makedirs_frame _))). exact Hmk. }
  (* the client directory is out of the way of both *)
  assert (∀ q, client_dir `prefix_of` q → q ≠ zip_filepath ∧ stat (fs w2) q = stat (fs w) q)
    as Hsame.
  { intros q Hq.
    assert (¬ q `prefix_of` addon_package_dir ++ ["private"]) as Hq1.
    { intros Hpre. apply Hout. etrans; [exact Hq|]. etrans; [exact Hpre|].
      unfold zip_filepath. apply prefix_app, prefix_cons, prefix_nil. }
    assert (q ≠ zip_filepath) as Hq2 by (intros ->; done).
    split; [done|]. rewrite Hexact2 by done. by apply Hfr1. }
  assert (∀ p rel, (p, rel) ∈ found → client_dir `prefix_of` p) as Hbelow.
  { intros p rel (dirs & name & -> & _)%Hsel. by apply prefix_app_r. }
  destruct (zip_write_loop fst snd zip_filepath found [] w2 members w4)
    as (added & -> & Hadded & Hzip4 & Hexact4).
  { rewrite <-Hloop. apply foldM_ext. by intros s [p rel] w5. }
  { intros [p rel] Hin. by apply (Hsame p), (Hbelow p rel). }
  { done. }
  exists found, added. split; [|split; [done|split; [|split; [done|]]]].
  - intros p rel. rewrite Hsel. split; apply selected_same_files; intros q Hq;
      unfold isfile; by rewrite (proj2 (Hsame q Hq)).
  - eapply Forall2_impl_elem; [exact Hadded|]. cbn beta.
    intros [p rel] m Hin (k & Hk & ->). cbn [fst snd] in *.
    apply Hsel in Hin as Hfile. destruct Hfile as (dirs & name & Hp & _ & Hfile & _).
    apply isfile_stat in Hfile as [d Hd]. rewrite Hd in Hk. injection Hk as <-.
    split; [done|]. cbn [member_of snd]. rewrite <-Hd. symmetry.
    apply (Hsame p). rewrite Hp. by apply prefix_app_r.
  - intros q Hq1 Hq2. rewrite Hexact4, Hexact2 by done. by apply Hfr1.
Qed.

(** X13: when the checkout has a client directory, [zip_client_side]
    leaves in [private/client.zip] exactly the files of that directory that
    the default patterns do not exclude: one member per selected file, under
    the file's path relative to the client directory and with the file's
    bytes.  (The archive must not lie inside the client
    directory itself.)  Apart from the archive and the directories leading
    to it nothing on disk changes. *)
Theorem zip_client_side_archives_selected_files addon_package_dir current_dir w w' :
  let client_dir := current_dir ++ ["client"] in
  let zip_filepath := addon_package_dir ++ ["private"; "client.zip"] in
  ¬ client_dir `prefix_of` zip_filepath →
  stat (fs w) client_dir = Some KDir →
  zip_client_side addon_package_dir current_dir w = (Ok tt, w') →
  ∃ found members,
    (∀ p rel, (p, rel) ∈ found ↔
       selected (fs w) IGNORE_FILE_PATTERNS IGNORE_DIR_PATTERNS client_dir p rel) ∧
    NoDup found.*1 ∧
    Forall2 (λ x member, member.1 = x.2 ∧ stat (fs w) x.1 = Some (KFile member.2))
            found members ∧
    stat (fs w') zip_filepath = Some (KFile (zip_bytes members)) ∧
    (∀ q, ¬ q `prefix_of` addon_package_dir ++ ["private"] → q ≠ zip_filepath →
          stat (fs w') q = stat (fs w) q).
Proof. apply zip_client_side_members. Qed.

(** ** [os.walk] *)

(** The directories below the entries of a directory, entry by entry; a
    name that has been seen shadows its later entries. *)
Definition walk_entries (top : path)
    : list string → entries → list (path * list string * list string) :=
  fix sub seen es' :=
    match es' with
    | [] => []
    | (n, c) :: es'' =>
        (if bool_decide (n ∈ seen) then [] else walk_node (top ++ [n]) c)
          ++ sub (n :: seen) es''
    end.

(** What [os.walk] yields for a directory with the entries [es]. *)
Definition walk_item (root : path) (es : entries) : path * list string * list string :=
  (root, filter (λ n, child_is_dir es n) (names es),
         filter (λ n, ¬ child_is_dir es n) (names es)).

Lemma walk_node_dir top es :
  walk_node top (Dir es) = walk_item top es :: walk_entries top [] es.
Proof. done. Qed.

Lemma walk_entries_elem top seen es x :
  x ∈ walk_entries top seen es ↔
  ∃ m c, entry_get m es = Some c ∧ (m ∉ seen) ∧ x ∈ walk_node (top ++ [m]) c.
Proof.
  revert seen. induction es as [|[n c0] es IH]; intros seen.
  { split; [by intros ?%elem_of_nil|by intros (m & c & ? & _)]. }
  cbn [walk_entries entry_get]. rewrite elem_of_app, IH. split.
  - intros [Hhere|(m & c & Hget & Hseen & Hx)].
    + case_bool_decide as Hn; [by apply elem_of_nil in Hhere|].
      exists n, c0. by rewrite decide_True.
    + apply not_elem_of_cons in Hseen as [Hne Hseen].
      exists m, c. by rewrite decide_False.
  - intros (m & c & Hget & Hseen & Hx). destruct (decide (n = m)) as [->|Hne].
    + injection Hget as ->. left. by rewrite bool_decide_false.
    + right. exists m, c. split; [done|]. split; [|done].
      apply not_elem_of_cons. by split.
Qed.

Lemma elem_size_lt (n : string) (c : node) (es : entries) :
  (n, c) ∈ es → node_size c < node_size (Dir es).
Proof.
  intros Hin. cbn [node_size].
  induction es as [|[m c'] es IH]; [by apply elem_of_nil in Hin|].
  apply elem_of_cons in Hin as [[= <- <-]|Hin]; simpl; [lia|].
  specialize (IH Hin). lia.
Qed.

Lemma entry_get_elem n c es : entry_get n es = Some c → (n, c) ∈ es.
Proof.
  induction es as [|[m c'] es IH]; [done|]. simpl.
  destruct (decide (m = n)) as [->|]; [intros [= ->]; by left|]. intros ?%IH. by right.
Qed.

(** [os.walk] yields the directories at and below its top, each with the
    names it holds. *)
Lemma walk_node_elem t top x :
  x ∈ walk_node top t ↔ ∃ k es, x = walk_item (top ++ k) es ∧ resolve t k = Some (Dir es).
Proof.
  split.
  - remember (node_size t) as sz eqn:Hsz. revert t top x Hsz.
    induction (lt_wf sz) as [sz _ IH]. intros t top x ->.
    destruct t as [d|es]; [by intros ?%elem_of_nil|].
    rewrite walk_node_dir. intros [->|Hin]%elem_of_cons.
    + exists [], es. by rewrite app_nil_r.
    + apply walk_entries_elem in Hin as (m & c & Hget & _ & Hx).
      apply (IH (node_size c)) in Hx as (k & es' & -> & Hres);
        [|by apply (elem_size_lt m), entry_get_elem|done].
      exists (m :: k), es'. rewrite <-app_assoc. split; [done|]. simpl. by rewrite Hget.
  - intros (k & es & -> & Hres). revert t top Hres.
    induction k as [|m k IH]; intros t top Hres.
    + injection Hres as ->. rewrite app_nil_r, walk_node_dir. by left.
    + destruct t as [d|es0]; [done|]. simpl in Hres.
      destruct (entry_get m es0) as [c|] eqn:Hget; [|done]. simpl in Hres.
      rewrite walk_node_dir. right. apply walk_entries_elem.
      exists m, c. split; [done|]. split; [apply not_elem_of_nil|].
      specialize (IH c (top ++ [m]) Hres). by rewrite <-app_assoc in IH.
Qed.

Definition root_of (x : path * list string * list string) : path := x.1.1.

Lemma walk_node_root_below top t root :
  root ∈ root_of <$> walk_node top t → top `prefix_of` root.
Proof.
  intros (x & -> & (k & es & -> & _)%walk_node_elem)%list_elem_of_fmap.
  by apply prefix_app_r.
Qed.

Lemma walk_entries_root_below top seen es root :
  root ∈ root_of <$> walk_entries top seen es →
  ∃ m, (m ∉ seen) ∧ (top ++ [m]) `prefix_of` root.
Proof.
  intros (x & -> & (m & c & _ & Hseen & Hx)%walk_entries_elem)%list_elem_of_fmap.
  exists m. split; [done|]. apply (walk_node_root_below _ c), list_elem_of_fmap. by exists x.
Qed.

Lemma walk_entries_nodup top seen es :
  (∀ n c, (n, c) ∈ es → ∀ top', NoDup (root_of <$> walk_node top' c)) →
  NoDup (root_of <$> walk_entries top seen es).
Proof.
  revert seen. induction es as [|[n c0] es IH]; intros seen Hsub; [constructor|].
  cbn [walk_entries]. rewrite fmap_app. apply NoDup_app. split; [|split].
  - case_bool_decide; [constructor|]. apply (Hsub n). by left.
  - intros root Hleft (m & Hseen & [k' Hm])%walk_entries_root_below.
    case_bool_decide; [by apply elem_of_nil in Hleft|].
    apply walk_node_root_below in Hleft as [k Hn].
    rewrite Hn, <-!app_assoc in Hm. apply app_inv_head in Hm. injection Hm as -> _.
    apply Hseen. by left.
  - apply IH. intros m c Hin. apply (Hsub m). by right.
Qed.

(** [os.walk] yields every directory once. *)
Lemma walk_node_nodup top t : NoDup (root_of <$> walk_node top t).
Proof.
  remember (node_size t) as sz eqn:Hsz. revert t top Hsz.
  induction (lt_wf sz) as [sz _ IH]. intros t top ->.
  destruct t as [d|es]; [constructor|].
  rewrite walk_node_dir, fmap_cons. apply NoDup_cons. split.
  - intros (m & _ & Hpre%prefix_length)%walk_entries_root_below.
    cbn [root_of walk_item fst] in Hpre. rewrite length_app in Hpre. simpl in Hpre. lia.
  - apply walk_entries_nodup. intros n c Hin top'.
    by apply (IH (node_size c) (elem_size_lt n c es Hin) c top').
Qed.

(** The regular files of a directory, as [os.walk] names them. *)
Lemma walk_item_files t root es f :
  resolve t root = Some (Dir es) →
  f ∈ (walk_item root es).2 ↔ isfile t (root ++ [f]) = true.
Proof.
  intros Hroot. cbn [walk_item snd]. rewrite list_elem_of_filter, elem_of_names.
  unfold child_is_dir, isfile, stat. rewrite resolve_app, Hroot. simpl.
  destruct (entry_get f es) as [[d|es']|]; simpl.
  - split; [done|]. intros _. split; [by intros []|by eexists].
  - split; [|done]. intros [Hdir _]. by destruct Hdir.
  - split; [|done]. by intros [_ [? ?]].
Qed.

(** ** The members of the distributable archive *)

(** Lines 358 to 365: the archive name of the file [filename] of the
    directory [root]. *)
Definition dst_path_of (addon_output_dir root : path) (filename : string) : string :=
  let dst_root :=
    if decide (root ≠ addon_output_dir)
    then Some (sep_join os_sep (drop (length addon_output_dir) root))
    else None in
  match dst_root with
  | Some r => if decide (r = "") then filename else sep_join os_sep [r; filename]
  | None => filename
  end.

(** The same, from the directories between the version directory and the
    file. *)
Definition archive_name (dirs : list string) (filename : string) : string :=
  if decide (sep_join os_sep dirs = "") then filename
  else sep_join os_sep [sep_join os_sep dirs; filename].

Lemma dst_path_of_below addon_output_dir dirs filename :
  dst_path_of addon_output_dir (addon_output_dir ++ dirs) filename = archive_name dirs filename.
Proof.
  unfold dst_path_of, archive_name. rewrite drop_app_length.
  case_decide as Hroot; [done|].
  rewrite <-(app_nil_r addon_output_dir) in Hroot at 2. apply app_inv_head in Hroot as ->.
  done.
Qed.

(** Where nothing has an empty name, the archive name is the relative path
    of the file. *)
Lemma string_app_assoc (a b c : string) : (a +:+ b) +:+ c = a +:+ b +:+ c.
Proof.
  induction a as [|x a IH]; [reflexivity|].
  change (String x ((a +:+ b) +:+ c) = String x (a +:+ b +:+ c)). by rewrite IH.
Qed.

Lemma concat_cons_cons sep (d d' : string) l :
  String.concat sep (d :: d' :: l) = d +:+ sep +:+ String.concat sep (d' :: l).
Proof. done. Qed.

Lemma concat_snoc sep dirs filename :
  dirs ≠ [] →
  String.concat sep (dirs ++ [filename]) = String.concat sep dirs +:+ sep +:+ filename.
Proof.
  intros Hdirs. induction dirs as [|d dirs IH]; [done|].
  destruct dirs as [|d' dirs]; [done|].
  change ((d :: d' :: dirs) ++ [filename]) with (d :: d' :: (dirs ++ [filename])).
  rewrite !concat_cons_cons.
  change (d' :: dirs ++ [filename]) with ((d' :: dirs) ++ [filename]).
  rewrite IH by done. by rewrite !string_app_assoc.
Qed.

Lemma sep_join_snoc dirs filename :
  dirs ≠ [] → sep_join os_sep [sep_join os_sep dirs; filename]
              = sep_join os_sep (dirs ++ [filename]).
Proof. intros Hdirs. unfold sep_join. by rewrite concat_snoc. Qed.

Lemma archive_name_relative dirs filename :
  Forall (λ d, d ≠ "") dirs →
  archive_name dirs filename = sep_join os_sep (dirs ++ [filename]).
Proof.
  intros Hdirs. unfold archive_name. destruct dirs as [|d dirs]; [done|].
  rewrite decide_False; [by apply sep_join_snoc|].
  apply Forall_cons in Hdirs as [Hd _]. unfold sep_join.
  destruct dirs; simpl; [done|]. by destruct d.
Qed.

(** The sources and archive names of the walk, in its order. *)
Definition walk_sources (addon_output_dir : path)
    (walked : list (path * list string * list string)) : list (path * string) :=
  x ← walked;
  (λ filename, (x.1.1 ++ [filename], dst_path_of addon_output_dir x.1.1 filename)) <$> x.2.

Lemma foldM_fmap {A B S} (f : A → B) (body : S → B → M S) l s w :
  foldM body (f <$> l) s w = foldM (λ s x, body s (f x)) l s w.
Proof.
  revert s w. induction l as [|x l IH]; intros s w; [done|].
  cbn [foldM fmap list_fmap]. rewrite !bind_run.
  destruct (body s (f x) w) as [[s'|e] w1]; [apply IH|done].
Qed.

Lemma create_loop_flat output_path addon_output_dir walked zipf w :
  foldM (λ zipf '(root, _, filenames),
           match filenames with
           | [] => mret zipf
           | _ =>
               let dst_root :=
                 if decide (root ≠ addon_output_dir)
                 then Some (sep_join os_sep (drop (length addon_output_dir) root))
                 else None in
               foldM (λ zipf filename,
                        let src_path := root ++ [filename] in
                        let dst_path :=
                          match dst_root with
                          | Some r => if decide (r = "") then filename
                                      else sep_join os_sep [r; filename]
                          | None => filename
                          end in
                        zip_write output_path zipf src_path dst_path)
                     filenames zipf
           end)
        walked zipf w
  = foldM (λ zipf x, zip_write output_path zipf x.1 x.2)
          (walk_sources addon_output_dir walked) zipf w.
Proof.
  revert zipf w. induction walked as [|[[root dirs] filenames] walked IH]; intros zipf w;
    [done|].
  unfold walk_sources. cbn [foldM mbind list_bind fst snd].
  rewrite foldM_app, !bind_run, foldM_fmap. cbn [fst snd].
  destruct filenames as [|f filenames].
  - cbn [foldM]. apply IH.
  - unfold dst_path_of at 1.
    destruct (foldM _ (f :: filenames) zipf w) as [[zipf'|e] w1]; [apply IH|done].
Qed.

Lemma os_walk_elem t top x :
  x ∈ os_walk t top ↔
  ∃ k es, x = walk_item (top ++ k) es ∧ resolve t (top ++ k) = Some (Dir es).
Proof.
  unfold os_walk. destruct (resolve t top) as [c|] eqn:Htop.
  - rewrite walk_node_elem. split; intros (k & es & -> & Hres); exists k, es; (split; [done|]).
    + by rewrite resolve_app, Htop.
    + by rewrite resolve_app, Htop in Hres.
  - split; [by intros ?%elem_of_nil|]. intros (k & es & _ & Hres).
    by rewrite resolve_app, Htop in Hres.
Qed.

Lemma os_walk_nodup t top : NoDup (os_walk t top).
Proof.
  unfold os_walk. destruct (resolve t top) as [c|]; [|constructor].
  eapply NoDup_fmap_1, walk_node_nodup.
Qed.

(** The walk names every regular file below the version directory, with the
    archive name the loop gives it. *)
Lemma walk_sources_elem t addon_output_dir src arc :
  (src, arc) ∈ walk_sources addon_output_dir (os_walk t addon_output_dir) ↔
  ∃ dirs filename,
    src = addon_output_dir ++ dirs ++ [filename] ∧
    isfile t src = true ∧
    arc = archive_name dirs filename.
Proof.
  unfold walk_sources. rewrite list_elem_of_bind. split.
  - intros (x & (f & [= -> ->] & Hf)%list_elem_of_fmap & (k & es & -> & Hres)%os_walk_elem).
    cbn [walk_item fst] in *. exists k, f. rewrite <-app_assoc.
    split; [done|]. split; [|apply dst_path_of_below].
    rewrite app_assoc. by apply (walk_item_files t _ es).
  - intros (dirs & f & -> & Hfile & ->).
    assert (∃ es, resolve t (addon_output_dir ++ dirs) = Some (Dir es)) as [es Hres].
    { apply stat_resolve_dir. apply isfile_stat in Hfile as [d Hd].
      rewrite app_assoc in Hd. apply (stat_below_dir _ _ [f]); [by rewrite Hd|done]. }
    exists (walk_item (addon_output_dir ++ dirs) es). split.
    + apply list_elem_of_fmap. exists f. cbn [walk_item fst].
      split; [by rewrite dst_path_of_below, <-app_assoc|].
      apply (walk_item_files t _ es f Hres). by rewrite <-app_assoc.
    + apply os_walk_elem. by exists dirs, es.
Qed.

Lemma walk_sources_nodup t addon_output_dir :
  NoDup (walk_sources addon_output_dir (os_walk t addon_output_dir)).*1.
Proof.
  unfold walk_sources.
  assert (∀ walked : list (path * list string * list string),
            (walked ≫= λ x, (λ filename, (x.1.1 ++ [filename],
                                           dst_path_of addon_output_dir x.1.1 filename))
                             <$> x.2).*1
            = walked ≫= λ x, (λ filename, x.1.1 ++ [filename]) <$> x.2) as ->.
  { intros walked. induction walked as [|x walked IH]; [done|].
    cbn [mbind list_bind]. rewrite fmap_app, IH. f_equal.
    rewrite <-list_fmap_compose. done. }
  apply NoDup_bind; [| |apply os_walk_nodup].
  - intros x1 x2 y (k1 & es1 & -> & Hres1)%os_walk_elem (k2 & es2 & -> & Hres2)%os_walk_elem.
    cbn [walk_item fst snd].
    intros (f1 & -> & _)%list_elem_of_fmap (f2 & Heq & _)%list_elem_of_fmap.
    apply app_inj_tail in Heq as [Heq _]. rewrite Heq in Hres1. congruence.
  - intros x (k & es & -> & _)%os_walk_elem.
    apply NoDup_fmap_2; [by intros f1 f2 [_ ?]%app_inj_tail|].
    cbn [walk_item snd]. apply NoDup_filter, NoDup_names.
Qed.

(** The members of the distributable archive. *)
Lemma create_server_package_members
    current_dir output_dir addon_output_dir addon_version w w' :
  let output_path := output_dir ++ [package_filename addon_version] in
  let manifest := current_dir ++ ["package.py"] in
  ¬ addon_output_dir `prefix_of` output_path →
  manifest ≠ output_path →
  create_server_package current_dir output_dir addon_output_dir addon_version w = (Ok tt, w') →
  ∃ k files members,
    stat (fs w) manifest = Some k ∧
    stat (fs w') output_path
    = Some (KFile (zip_bytes (member_of k "package.py" :: members))) ∧
    (∀ src arc, (src, arc) ∈ files ↔
       ∃ dirs filename,
         src = addon_output_dir ++ dirs ++ [filename] ∧
         isfile (fs w) src = true ∧
         arc = archive_name dirs filename) ∧
    NoDup files.*1 ∧
    Forall2 (λ x member, member.1 = x.2 ∧ stat (fs w) x.1 = Some (KFile member.2))
            files members ∧
    (∀ q, q ≠ output_path → stat (fs w') q = stat (fs w) q).
Proof.
  intros output_path manifest Hout Hmanifest. unfold create_server_package.
  fold output_path manifest.
  intros (zipf0 & w1 & Hopen & Hrun)%bind_ok.
  apply bind_ok in Hrun as (zipf1 & w2 & Hfirst & Hrun).
  apply bind_ok in Hrun as (walked & w3 & [= <- <-] & Hrun).
  apply bind_ok in Hrun as (zipf2 & w4 & Hloop & [= <-]).
  apply zip_open_run in Hopen as (-> & _ & Hzip1 & Hexact1).
  apply zip_write_ok in Hfirst as (k & Hk & -> & Hzip2 & Hexact2).
  rewrite Hexact1 in Hk by done. cbn [app] in *.
  set (files := walk_sources addon_output_dir (os_walk (fs w2) addon_output_dir)) in *.
  assert (∀ q, q ≠ output_path → stat (fs w2) q = stat (fs w) q) as Hexact.
  { intros q Hq. by rewrite Hexact2, Hexact1. }
  assert (∀ src arc, (src, arc) ∈ files → src ≠ output_path) as Hsrc.
  { intros src arc (dirs & f & -> & _)%walk_sources_elem Heq.
    apply Hout. rewrite <-Heq. by apply prefix_app_r. }
  rewrite create_loop_flat in Hloop. fold files in Hloop.
  destruct (zip_write_loop fst snd output_path files _ w2 zipf2 w4 Hloop)
    as (added & -> & Hadded & Hzip4 & Hexact4).
  { intros [src arc] Hin. by apply (Hsrc src arc). }
  { done. }
  exists k, files, added. split; [done|]. split; [done|]. split; [|split; [|split]].
  - intros src arc. unfold files. rewrite walk_sources_elem.
    split; intros (dirs & f & -> & Hfile & ->); exists dirs, f; (split; [done|]);
      (split; [|done]); revert Hfile; unfold isfile; rewrite Hexact; try done;
      intros Heq; apply Hout; rewrite <-Heq; by apply prefix_app_r.
  - apply walk_sources_nodup.
  - eapply Forall2_impl_elem; [exact Hadded|]. cbn beta.
    intros [src arc] m Hin (k' & Hk' & ->). cbn [fst snd] in *.
    pose proof (Hsrc src arc Hin) as Hne.
    apply walk_sources_elem in Hin as (dirs & f & -> & [d Hd]%isfile_stat & ->).
    rewrite Hd in Hk'. injection Hk' as <-. cbn [member_of fst snd].
    split; [done|]. by rewrite <-Hexact.
  - intros q Hq. rewrite Hexact4 by done. by apply Hexact.
Qed.

(** X14: [create_server_package] leaves in [{name}-{version}.zip] the
    manifest [package.py] as first member and then every regular file below
    the version directory, each once, with its bytes, under the name lines
    358 to 365 give it: the file's name for a file directly in the version
    directory, otherwise the relative directory joined with the file's name.
    (The archive must not lie inside the version directory, nor be
    [package.py] itself.)  No path but the archive changes. *)
Theorem create_server_package_archives_version_dir
    current_dir output_dir addon_output_dir addon_version w w' :
  let output_path := output_dir ++ [package_filename addon_version] in
  let manifest := current_dir ++ ["package.py"] in
  ¬ addon_output_dir `prefix_of` output_path →
  manifest ≠ output_path →
  create_server_package current_dir output_dir addon_output_dir addon_version w = (Ok tt, w') →
  ∃ k files members,
    stat (fs w) manifest = Some k ∧
    stat (fs w') output_path
    = Some (KFile (zip_bytes (member_of k "package.py" :: members))) ∧
    (∀ src arc, (src, arc) ∈ files ↔
       ∃ dirs filename,
         src = addon_output_dir ++ dirs ++ [filename] ∧
         isfile (fs w) src = true ∧
         arc = archive_name dirs filename) ∧
    NoDup files.*1 ∧
    Forall2 (λ x member, member.1 = x.2 ∧ stat (fs w) x.1 = Some (KFile member.2))
            files members ∧
    (∀ q, q ≠ output_path → stat (fs w') q = stat (fs w) q).
Proof. apply create_server_package_members. Qed.

(** ** [copy_server_content] into a fresh output *)

(** *** Relative paths as strings

    The walker hands a relative path on as one string, joined with the
    separator; [os.path.join] with the output directory takes it apart
    again.  That is sound where names are what a file system allows: not
    empty and free of the separator. *)
Fixpoint no_sep (s : string) : bool :=
  match s with
  | EmptyString => true
  | String c s' => negb (Ascii.eqb c os_sep) && no_sep s'
  end.

Definition name_ok (n : string) : bool := negb (bool_decide (n = "")) && no_sep n.

Fixpoint names_ok (t : node) : bool :=
  match t with
  | File _ => true
  | Dir es => forallb (λ e, name_ok e.1 && names_ok e.2) es
  end.

Lemma string_app_cons c (s s' : string) : String c s +:+ s' = String c (s +:+ s').
Proof. done. Qed.

Lemma string_app_nil_r (s : string) : s +:+ "" = s.
Proof. induction s as [|a s IH]; [done|]. by rewrite string_app_cons, IH. Qed.

Lemma split_on_no_sep acc s :
  no_sep s = true → split_on os_sep acc s = [acc +:+ s].
Proof.
  revert acc. induction s as [|c s IH]; intros acc Hs; simpl.
  - by rewrite string_app_nil_r.
  - simpl in Hs. apply andb_true_iff in Hs as [Hc Hs].
    destruct (Ascii.eqb c os_sep); [done|]. rewrite IH by done.
    by rewrite string_app_assoc.
Qed.

Lemma split_on_sep acc s rest :
  no_sep s = true →
  split_on os_sep acc (s +:+ String os_sep rest) = (acc +:+ s) :: split_on os_sep "" rest.
Proof.
  revert acc. induction s as [|c s IH]; intros acc Hs.
  - change ("" +:+ String os_sep rest) with (String os_sep rest). simpl.
    rewrite Ascii.eqb_refl. by rewrite string_app_nil_r.
  - simpl in Hs. apply andb_true_iff in Hs as [Hc Hs].
    rewrite string_app_cons. simpl. destruct (Ascii.eqb c os_sep); [done|].
    rewrite IH by done. by rewrite string_app_assoc.
Qed.

(** Joining names and splitting the result gives the names back. *)
Lemma components_join items :
  Forall (λ n, name_ok n = true) items →
  components os_sep (sep_join os_sep items) = items.
Proof.
  unfold components, sep_join, str_split. intros Hitems.
  induction Hitems as [|n items Hn Hitems IH]; [done|].
  apply andb_true_iff in Hn as [Hne Hn]. apply negb_true_iff, bool_decide_eq_false in Hne.
  destruct items as [|m items].
  - cbn [String.concat]. rewrite split_on_no_sep by done.
    change ("" +:+ n) with n. by rewrite filter_cons_True, filter_nil.
  - rewrite concat_cons_cons.
    change (String os_sep "" +:+ String.concat (String os_sep "") (m :: items))
      with (String os_sep (String.concat (String os_sep "") (m :: items))).
    rewrite split_on_sep by done. change ("" +:+ n) with n.
    by rewrite filter_cons_True, IH.
Qed.

Lemma names_ok_entry n c es :
  names_ok (Dir es) = true → entry_get n es = Some c → name_ok n = true ∧ names_ok c = true.
Proof.
  intros Hok Hget%entry_get_elem. cbn [names_ok] in Hok.
  rewrite forallb_forall in Hok. apply list_elem_of_In, Hok in Hget.
  by apply andb_true_iff in Hget.
Qed.

Lemma names_ok_resolve c k c' :
  names_ok c = true → resolve c k = Some c' → Forall (λ n, name_ok n = true) k.
Proof.
  revert c. induction k as [|n k IH]; intros c Hok Hres; [constructor|].
  destruct c as [d|es]; [done|]. simpl in Hres.
  destruct (entry_get n es) as [c1|] eqn:Hget; [|done]. simpl in Hres.
  destruct (names_ok_entry n c1 es Hok Hget) as [Hn Hc1].
  constructor; [done|]. by apply (IH c1).
Qed.

(** *** The copy loop

    While the files are copied one after the other, the disk below the
    destination [dest] holds the files copied so far ([copied], as paths
    relative to the root) and the directories leading to them, and nothing
    else; off [dest] it is as it was at the start ([T0]). *)
Lemma find_files_in_subdir_returns src_path igf igd w :
  stat (fs w) src_path = Some KDir →
  ∃ output, find_files_in_subdir src_path igf igd w = (Ok output, w).
Proof.
  intros Hsrc. unfold find_files_in_subdir.
  destruct (walk_queue_correct (fs w) (default IGNORE_FILE_PATTERNS igf)
              (default IGNORE_DIR_PATTERNS igd) src_path (S (node_size (fs w)))
              [(src_path, [])] []) as (output & -> & _);
    [by apply walk_inv_start| |by eexists].
  unfold weight, size_at. cbn [sum_list_with fst].
  destruct (resolve (fs w) src_path) as [c|] eqn:Hc; simpl; [|lia].
  apply resolve_size_le in Hc. lia.
Qed.

Lemma file_no_children t p k d :
  stat t p = Some (KFile d) → is_Some (stat t (p ++ k)) → k = [].
Proof.
  intros Hp [x Hx]. destruct k as [|n k]; [done|].
  rewrite below_non_dir in Hx; [done| |done]. by rewrite Hp.
Qed.

Lemma fresh_not_above t dest p :
  stat t dest = None → is_Some (stat t p) → ¬ dest `prefix_of` p.
Proof.
  intros Hdest Hp [k ->]. destruct k as [|n k].
  - rewrite app_nil_r, Hdest in Hp. by destruct Hp.
  - apply stat_below_dir in Hp; [|done]. by rewrite Hdest in Hp.
Qed.

Definition mirror_inv (T0 : node) (dest srv : path) (copied : list path) (t : node) : Prop :=
  (∀ q, ¬ dest `prefix_of` q → stat t q = stat T0 q) ∧
  (∀ ks, ks ∈ copied → stat t (dest ++ ks) = stat T0 (srv ++ ks)) ∧
  (∀ k, is_Some (stat t (dest ++ k)) → ∃ ks, ks ∈ copied ∧ k `prefix_of` ks).

Section Mirror.

Variable T0 : node.
Variables dest srv : path.
Hypothesis Habove : ∀ q, q `prefix_of` dest → q ≠ dest → stat T0 q = Some KDir.
Hypothesis Hfresh : stat T0 dest = None.

Lemma mirror_step copied dirs name d w :
  (∀ ks, ks ∈ copied → ∃ d', stat T0 (srv ++ ks) = Some (KFile d')) →
  stat T0 (srv ++ dirs ++ [name]) = Some (KFile d) →
  mirror_inv T0 dest srv copied (fs w) →
  ∃ w', safe_copy_file (srv ++ dirs ++ [name]) (dest ++ dirs ++ [name]) w = (Ok tt, w') ∧
        mirror_inv T0 dest srv (copied ++ [dirs ++ [name]]) (fs w') ∧
        fetched w' = fetched w.
Proof using Habove Hfresh.
  intros Hcopied Hsrc (Ha & Hb1 & Hb2).
  set (src := srv ++ dirs ++ [name]) in *. set (dst := dest ++ dirs ++ [name]).
  assert (parent dst = dest ++ dirs) as Hparent.
  { unfold dst. rewrite app_assoc. apply parent_snoc. }
  assert (¬ dest `prefix_of` src) as Hapart.
  { apply fresh_not_above with T0; [done|]. by rewrite Hsrc. }
  assert (∀ ks, ks ∈ copied → (dirs ++ [name]) `prefix_of` ks → ks = dirs ++ [name]) as Hlonger.
  { intros ks Hks [k2 ->]. rewrite (file_no_children T0 src k2 d), app_nil_r; [done..|].
    destruct (Hcopied _ Hks) as [d' Hd']. unfold src. rewrite <-!app_assoc.
    rewrite <-app_assoc in Hd'. by rewrite Hd'. }
  assert (∀ ks, ks ∈ copied → ¬ ks `prefix_of` dirs) as Hnested.
  { intros ks Hks [k2 ->]. destruct (Hcopied _ Hks) as [d' Hd'].
    assert (k2 ++ [name] = []) as Hnil; [|by destruct k2].
    apply (file_no_children T0 (srv ++ ks) _ d'); [done|].
    unfold src in Hsrc. rewrite <-!app_assoc in Hsrc. rewrite <-!app_assoc. by rewrite Hsrc. }
  assert (∀ k dk, stat (fs w) (dest ++ k) = Some (KFile dk) → k ∈ copied) as Hfiles.
  { intros k dk Hk. destruct (Hb2 k) as (ks & Hks & [k2 ->]); [by rewrite Hk|].
    destruct (Hcopied _ Hks) as [d' Hd']. rewrite <-(Hb1 _ Hks) in Hd'.
    rewrite (file_no_children (fs w) (dest ++ k) k2 dk) in Hks; [|done|].
    - by rewrite app_nil_r in Hks.
    - rewrite <-app_assoc. by rewrite Hd'. }
  destruct (safe_copy_file_clear src dst w d) as (w' & Hrun & Hdst & Hdirs & Hfr & Hfetched).
  - intros Heq. apply Hapart. rewrite Heq. by apply prefix_app_r.
  - unfold dst. intros Heq. apply app_eq_nil in Heq as [_ Heq].
    by apply app_eq_nil in Heq as [_ ?].
  - apply stat_resolve_file. by rewrite Ha.
  - intros q dq Hq Hstat. rewrite Hparent in Hq.
    destruct (decide (dest `prefix_of` q)) as [[k ->]|Hno].
    + apply prefix_app_inv in Hq. apply Hfiles in Hstat. by apply (Hnested k).
    + rewrite Ha in Hstat by done.
      rewrite Habove in Hstat; [done| |by intros ->].
      destruct (prefix_weak_total _ _ _ Hq (prefix_app_r dest dest dirs (reflexivity _)));
        done.
  - intros Hs. unfold dst in Hs. destruct (Hb2 (dirs ++ [name])) as (ks & Hks & Hpre); [by rewrite Hs|].
    pose proof (Hlonger _ Hks Hpre) as ->.
    rewrite (Hb1 _ Hks) in Hs. fold src in Hs. by rewrite Hsrc in Hs.
  - assert (stat (fs w') (dest ++ dirs ++ [name]) = stat T0 (srv ++ dirs ++ [name])) as Hnew.
    { etrans; [exact Hdst|]. symmetry. exact Hsrc. }
    exists w'. split; [done|]. split; [|done]. split; [|split].
    + intros q Hq. destruct (decide (q `prefix_of` parent dst)) as [Hin|Hout].
      * rewrite (Hdirs _ Hin). symmetry. rewrite Hparent in Hin.
        apply Habove; [|by intros ->].
        destruct (prefix_weak_total _ _ _ Hin (prefix_app_r dest dest dirs (reflexivity _)));
          done.
      * rewrite Hfr; [by apply Ha|done|]. intros ->. apply Hq. by apply prefix_app_r.
    + intros ks [Hks| ->%list_elem_of_singleton]%elem_of_app; [|done].
      destruct (decide (ks = dirs ++ [name])) as [->|Hne]; [done|].
      rewrite Hfr; [by apply Hb1| |].
      * rewrite Hparent. intros Hpre%prefix_app_inv. by apply (Hnested ks).
      * unfold dst. by intros ?%app_inv_head.
    + intros k Hk. destruct (decide ((dest ++ k) `prefix_of` parent dst)) as [Hin|Hout].
      { exists (dirs ++ [name]). split; [apply elem_of_app; right; by left|].
        rewrite Hparent in Hin. apply prefix_app_inv in Hin. by apply prefix_app_r. }
      destruct (decide (k = dirs ++ [name])) as [->|Hne].
      { exists (dirs ++ [name]). split; [apply elem_of_app; right; by left|done]. }
      rewrite Hfr in Hk; [|done|unfold dst; by intros ?%app_inv_head].
      destruct (Hb2 k Hk) as (ks & Hks & Hpre). exists ks. split; [|done].
      apply elem_of_app. by left.
Qed.

Definition copy_item (x : path * string) : Prop :=
  ∃ dirs name d, x.1 = srv ++ dirs ++ [name] ∧ components os_sep x.2 = dirs ++ [name] ∧
                 stat T0 x.1 = Some (KFile d).

Lemma mirror_loop found copied w :
  Forall copy_item found →
  (∀ ks, ks ∈ copied → ∃ d', stat T0 (srv ++ ks) = Some (KFile d')) →
  mirror_inv T0 dest srv copied (fs w) →
  ∃ w', for_each (map (λ '(src_path, dst_subpath),
                         (src_path, dest ++ components os_sep dst_subpath)) found)
                 (λ '(src_path, dst_path), safe_copy_file src_path dst_path) w = (Ok tt, w') ∧
        mirror_inv T0 dest srv (copied ++ ((λ x, components os_sep x.2) <$> found)) (fs w') ∧
        fetched w' = fetched w.
Proof using Habove Hfresh.
  intros Hfound. revert copied w.
  induction Hfound as [|[p rel] found (dirs & name & d & Hp & Hrel & Hd) _ IH];
    intros copied w Hcopied Hinv.
  - exists w. by rewrite app_nil_r.
  - cbn [fst snd] in Hp, Hrel, Hd. subst p.
    destruct (mirror_step copied dirs name d w Hcopied Hd Hinv) as (w1 & Hrun & Hinv1 & Hf1).
    destruct (IH (copied ++ [dirs ++ [name]]) w1) as (w' & Hloop & Hinv' & Hf'); [|done|].
    { intros ks [Hks| ->%list_elem_of_singleton]%elem_of_app; [by apply Hcopied|by exists d]. }
    exists w'. split; [|split].
    + cbn [map for_each]. rewrite bind_run, Hrel, Hrun. exact Hloop.
    + cbn [fmap list_fmap snd]. rewrite Hrel.
      by rewrite <-app_assoc in Hinv'.
    + congruence.
Qed.

End Mirror.

(** Every path that exists below [root] is made of names a file system
    allows. *)
Definition names_below_ok (t : node) (root : path) : Prop :=
  ∀ k, is_Some (stat t (root ++ k)) → Forall (λ n, name_ok n = true) k.

Lemma names_ok_below t root c :
  resolve t root = Some c → names_ok c = true → names_below_ok t root.
Proof.
  intros Hroot Hok k [x Hx]. unfold stat in Hx. rewrite resolve_app, Hroot in Hx.
  cbn in Hx. destruct (resolve c k) as [c'|] eqn:Hc; [|done].
  by apply (names_ok_resolve c k c').
Qed.

(** The copy into an output directory without a [server] entry. *)
Lemma copy_server_content_fresh addon_output_dir current_dir w :
  stat (fs w) addon_output_dir = Some KDir →
  stat (fs w) (addon_output_dir ++ ["server"]) = None →
  stat (fs w) (current_dir ++ ["server"]) = Some KDir →
  names_below_ok (fs w) (current_dir ++ ["server"]) →
  ∃ w',
    copy_server_content addon_output_dir current_dir w = (Ok tt, w') ∧
    (∀ k d,
       stat (fs w') (addon_output_dir ++ ["server"] ++ k) = Some (KFile d) ↔
       stat (fs w) ((current_dir ++ ["server"]) ++ k) = Some (KFile d) ∧
       ∃ rel, selected (fs w) IGNORE_FILE_PATTERNS IGNORE_DIR_PATTERNS
                       (current_dir ++ ["server"]) ((current_dir ++ ["server"]) ++ k) rel) ∧
    (∀ k, stat (fs w') (addon_output_dir ++ ["server"] ++ k) = Some KDir →
          ∃ k' d, k' ≠ [] ∧
                  stat (fs w') (addon_output_dir ++ ["server"] ++ k ++ k') = Some (KFile d)) ∧
    (∀ q, ¬ (addon_output_dir ++ ["server"]) `prefix_of` q → stat (fs w') q = stat (fs w) q) ∧
    fetched w' = fetched w.
Proof.
  intros Hout Hfresh Hsrv Hnames.
  set (srv := current_dir ++ ["server"]) in *.
  set (dest := addon_output_dir ++ ["server"]) in *.
  assert (∀ q, q `prefix_of` dest → q ≠ dest → stat (fs w) q = Some KDir) as Habove.
  { intros q Hq Hne.
    destruct (prefix_app_cons_cases q addon_output_dir "server" [] Hq) as [[k ->]|Hge].
    - destruct k as [|n k]; [by rewrite app_nil_r in Hout|].
      apply (stat_below_dir _ _ (n :: k)); [by rewrite Hout|done].
    - destruct Hne. by apply (anti_symm prefix). }
  destruct (find_files_in_subdir_returns srv None None w) as [found Hfind]; [done|].
  destruct (find_files_in_subdir_ok _ _ _ _ _ _ Hfind) as (_ & _ & Hsel & _).
  cbn [default] in Hsel.
  assert (Forall (copy_item (fs w) srv) found) as Hitems.
  { apply Forall_forall. intros [p rel] (dirs & name & -> & -> & [d Hd]%isfile_stat & _)%Hsel.
    exists dirs, name, d. cbn [fst snd]. split; [done|]. split; [|done].
    apply components_join, Hnames. by rewrite Hd. }
  destruct (mirror_loop (fs w) dest srv Habove Hfresh found [] w Hitems)
    as (w' & Hloop & (Ha & Hb1 & Hb2) & Hf).
  { by intros ks ?%elem_of_nil. }
  { split; [done|]. split; [by intros ks ?%elem_of_nil|]. intros k Hk.
    destruct (fresh_not_above (fs w) dest (dest ++ k)); [done..|by apply prefix_app_r]. }
  rewrite app_nil_l in Hb1, Hb2.
  set (copied := (λ x : path * string, components os_sep x.2) <$> found) in *.
  assert (∀ ks, ks ∈ copied ↔
                ∃ d rel, stat (fs w) (srv ++ ks) = Some (KFile d) ∧
                         selected (fs w) IGNORE_FILE_PATTERNS IGNORE_DIR_PATTERNS srv
                                  (srv ++ ks) rel) as Hcopied.
  { intros ks. split.
    - intros ([p rel] & -> & Hin)%list_elem_of_fmap.
      rewrite Forall_forall in Hitems.
      destruct (Hitems _ Hin) as (dirs & name & d & Hp & Hrel & Hd).
      cbn [fst snd] in *. subst p. rewrite Hrel. exists d, rel. split; [done|].
      by apply Hsel.
    - intros (d & rel & Hd & Hin%Hsel). rewrite Forall_forall in Hitems.
      destruct (Hitems _ Hin) as (dirs & name & d' & Hp & Hrel & _).
      cbn [fst snd] in *. apply app_inv_head in Hp as ->. rewrite <-Hrel.
      apply list_elem_of_fmap. by exists (srv ++ dirs ++ [name], rel). }
  exists w'. split; [|split; [|split; [|split]]].
  - unfold copy_server_content. rewrite bind_run. fold srv. rewrite Hfind.
    rewrite <-Hloop. f_equal. apply map_ext. intros [p rel]. by rewrite app_assoc.
  - intros k d. rewrite (app_assoc addon_output_dir). fold dest. split.
    + intros Hk. destruct (Hb2 k) as (ks & Hks & [k2 ->]); [by rewrite Hk|].
      pose proof (Hb1 _ Hks) as Hsame.
      destruct (proj1 (Hcopied _) Hks) as (d' & rel & Hd' & Hrel).
      assert (k2 = []) as ->.
      { apply (file_no_children (fs w') (dest ++ k) k2 d); [done|].
        rewrite <-app_assoc, Hsame, Hd'. by eexists. }
      rewrite app_nil_r in Hsame, Hrel. split; [by rewrite <-Hsame|by exists rel].
    + intros (Hd & rel & Hrel). rewrite Hb1; [done|]. apply Hcopied. by exists d, rel.
  - intros k Hk. rewrite (app_assoc addon_output_dir) in Hk. fold dest in Hk.
    destruct (Hb2 k) as (ks & Hks & [k2 ->]); [by rewrite Hk|].
    pose proof (Hb1 _ Hks) as Hsame.
    destruct (proj1 (Hcopied _) Hks) as (d' & _ & Hd' & _). rewrite Hd' in Hsame.
    exists k2, d'. split.
    + intros ->. rewrite app_nil_r in Hsame. by rewrite Hsame in Hk.
    + rewrite (app_assoc addon_output_dir). exact Hsame.
  - exact Ha.
  - exact Hf.
Qed.

(** X15: [copy_server_content] into an output directory that holds no
    [server] entry yet succeeds and mirrors the selected files: where
    [<current_dir>/server] is a directory (with names a file system allows:
    not empty, without the separator) and the output directory exists,
    afterwards [<output>/server/<k>] is a regular file exactly when
    [<current_dir>/server/<k>] is one of the files the walker selects, and
    then it holds the same bytes; every directory below [<output>/server]
    leads to such a file (excluded and empty directories are not created);
    and nothing outside [<output>/server] has changed. *)
Theorem copy_server_content_mirrors_selected addon_output_dir current_dir es w :
  stat (fs w) addon_output_dir = Some KDir →
  stat (fs w) (addon_output_dir ++ ["server"]) = None →
  resolve (fs w) (current_dir ++ ["server"]) = Some (Dir es) →
  names_ok (Dir es) = true →
  ∃ w',
    copy_server_content addon_output_dir current_dir w = (Ok tt, w') ∧
    (∀ k d,
       stat (fs w') (addon_output_dir ++ ["server"] ++ k) = Some (KFile d) ↔
       stat (fs w) ((current_dir ++ ["server"]) ++ k) = Some (KFile d) ∧
       ∃ rel, selected (fs w) IGNORE_FILE_PATTERNS IGNORE_DIR_PATTERNS
                       (current_dir ++ ["server"]) ((current_dir ++ ["server"]) ++ k) rel) ∧
    (∀ k, stat (fs w') (addon_output_dir ++ ["server"] ++ k) = Some KDir →
          ∃ k' d, k' ≠ [] ∧
                  stat (fs w') (addon_output_dir ++ ["server"] ++ k ++ k') = Some (KFile d)) ∧
    (∀ q, ¬ (addon_output_dir ++ ["server"]) `prefix_of` q → stat (fs w') q = stat (fs w) q) ∧
    fetched w' = fetched w.
Proof.
  intros Hout Hfresh Hsrv Hnames. apply copy_server_content_fresh; [done|done| |].
  - apply stat_resolve_dir. by exists es.
  - by apply (names_ok_below _ _ (Dir es)).
Qed.

(** ** The download step, entry by entry *)

(** The download proper: fetch, then verify. *)
Definition fetch_and_verify (downloads_dir : path) (acc : list archive_record)
    (item : string * platform_info) : M (list archive_record) :=
  urlretrieve (url item.2) (zip_path_of downloads_dir item);;
  file_checksum ← calculate_file_checksum (zip_path_of downloads_dir item)
                    (checksum_algorithm item.2) default_chunk_size;
  if decide (checksum item.2 ≠ file_checksum) then
    raise (ValueError (mismatch_message file_checksum (checksum item.2)))
  else mret (acc ++ [record_of item]).

Lemma download_one_missing downloads_dir acc item w :
  stat (fs w) (zip_path_of downloads_dir item) = None →
  download_one downloads_dir acc item w = fetch_and_verify downloads_dir acc item w.
Proof.
  intros Hnone. rewrite download_one_run. cbn zeta.
  by rewrite (proj2 (path_exists_false _ _) Hnone).
Qed.

Lemma download_one_stale downloads_dir acc item w H old :
  hashlib (checksum_algorithm item.2) = Some H →
  stat (fs w) (zip_path_of downloads_dir item) = Some (KFile old) →
  digest H old ≠ checksum item.2 →
  download_one downloads_dir acc item w
  = fetch_and_verify downloads_dir acc item
      (World (put (zip_path_of downloads_dir item) None (fs w)) (fetched w)).
Proof.
  intros HH Hstat Hdig. rewrite download_one_run. cbn zeta.
  assert (path_exists (fs w) (zip_path_of downloads_dir item) = true) as ->.
  { apply path_exists_stat. by rewrite Hstat. }
  rewrite (calculate_file_checksum_default _ _ H _ old); [|done|by apply stat_resolve_file].
  rewrite decide_False by congruence.
  rewrite on_fs_run. unfold os_remove. by rewrite Hstat.
Qed.

(** What fetching does where the archive is not on disk and its directory
    is there: the URL is asked for; a URL that cannot be opened leaves the
    disk alone; otherwise what arrives is in the file, all of it or the
    part that came before the transfer failed; and a body that arrived whole
    is accepted when it has the declared digest. *)
Lemma fetch_and_verify_run downloads_dir acc item w H :
  let zip_path := zip_path_of downloads_dir item in
  hashlib (checksum_algorithm item.2) = Some H →
  stat (fs w) zip_path = None → stat (fs w) downloads_dir = Some KDir →
  ∃ w1,
    fetched w1 = fetched w ++ [url item.2] ∧
    (∀ q, q ≠ zip_path → stat (fs w1) q = stat (fs w) q) ∧
    match urlopen (url item.2) with
    | None =>
        fetch_and_verify downloads_dir acc item w = (Raise URLError, w1) ∧
        stat (fs w1) zip_path = None
    | Some (Broken received e) =>
        fetch_and_verify downloads_dir acc item w = (Raise e, w1) ∧
        stat (fs w1) zip_path = Some (KFile received)
    | Some (Complete body) =>
        fetch_and_verify downloads_dir acc item w
        = (if decide (checksum item.2 ≠ digest H body)
           then Raise (ValueError (mismatch_message (digest H body) (checksum item.2)))
           else Ok (acc ++ [record_of item]), w1) ∧
        stat (fs w1) zip_path = Some (KFile body)
    end.
Proof.
  intros zip_path HH Hnone Hdir. unfold fetch_and_verify. fold zip_path.
  assert (∀ data, ∃ t1, write_file zip_path data (fs w) = (Ok tt, t1) ∧
                        stat t1 zip_path = Some (KFile data) ∧
                        ∀ q, q ≠ zip_path → stat t1 q = stat (fs w) q) as Hwrite.
  { intros data. destruct (write_file zip_path data (fs w)) as [r1 t1] eqn:Hw.
    assert (r1 = Ok tt) as ->.
    { revert Hw. unfold write_file. rewrite Hnone.
      unfold zip_path, zip_path_of. rewrite parent_snoc, Hdir. by intros [= <- _]. }
    exists t1. split; [done|]. split; [by eapply write_file_ok|].
    by apply (write_file_exact _ _ _ _ _ Hw). }
  rewrite bind_run, urlretrieve_run.
  destruct (urlopen (url item.2)) as [[body|received e]|].
  - destruct (Hwrite body) as (t1 & Hw & Hfile & Hrest). rewrite Hw. cbn [fst snd].
    exists (World t1 (fetched w ++ [url item.2])). split; [done|]. split; [done|].
    split; [|done]. rewrite bind_run.
    rewrite (calculate_file_checksum_default _ _ H _ body); [|done|by apply stat_resolve_file].
    by case_decide.
  - destruct (Hwrite received) as (t1 & Hw & Hfile & Hrest). rewrite Hw. cbn [fst snd].
    by exists (World t1 (fetched w ++ [url item.2])).
  - by exists (World (fs w) (fetched w ++ [url item.2])).
Qed.

(** The same for the loop body, where the archive is not cached: a stale
    file is deleted first. *)
Lemma download_one_fetches downloads_dir acc item w H :
  let zip_path := zip_path_of downloads_dir item in
  hashlib (checksum_algorithm item.2) = Some H →
  stat (fs w) downloads_dir = Some KDir →
  stat (fs w) zip_path ≠ Some KDir →
  ¬ cached downloads_dir (fs w) item →
  ∃ w1,
    fetched w1 = fetched w ++ [url item.2] ∧
    (∀ q, q ≠ zip_path → stat (fs w1) q = stat (fs w) q) ∧
    match urlopen (url item.2) with
    | None =>
        download_one downloads_dir acc item w = (Raise URLError, w1) ∧
        stat (fs w1) zip_path = None
    | Some (Broken received e) =>
        download_one downloads_dir acc item w = (Raise e, w1) ∧
        stat (fs w1) zip_path = Some (KFile received)
    | Some (Complete body) =>
        download_one downloads_dir acc item w
        = (if decide (checksum item.2 ≠ digest H body)
           then Raise (ValueError (mismatch_message (digest H body) (checksum item.2)))
           else Ok (acc ++ [record_of item]), w1) ∧
        stat (fs w1) zip_path = Some (KFile body)
    end.
Proof.
  intros zip_path HH Hdir Hnodir Hmiss.
  destruct (stat (fs w) zip_path) as [[old|]|] eqn:Hstat; [|done|].
  - assert (digest H old ≠ checksum item.2) as Hdig.
    { intros Hdig. apply Hmiss. exists H, old. split; [done|]. split; [|done].
      by apply stat_resolve_file. }
    rewrite (download_one_stale _ _ _ _ H old) by done. fold zip_path.
    assert (zip_path ≠ []) as Hnonroot
      by (unfold zip_path, zip_path_of; by destruct downloads_dir).
    assert (os_remove zip_path (fs w) = (Ok tt, put zip_path None (fs w))) as Hrm.
    { unfold os_remove. by rewrite Hstat. }
    pose proof (os_remove_exact _ _ _ _ Hrm) as Hrest.
    apply os_remove_ok in Hrm as [Hgone _]; [|done].
    destruct (fetch_and_verify_run downloads_dir acc item
                (World (put zip_path None (fs w)) (fetched w)) H)
      as (w1 & Hfetched & Hrest1 & Hcases); [done|done| |].
    { cbn [fs]. rewrite Hrest; [done|]. unfold zip_path, zip_path_of.
      intros Heq. apply (f_equal length) in Heq. rewrite length_app in Heq.
      simpl in Heq. lia. }
    exists w1. split; [done|]. split; [|done].
    intros q Hq. rewrite Hrest1 by done. by apply Hrest.
  - rewrite download_one_missing by done.
    by apply (fetch_and_verify_run downloads_dir acc item w H).
Qed.

(** *** The specification of the step

    The URL of the entry delivers bytes with the declared digest. *)
Definition delivers (item : string * platform_info) : Prop :=
  ∃ H body,
    hashlib (checksum_algorithm item.2) = Some H ∧
    urlopen (url item.2) = Some (Complete body) ∧
    digest H body = checksum item.2.

(** The entry can be had: its archive is on disk with the declared digest,
    or its URL delivers such an archive. *)
Definition served (downloads_dir : path) (t : node) (item : string * platform_info) : Prop :=
  cached downloads_dir t item ∨ delivers item.

(** What becomes of an entry the loop gets to, in a run from [w] to [w']
    with result [r] in which the URLs [new] were asked for: a cached archive
    is skipped, it stays as it is and nothing is fetched for it; one that is
    missing or stale is fetched, and then the file holds what arrived: the
    body, which the declared checksum has to confirm, or the part received
    before the transfer failed, or nothing at all (the stale file is gone)
    where the URL could not be opened. *)
Definition entry_processed (downloads_dir : path) (w : world)
    (r : outcome (list archive_record)) (w' : world) (new : list string)
    (item : string * platform_info) : Prop :=
  let zip_path := zip_path_of downloads_dir item in
  (cached downloads_dir (fs w) item →
     stat (fs w') zip_path = stat (fs w) zip_path ∧ url item.2 ∉ new) ∧
  (¬ cached downloads_dir (fs w) item →
     url item.2 ∈ new ∧
     match urlopen (url item.2) with
     | None => r = Raise URLError ∧ stat (fs w') zip_path = None
     | Some (Broken received e) =>
         r = Raise e ∧ stat (fs w') zip_path = Some (KFile received)
     | Some (Complete body) =>
         stat (fs w') zip_path = Some (KFile body) ∧
         ∀ H, hashlib (checksum_algorithm item.2) = Some H →
              digest H body ≠ checksum item.2 →
              r = Raise (ValueError (mismatch_message (digest H body) (checksum item.2)))
     end).

(** The disk the download step can work on: the downloads directory is
    there, the hash algorithms of the entries are known, and no directory
    stands where an archive belongs. *)
Definition download_ready (downloads_dir : path) (t : node)
    (items : list (string * platform_info)) : Prop :=
  stat t downloads_dir = Some KDir ∧
  Forall (λ item, is_Some (hashlib (checksum_algorithm item.2)) ∧
                  stat t (zip_path_of downloads_dir item) ≠ Some KDir) items.

(** What a run of the download step over the entries [items] comes to: it
    returns, with the records of all entries, exactly when every entry can be
    had; each entry is dealt with in turn; and the run ends at the first
    entry that cannot be had, the entries behind it untouched. *)
Definition entries_processed (downloads_dir : path)
    (items : list (string * platform_info))
    (w : world) (r : outcome (list archive_record)) (w' : world) : Prop :=
  (Forall (served downloads_dir (fs w)) items ↔ r = Ok (map record_of items)) ∧
  (∀ l, r = Ok l → l = map record_of items) ∧
  ∃ new,
    fetched w' = fetched w ++ new ∧
    ∀ before item after,
      items = before ++ item :: after →
      (Forall (served downloads_dir (fs w)) before →
         entry_processed downloads_dir w r w' new item) ∧
      (¬ Forall (served downloads_dir (fs w)) before →
         stat (fs w') (zip_path_of downloads_dir item)
         = stat (fs w) (zip_path_of downloads_dir item) ∧
         url item.2 ∉ new).

Lemma cached_iff_stat downloads_dir t t' item :
  stat t' (zip_path_of downloads_dir item) = stat t (zip_path_of downloads_dir item) →
  cached downloads_dir t' item ↔ cached downloads_dir t item.
Proof. intros Hstat. split; apply cached_same_stat; by rewrite Hstat. Qed.

Lemma served_iff_stat downloads_dir t t' item :
  stat t' (zip_path_of downloads_dir item) = stat t (zip_path_of downloads_dir item) →
  served downloads_dir t' item ↔ served downloads_dir t item.
Proof. intros Hstat. unfold served. by rewrite (cached_iff_stat _ t t'). Qed.

Lemma zip_path_of_url downloads_dir a b :
  url a.2 = url b.2 → zip_path_of downloads_dir a = zip_path_of downloads_dir b.
Proof. unfold zip_path_of. by intros ->. Qed.

Lemma Forall_served_iff downloads_dir t t' (items : list (string * platform_info)) :
  (∀ item, item ∈ items →
     stat t' (zip_path_of downloads_dir item) = stat t (zip_path_of downloads_dir item)) →
  Forall (served downloads_dir t') items ↔ Forall (served downloads_dir t) items.
Proof.
  intros Hsame. rewrite !Forall_forall. split; intros Hall item Hin.
  - by apply (served_iff_stat _ t t'), Hall; [apply Hsame|].
  - by apply (served_iff_stat _ t t'); [apply Hsame|apply Hall].
Qed.

Lemma cached_or_not downloads_dir t item :
  cached downloads_dir t item ∨ ¬ cached downloads_dir t item.
Proof.
  destruct (hashlib (checksum_algorithm item.2)) as [H|] eqn:HH;
    [|right; intros (H & data & HH' & _); congruence].
  destruct (resolve t (zip_path_of downloads_dir item)) as [[data|es]|] eqn:Hfile;
    [|right; intros (H' & data & _ & Hfile' & _); congruence..].
  destruct (decide (digest H data = checksum item.2)) as [Hdig|Hdig].
  - left. by exists H, data.
  - right. intros (H' & data' & HH' & Hfile' & Hdig'). congruence.
Qed.

Lemma entry_processed_shift downloads_dir w w1 r w' new u item :
  stat (fs w1) (zip_path_of downloads_dir item) = stat (fs w) (zip_path_of downloads_dir item) →
  url item.2 ≠ u →
  entry_processed downloads_dir w1 r w' new item →
  entry_processed downloads_dir w r w' (u :: new) item.
Proof.
  intros Hstat Hurl [Hhit Hmiss]. split.
  - intros Hc%(cached_iff_stat _ _ (fs w1)); [|done].
    destruct (Hhit Hc) as [Hsame Hnew]. split; [by rewrite Hsame|].
    apply not_elem_of_cons. by split.
  - intros Hc. destruct Hmiss as [Hnew Hcases].
    { intros Hc1. apply Hc. by apply (cached_iff_stat _ _ (fs w1)). }
    split; [by apply elem_of_cons; right|done].
Qed.

(** The loop over the entries: each is dealt with as the specification has
    it, up to and including the first that cannot be had. *)
Lemma download_loop_entries downloads_dir items acc w r w' :
  NoDup (zip_path_of downloads_dir <$> items) →
  download_ready downloads_dir (fs w) items →
  foldM (download_one downloads_dir) items acc w = (r, w') →
  ∃ new,
    fetched w' = fetched w ++ new ∧
    (∀ u, u ∈ new → ∃ item, item ∈ items ∧ u = url item.2) ∧
    (Forall (served downloads_dir (fs w)) items ↔ r = Ok (acc ++ map record_of items)) ∧
    ∀ before item after,
      items = before ++ item :: after →
      (Forall (served downloads_dir (fs w)) before →
         entry_processed downloads_dir w r w' new item) ∧
      (¬ Forall (served downloads_dir (fs w)) before →
         stat (fs w') (zip_path_of downloads_dir item)
         = stat (fs w) (zip_path_of downloads_dir item) ∧
         url item.2 ∉ new).
Proof.
  revert acc w. induction items as [|item0 items IH]; intros acc w Hnodup [Hdir Hready] Hrun.
  { injection Hrun as <- <-. exists []. split; [by rewrite app_nil_r|].
    split; [by intros u ?%elem_of_nil|]. split; [by rewrite app_nil_r|].
    intros before item after Heq. by destruct before. }
  rewrite fmap_cons in Hnodup. apply NoDup_cons in Hnodup as [Hfirst Hnodup].
  apply Forall_cons in Hready as [[[H HH] Hnodir] Hready].
  set (zip0 := zip_path_of downloads_dir item0) in *.
  assert (∀ item, item ∈ items → zip_path_of downloads_dir item ≠ zip0) as Hother.
  { intros item Hin Heq. apply Hfirst. rewrite <-Heq. apply list_elem_of_fmap. by exists item. }
  assert (∀ item, item ∈ items → url item.2 ≠ url item0.2) as Hurls.
  { intros item Hin Heq. apply (Hother item Hin). by apply zip_path_of_url. }
  assert (downloads_dir ≠ zip0) as Hdd.
  { unfold zip0, zip_path_of. intros Heq. apply (f_equal length) in Heq.
    rewrite length_app in Heq. simpl in Heq. lia. }
  assert (∀ before item after, item0 :: items = before ++ item :: after →
            (before = [] ∧ item = item0 ∧ after = items) ∨
            (∃ before', before = item0 :: before' ∧ items = before' ++ item :: after ∧
                        item ∈ items)) as Hsplit.
  { intros before item after Heq. destruct before as [|b before']; simpl in Heq.
    - injection Heq as <- <-. by left.
    - injection Heq as <- ->. right. exists before'. split; [done|]. split; [done|].
      apply elem_of_app. right. by left. }
  cbn [foldM] in Hrun. rewrite bind_run in Hrun.
  destruct (cached_or_not downloads_dir (fs w) item0) as [Hc|Hc].
  - (* the archive is cached *)
    destruct Hc as (H' & data & HH' & Hfile & Hdig).
    rewrite (download_one_hit _ _ _ _ H' data) in Hrun by done.
    assert (cached downloads_dir (fs w) item0) as Hc by by exists H', data.
    destruct (IH _ _ Hnodup (conj Hdir Hready) Hrun) as (new & Hfetched & Hnew & Hres & Hentries).
    pose proof (download_loop_exact _ _ _ _ _ _ Hrun zip0 Hfirst) as Hzip0.
    exists new. split; [done|]. split; [|split].
    + intros u (item & Hin & ->)%Hnew. exists item. split; [by right|done].
    + rewrite Forall_cons, Hres. cbn [map]. rewrite <-app_assoc. cbn [app].
      split; [by intros [_ ?]|]. intros ?. split; [by left|done].
    + intros before item after
        [(-> & -> & ->)|(before' & -> & Heq & Hin)]%Hsplit.
      * split; [|by intros []]. intros _. split; [|done]. intros _. split; [done|].
        intros (item & Hin & Hu)%Hnew. by apply (Hurls item).
      * destruct (Hentries _ _ _ Heq) as [Hyes Hno]. split.
        -- intros [_ Hbefore]%Forall_cons. by apply Hyes.
        -- intros Hbefore. apply Hno. intros Hall. apply Hbefore.
           apply Forall_cons. split; [by left|done].
  - (* it has to be fetched *)
    destruct (download_one_fetches downloads_dir acc item0 w H HH Hdir Hnodir Hc)
      as (w1 & Hfetched1 & Hrest1 & Hcases). fold zip0 in Hrest1, Hcases.
    assert (∀ item, item ∈ items →
              stat (fs w1) (zip_path_of downloads_dir item)
              = stat (fs w) (zip_path_of downloads_dir item)) as Hsame.
    { intros item Hin. by apply Hrest1, Hother. }
    assert (download_ready downloads_dir (fs w1) items) as Hready1.
    { split; [by rewrite Hrest1|]. rewrite Forall_forall in Hready.
      apply Forall_forall. intros item Hin. destruct (Hready item Hin) as [? ?].
      split; [done|]. by rewrite Hsame. }
    assert (∀ e, download_one downloads_dir acc item0 w = (Raise e, w1) →
                 ¬ delivers item0 →
                 stat (fs w1) zip0
                 = match urlopen (url item0.2) with
                   | Some (Complete body) => Some (KFile body)
                   | Some (Broken received _) => Some (KFile received)
                   | None => None
                   end →
                 (match urlopen (url item0.2) with
                  | None => e = URLError
                  | Some (Broken _ e') => e = e'
                  | Some (Complete body) =>
                      e = ValueError (mismatch_message (digest H body) (checksum item0.2))
                  end) →
                 ∃ new,
                   fetched w' = fetched w ++ new ∧
                   (∀ u, u ∈ new → ∃ item, item ∈ item0 :: items ∧ u = url item.2) ∧
                   (Forall (served downloads_dir (fs w)) (item0 :: items)
                    ↔ r = Ok (acc ++ map record_of (item0 :: items))) ∧
                   ∀ before item after,
                     item0 :: items = before ++ item :: after →
                     (Forall (served downloads_dir (fs w)) before →
                        entry_processed downloads_dir w r w' new item) ∧
                     (¬ Forall (served downloads_dir (fs w)) before →
                        stat (fs w') (zip_path_of downloads_dir item)
                        = stat (fs w) (zip_path_of downloads_dir item) ∧
                        url item.2 ∉ new)) as Hfail.
    { intros e Hone Hnot Hfile He. rewrite Hone in Hrun. injection Hrun as <- <-.
      assert (¬ served downloads_dir (fs w) item0) as Hunserved by by intros [?|?].
      exists [url item0.2]. split; [done|]. split; [|split].
      - intros u ->%list_elem_of_singleton. exists item0. split; [by left|done].
      - split; [by intros [? _]%Forall_cons|done].
      - intros before item after
          [(-> & -> & ->)|(before' & -> & Heq & Hin)]%Hsplit.
        + split; [|by intros []]. intros _. split; [done|]. intros _.
          split; [by left|]. fold zip0. rewrite Hfile.
          destruct (urlopen (url item0.2)) as [[body|received e']|]; [|by subst..].
          split; [done|]. intros H' HH' _. by simplify_eq.
        + split; [by intros [? _]%Forall_cons|]. intros _. split; [by apply Hsame|].
          intros Hu%list_elem_of_singleton. by apply (Hurls item). }
    destruct (urlopen (url item0.2)) as [[body|received e]|] eqn:Hnet.
    + destruct Hcases as [Hone Hfile]. case_decide as Hdig.
      { apply (Hfail _ Hone); [|done|done].
        intros (H' & body' & HH' & Hnet' & Hdig'). by simplify_eq. }
      assert (digest H body = checksum item0.2) as Hok
        by (destruct (decide (digest H body = checksum item0.2)); [done|by destruct Hdig]).
      assert (served downloads_dir (fs w) item0) as Hserved0.
      { right. by exists H, body. }
      rewrite Hone in Hrun.
      destruct (IH _ _ Hnodup Hready1 Hrun) as (new & Hfetched & Hnew & Hres & Hentries).
      pose proof (download_loop_exact _ _ _ _ _ _ Hrun zip0 Hfirst) as Hzip0.
      exists (url item0.2 :: new). split; [|split; [|split]].
      * rewrite Hfetched, Hfetched1. by rewrite <-app_assoc.
      * intros u [->|(item & Hin & ->)%Hnew]%elem_of_cons; [exists item0|exists item];
          (split; [|done]); [by left|by right].
      * rewrite Forall_cons, <-(Forall_served_iff _ (fs w) (fs w1)) by done.
        rewrite Hres. cbn [map]. rewrite <-app_assoc. cbn [app].
        split; [by intros [_ ?]|done].
      * intros before item after
          [(-> & -> & ->)|(before' & -> & Heq & Hin)]%Hsplit.
        -- split; [|by intros []]. intros _. split; [done|]. intros _.
           split; [by left|]. rewrite Hnet. fold zip0. split; [by rewrite Hzip0|].
           intros H' HH' Hbad. by simplify_eq.
        -- destruct (Hentries _ _ _ Heq) as [Hyes Hno]. split.
           ++ intros [_ Hbefore]%Forall_cons.
              apply entry_processed_shift with w1; [by apply Hsame|by apply Hurls|].
              apply Hyes. rewrite Forall_forall in Hbefore. apply Forall_forall.
              intros b Hb. apply (served_iff_stat _ (fs w)); [|by apply Hbefore].
              apply Hsame. rewrite Heq. apply elem_of_app. by left.
           ++ intros Hbefore. destruct Hno as [Hstat Hfresh].
              { intros Hall. apply Hbefore. apply Forall_cons. split; [done|].
                rewrite Forall_forall in Hall. apply Forall_forall.
                intros b Hb. apply (served_iff_stat _ (fs w) (fs w1)); [|by apply Hall].
                apply Hsame. rewrite Heq. apply elem_of_app. by left. }
              split; [by rewrite Hstat, Hsame|].
              apply not_elem_of_cons. split; [by apply Hurls|done].
    + destruct Hcases as [Hone Hfile]. apply (Hfail _ Hone); [|done|done].
      intros (H' & body' & HH' & Hnet' & Hdig'). simplify_eq.
    + destruct Hcases as [Hone Hfile]. apply (Hfail _ Hone); [|done|done].
      intros (H' & body' & HH' & Hnet' & Hdig'). simplify_eq.
Qed.

Lemma records_of_items sources : records_of sources = map record_of (all_items sources).
Proof.
  unfold records_of, all_items. induction sources as [|[v items] sources IH]; [done|].
  cbn [flat_map snd]. by rewrite map_app, IH.
Qed.

Lemma download_sources_entries sources downloads_dir w r w' :
  NoDup (zip_path_of downloads_dir <$> all_items sources) →
  download_ready downloads_dir (fs w) (all_items sources) →
  download_sources sources downloads_dir w = (r, w') →
  entries_processed downloads_dir (all_items sources) w r w'.
Proof.
  intros Hnodup Hready Hrun.
  pose proof (download_sources_inv _ _ _ _ _ Hrun) as [_ Hl].
  unfold download_sources in Hrun. rewrite download_sources_flat in Hrun.
  destruct (download_loop_entries _ _ _ _ _ _ Hnodup Hready Hrun)
    as (new & Hfetched & _ & Hres & Hentries).
  split; [done|]. split; [|by exists new].
  intros l ->%Hl. apply records_of_items.
Qed.

(** C4: the download step deals with every entry of the source spec in
    turn, on a disk where the downloads directory is there (and no directory
    stands in for an archive, and the hash algorithms are known).  An
    archive that is on disk with the declared digest is skipped: the file
    stays as it is and its URL is not asked for.  One that is missing, or on
    disk with another digest, is fetched, a stale file having been deleted
    first: afterwards the file holds what arrived, and after a URL that
    could not be opened there is no file.  What arrived whole is verified
    against the declared checksum, and a mismatch ends the run with the
    mismatch error.  The step returns exactly when every entry is cached or
    delivered with the declared digest, and what it returns then is the
    records of the source spec, one per entry, the entry's own, in the
    spec's order, cached or fetched alike.  This holds for every source spec
    whose archives have distinct file names, and so for [USD_SOURCES]. *)
Theorem download_usd_zip_one_record_per_entry downloads_dir w r w' :
  (∀ sources,
     NoDup (zip_path_of downloads_dir <$> all_items sources) →
     download_ready downloads_dir (fs w) (all_items sources) →
     download_sources sources downloads_dir w = (r, w') →
     entries_processed downloads_dir (all_items sources) w r w' ∧
     records_of sources = map record_of (all_items sources)) ∧
  (download_ready downloads_dir (fs w) (all_items USD_SOURCES) →
   download_usd_zip downloads_dir w = (r, w') →
   entries_processed downloads_dir (all_items USD_SOURCES) w r w' ∧
   records_of USD_SOURCES = map record_of (all_items USD_SOURCES) ∧
   length (all_items USD_SOURCES) = 2).
Proof.
  split.
  - intros sources Hnodup Hready Hrun. split; [|apply records_of_items].
    by apply download_sources_entries.
  - intros Hready Hrun. split; [|split; [apply records_of_items|done]].
    apply download_sources_entries; [apply usd_sources_files_differ|done..].
Qed.

(** X8: a download that fails leaves at the destination what arrived.
    When the URL cannot be opened, [download_one] raises the error of
    [urlretrieve] with nothing written, and by then a stale archive has
    already been deleted: there is no archive at the destination, where
    before there was an old one, and a missing archive stays missing.  When
    the transfer fails after the connection stood, the destination holds the
    bytes received until then, and the error of the transfer is raised
    before anything is verified.  In each case the URL has been asked for
    once and nothing else on disk has changed. *)
Theorem failed_download_leaves_what_arrived downloads_dir acc item w :
  let zip_path := zip_path_of downloads_dir item in
  (urlopen (url item.2) = None →
   (stat (fs w) zip_path = None →
    download_one downloads_dir acc item w
    = (Raise URLError, World (fs w) (fetched w ++ [url item.2]))) ∧
   (∀ H old,
      hashlib (checksum_algorithm item.2) = Some H →
      resolve (fs w) zip_path = Some (File old) →
      digest H old ≠ checksum item.2 →
      ∃ w',
        download_one downloads_dir acc item w = (Raise URLError, w') ∧
        stat (fs w') zip_path = None ∧
        (∀ q, q ≠ zip_path → stat (fs w') q = stat (fs w) q) ∧
        fetched w' = fetched w ++ [url item.2])) ∧
  (∀ received e H,
     urlopen (url item.2) = Some (Broken received e) →
     hashlib (checksum_algorithm item.2) = Some H →
     stat (fs w) downloads_dir = Some KDir →
     stat (fs w) zip_path ≠ Some KDir →
     ¬ cached downloads_dir (fs w) item →
     ∃ w',
       download_one downloads_dir acc item w = (Raise e, w') ∧
       stat (fs w') zip_path = Some (KFile received) ∧
       (∀ q, q ≠ zip_path → stat (fs w') q = stat (fs w) q) ∧
       fetched w' = fetched w ++ [url item.2]).
Proof.
  intros zip_path. split.
  - intros Hnet. split.
    + intros Hnone. rewrite download_one_missing by done.
      unfold fetch_and_verify. by rewrite bind_run, urlretrieve_run, Hnet.
    + intros H old HH Hold Hdig.
      destruct (download_one_fetches downloads_dir acc item w H)
        as (w' & Hfetched & Hrest & Hcases); [done| | | |].
      * apply stat_resolve_file in Hold.
        assert (zip_path ≠ []) as Hnonroot
          by (unfold zip_path, zip_path_of; by destruct downloads_dir).
        pose proof (stat_parent_dir (fs w) zip_path Hnonroot ltac:(by rewrite Hold)) as Hpar.
        unfold zip_path, zip_path_of in Hpar. by rewrite parent_snoc in Hpar.
      * apply stat_resolve_file in Hold. fold zip_path. by rewrite Hold.
      * intros (H' & data & HH' & Hfile & Hdig'). fold zip_path in Hfile. congruence.
      * rewrite Hnet in Hcases. destruct Hcases as [Hrun Hgone]. by exists w'.
  - intros received e H Hnet HH Hdir Hnodir Hmiss.
    destruct (download_one_fetches downloads_dir acc item w H HH Hdir Hnodir Hmiss)
      as (w' & Hfetched & Hrest & Hcases).
    rewrite Hnet in Hcases. destruct Hcases as [Hrun Hfile]. by exists w'.
Qed.

(** ** The package a completed run leaves *)

(** *** What is on disk stays

    Making directories never touches what is there already. *)
Lemma os_mkdir_keeps p t r t' q k :
  os_mkdir p t = (r, t') → stat t q = Some k → stat t' q = Some k.
Proof.
  intros Hmk Hq. destruct r as [[]|e].
  - pose proof (os_mkdir_ok _ _ _ Hmk) as (Hnone & _ & _).
    rewrite (os_mkdir_only _ _ _ _ Hmk); [done|]. intros ->. congruence.
  - by apply os_mkdir_raise in Hmk as [-> _].
Qed.

Lemma makedirs_rev_keeps rp t r t' q k :
  makedirs_rev rp t = (r, t') → stat t q = Some k → stat t' q = Some k.
Proof.
  revert t r t'. induction rp as [|n rhead IH]; intros t r t'; [apply os_mkdir_keeps|].
  cbn [makedirs_rev]. destruct (path_exists t (rev rhead)); [apply os_mkdir_keeps|].
  destruct (makedirs_rev rhead t) as [r1 t1] eqn:Hrec. intros Hrun Hq.
  pose proof (IH _ _ _ Hrec Hq) as Hq1.
  destruct r1 as [[]|e1]; [by eapply os_mkdir_keeps|].
  destruct e1; try (by injection Hrun as _ <-). by eapply os_mkdir_keeps.
Qed.

Lemma os_makedirs_keeps p t r t' q k :
  os_makedirs p t = (r, t') → stat t q = Some k → stat t' q = Some k.
Proof. apply makedirs_rev_keeps. Qed.

Lemma path_mkdir_rev_keeps parents exist_ok rp t r t' q k :
  path_mkdir_rev parents exist_ok rp t = (r, t') → stat t q = Some k → stat t' q = Some k.
Proof.
  revert parents exist_ok t r t'.
  induction rp as [|n rp IH]; intros parents exist_ok t r t'.
  { intros [-> _]%path_mkdir_rev_root. done. }
  assert (∀ t1 r1 t2,
    os_mkdir (rev (n :: rp)) t1 = (r1, t2) →
    match r1 with
    | Ok _ => (Ok tt, t2)
    | Raise FileNotFoundError => (Raise FileNotFoundError, t2)
    | Raise e => if exist_ok && isdir t2 (rev (n :: rp)) then (Ok tt, t2) else (Raise e, t2)
    end = (r, t') →
    stat t1 q = Some k → stat t' q = Some k) as Htol.
  { intros t1 r1 t2 Hmk Hres Hq. pose proof (os_mkdir_keeps _ _ _ _ _ _ Hmk Hq) as Hq2.
    destruct r1 as [[]|e]; [by simplify_eq|].
    destruct e; try (by simplify_eq);
      destruct (exist_ok && isdir t2 (rev (n :: rp))); by simplify_eq. }
  cbn [path_mkdir_rev].
  destruct (os_mkdir (rev (n :: rp)) t) as [r1 t1] eqn:Hmk.
  destruct r1 as [[]|e]; [intros Hres; by apply (Htol t (Ok tt) t1)|].
  destruct (decide (e = FileNotFoundError)) as [->|Hne].
  - apply os_mkdir_raise in Hmk as [-> _].
    destruct parents; [|by intros [= _ <-]].
    destruct (path_mkdir_rev true true rp t) as [r2 t2] eqn:Hrec.
    intros Hres Hq. pose proof (IH _ _ _ _ _ Hrec Hq) as Hq2.
    destruct r2 as [[]|e2]; [|by injection Hres as _ <-].
    destruct (os_mkdir (rev (n :: rp)) t2) as [r3 t3] eqn:Hmk3.
    by apply (Htol _ _ _ Hmk3 Hres).
  - intros Hres. destruct e; try done; by apply (Htol _ _ _ Hmk).
Qed.

Lemma path_mkdir_keeps parents exist_ok p t r t' q k :
  path_mkdir parents exist_ok p t = (r, t') → stat t q = Some k → stat t' q = Some k.
Proof. apply path_mkdir_rev_keeps. Qed.

(** A copy of [safe_copy_file] leaves what is there and is not at or below
    the destination. *)
Lemma safe_copy_file_keeps src_path dst_path w r w' q k :
  safe_copy_file src_path dst_path w = (r, w') →
  ¬ dst_path `prefix_of` q → stat (fs w) q = Some k → stat (fs w') q = Some k.
Proof.
  unfold safe_copy_file. case_decide; [by intros [= _ <-]|].
  rewrite bind_run, suppress_run, !on_fs_run. cbn [fst snd fs fetched].
  intros [= _ <-] Hq Hk. cbn [fs].
  rewrite (shutil_copy_frame _ _ _ _ _ (surjective_pairing _)) by done.
  eapply os_makedirs_keeps; [apply surjective_pairing|done].
Qed.

Lemma copy_server_content_keeps addon_output_dir current_dir w r w' q k :
  copy_server_content addon_output_dir current_dir w = (r, w') →
  ¬ (addon_output_dir ++ ["server"]) `prefix_of` q →
  stat (fs w) q = Some k → stat (fs w') q = Some k.
Proof.
  unfold copy_server_content. rewrite bind_run.
  destruct (find_files_in_subdir _ None None w) as [[found|e] w0] eqn:Hfind;
    apply find_files_in_subdir_pure in Hfind as ->; [|by intros [= _ <-]].
  set (l := map (λ '(src_path, dst_subpath),
                   (src_path, addon_output_dir ++ ["server"] ++ components os_sep dst_subpath))
                found).
  assert (Forall (λ x : path * path, (addon_output_dir ++ ["server"]) `prefix_of` x.2) l)
    as Hl.
  { apply Forall_forall. intros [src dst] ([p rel] & [= -> ->] & _)%list_elem_of_fmap.
    cbn [snd]. apply prefix_app, prefix_cons, prefix_nil. }
  clearbody l. intros Hrun Hq. revert w Hrun.
  induction Hl as [|[src dst] l Hdst Hl IH]; intros w Hrun Hk.
  - by injection Hrun as _ <-.
  - cbn [for_each] in Hrun. rewrite bind_run in Hrun. cbn [snd] in Hdst.
    destruct (safe_copy_file src dst w) as [[[]|e] w1] eqn:Hone.
    + apply (IH w1 Hrun). eapply safe_copy_file_keeps; [exact Hone| |done].
      intros Hpre. apply Hq. by etrans.
    + injection Hrun as _ <-. eapply safe_copy_file_keeps; [exact Hone| |done].
      intros Hpre. apply Hq. by etrans.
Qed.

(** *** Where the output lies

    The entries of the script's directory a run reads. *)
Definition source_names : list string := ["downloads"; "server"; "client"; "package.py"].

(** The output directory lies apart from the sources when it is neither one
    of them, nor inside one, nor a directory that holds one. *)
Definition output_apart (output_dir : option path) : Prop :=
  ∀ n, n ∈ source_names → ¬ comparable (out_dir output_dir) (script_dir ++ [n]).

Lemma output_apart_default : output_apart None.
Proof.
  intros n Hn. unfold out_dir. cbn [default].
  assert (n ≠ "package") as Hne.
  { unfold source_names in Hn. rewrite !elem_of_cons, elem_of_nil in Hn.
    destruct Hn as [->|[->|[->|[->|[]]]]]; done. }
  intros [Hc|Hc]; revert Hc; by apply diverge_names.
Qed.

Lemma output_apart_below od n j k :
  output_apart od → n ∈ source_names →
  ¬ comparable (out_dir od ++ j) (script_dir ++ n :: k).
Proof.
  intros Hapart Hn Hc. apply (Hapart n Hn). destruct Hc as [Hc|Hc].
  - apply (prefix_weak_total _ _ (out_dir od ++ j)); [|by apply prefix_app_r].
    etrans; [|exact Hc]. apply prefix_app, prefix_cons, prefix_nil.
  - apply (prefix_weak_total _ _ (script_dir ++ n :: k)).
    + apply prefix_app, prefix_cons, prefix_nil.
    + etrans; [|exact Hc]. by apply prefix_app_r.
Qed.

Lemma source_below_version_dir od n k j :
  output_apart od → n ∈ source_names → ¬ comparable (version_dir od ++ j) (script_dir ++ n :: k).
Proof.
  intros Hapart Hn. rewrite version_dir_eq, <-app_assoc. by apply output_apart_below.
Qed.

Lemma os_makedirs_ok p t t' : os_makedirs p t = (Ok tt, t') → stat t' p = Some KDir.
Proof.
  unfold os_makedirs. intros [_ Hres]%makedirs_rev_spec. by rewrite rev_involutive in Hres.
Qed.

Lemma source_names_elem n :
  n ∈ source_names ↔ n = "downloads" ∨ n = "server" ∨ n = "client" ∨ n = "package.py".
Proof.
  unfold source_names. rewrite !elem_of_cons, elem_of_nil.
  split; [intros [?|[?|[?|[?|[]]]]]; auto|intros [?|[?|[?|?]]]; auto 6].
Qed.

(** *** The staging

    What the staging leaves below the version directory, when nothing was
    below it before and the output lies apart from the sources. *)
Lemma stage_output_layout od files_info w w' :
  stage_output od files_info w = (Ok tt, w') →
  (∀ k, k ≠ [] → stat (fs w) (version_dir od ++ k) = None) →
  output_apart od →
  names_below_ok (fs w) (script_dir ++ ["server"]) →
  stat (fs w') (private_dir od) = Some KDir ∧
  (∀ k d,
     stat (fs w') (version_dir od ++ "server" :: k) = Some (KFile d) ↔
     stat (fs w) (script_dir ++ "server" :: k) = Some (KFile d) ∧
     ∃ rel, selected (fs w) IGNORE_FILE_PATTERNS IGNORE_DIR_PATTERNS
                     (script_dir ++ ["server"]) (script_dir ++ "server" :: k) rel) ∧
  (∀ file_info, file_info ∈ files_info →
     ∃ data, stat (fs w) (downloads_dir_of ++ [rec_filename file_info]) = Some (KFile data) ∧
             stat (fs w') (private_dir od ++ [rec_filename file_info]) = Some (KFile data)) ∧
  (∀ k, k ≠ [] → ¬ ["server"] `prefix_of` k → k ≠ ["private"] →
        (∀ file_info, file_info ∈ files_info → k ≠ ["private"; rec_filename file_info]) →
        stat (fs w') (version_dir od ++ k) = None).
Proof.
  unfold stage_output.
  intros (present & w0 & [= <- <-] & Hrun)%bind_ok Hempty Hapart Hnames.
  apply bind_ok in Hrun as ([] & wa & Hmk & Hrun).
  apply bind_ok in Hrun as ([] & wb & Hcopy & Hrun).
  apply bind_ok in Hrun as (present' & wb' & [= <- <-] & Hrun).
  apply bind_ok in Hrun as ([] & wc & Hpriv & Hrun).
  set (V := version_dir od) in *. set (srv := script_dir ++ ["server"]) in *.
  assert (∀ k, k ≠ [] → ¬ (V ++ k) `prefix_of` V) as Hbelow.
  { intros k Hk Hpre%prefix_length. rewrite length_app in Hpre.
    destruct k; [done|]. simpl in Hpre. lia. }
  assert (unchanged_off (λ q, q `prefix_of` V) (fs w) (fs wa)) as Hfr_a.
  { eapply (frames_when _ _ _ (frames_on_fs _ _ (os_makedirs_frame _))). exact Hmk. }
  assert (∀ n k, n ∈ source_names →
                 stat (fs wa) (script_dir ++ n :: k) = stat (fs w) (script_dir ++ n :: k))
    as Hsrc_a.
  { intros n k Hn. apply Hfr_a. intros Hq.
    apply (source_below_version_dir od n k [] Hapart Hn). rewrite app_nil_r. by left. }
  assert (stat (fs wa) srv = Some KDir) as Hsrv.
  { unfold copy_server_content in Hcopy. apply bind_ok in Hcopy as (found & w1 & Hfind & _).
    by apply find_files_in_subdir_ok in Hfind as (_ & ? & _). }
  assert (stat (fs wa) V = Some KDir) as HV.
  { destruct (path_exists (fs w) V) eqn:Hpres; cbn [negb when] in Hmk.
    - injection Hmk as <-. apply path_exists_stat in Hpres as [kd Hkd].
      destruct kd as [d|]; [exfalso|done].
      assert (stat (fs wb) V = Some (KFile d)) as Hfile.
      { eapply copy_server_content_keeps; [exact Hcopy| |done].
        intros Hpre%prefix_length. rewrite length_app in Hpre. simpl in Hpre. lia. }
      assert (stat (fs wb) (private_dir od) = None) as Hnone.
      { unfold private_dir. fold V. apply below_non_dir; [congruence|done]. }
      rewrite (proj2 (path_exists_false _ _) Hnone) in Hpriv. cbn [negb when] in Hpriv.
      rewrite on_fs_run in Hpriv. injection Hpriv as Hok Hwc.
      destruct (path_mkdir true false (private_dir od) (fs wb)) as [r tc] eqn:Hpm.
      cbn [fst snd] in *. subst r.
      pose proof (path_mkdir_keeps _ _ _ _ _ _ _ _ Hpm Hfile) as Hfile'.
      apply path_mkdir_spec in Hpm as [_ HP]. specialize (HP eq_refl).
      assert (stat tc V = Some KDir); [|congruence].
      apply (stat_below_dir _ _ ["private"]); [|done]. unfold private_dir in HP.
      fold V in HP. by rewrite HP.
    - rewrite on_fs_run in Hmk. injection Hmk as Hok <-. cbn [fs].
      apply (os_makedirs_ok V (fs w)).
      destruct (os_makedirs V (fs w)) as [[[]|?] ?]; cbn [fst snd] in *; congruence. }
  destruct (copy_server_content_fresh V script_dir wa) as (wb2 & Hcopy2 & Hfiles & _ & Hfr_b & _).
  { done. }
  { rewrite Hfr_a; [by apply Hempty|by apply Hbelow]. }
  { done. }
  { intros k Hk. apply Hnames. unfold srv in *. rewrite <-app_assoc in *.
    cbn [app] in *. by rewrite <-Hsrc_a by (apply source_names_elem; auto). }
  rewrite Hcopy in Hcopy2. injection Hcopy2 as <-.
  set (P := private_dir od) in *.
  assert (P = V ++ ["private"]) as HPV by done.
  assert (∀ k, k ≠ [] → ¬ ["server"] `prefix_of` k →
               stat (fs wb) (V ++ k) = None) as Hnone_b.
  { intros k Hk Hserver. rewrite Hfr_b, Hfr_a; [by apply Hempty|by apply Hbelow|].
    intros Hq. by apply prefix_app_inv in Hq. }
  assert (stat (fs wb) P = None) as Hpriv_b.
  { rewrite HPV. apply Hnone_b; [done|]. by intros ?%prefix_cons_inv_1. }
  rewrite (proj2 (path_exists_false _ _) Hpriv_b) in Hpriv. cbn [negb when] in Hpriv.
  rewrite on_fs_run in Hpriv. injection Hpriv as Hok Hwc.
  destruct (path_mkdir true false P (fs wb)) as [r tc] eqn:Hpm.
  cbn [fst snd] in *. subst r.
  assert (fs wc = tc) as Hfs_c by by subst wc.
  apply path_mkdir_spec in Hpm as [Hfr_c HP]. specialize (HP eq_refl).
  rewrite <-Hfs_c in Hfr_c, HP. clear Hwc Hfs_c tc.
  assert (∀ k, k ≠ [] → ¬ (P ++ k) `prefix_of` P) as Hbelow_P.
  { intros k Hk Hpre%prefix_length. rewrite length_app in Hpre.
    destruct k; [done|]. simpl in Hpre. lia. }
  destruct (copy_archives_ok _ _ _ _ _ Hrun) as [Harch Hfr_d].
  { intros Heq. apply (source_below_version_dir od "downloads" [] ["private"] Hapart).
    - apply source_names_elem. auto.
    - left. fold V. rewrite <-HPV, <-Heq. done. }
  { intros name. rewrite Hfr_c by by apply Hbelow_P.
    rewrite HPV, <-app_assoc, Hnone_b; [done|done|]. by intros ?%prefix_cons_inv_1. }
  assert (∀ q, (∀ name, q ≠ P ++ [name]) → stat (fs w') q = stat (fs wc) q) as Hfr_d'.
  { intros q Hq. apply Hfr_d. intros (fi & -> & _)%list_elem_of_fmap. by apply (Hq (rec_filename fi)). }
  split; [|split; [|split]].
  - rewrite Hfr_d'; [done|]. intros name Heq%(f_equal length).
    rewrite length_app in Heq. simpl in Heq. lia.
  - intros k d. rewrite Hfr_d'.
    2:{ intros name. rewrite HPV, <-app_assoc. intros Heq%app_inv_head. done. }
    rewrite Hfr_c.
    2:{ rewrite HPV. intros Hq%prefix_app_inv%prefix_cons_inv_1. done. }
    specialize (Hfiles k d). rewrite <-app_assoc in Hfiles. cbn [app] in Hfiles.
    rewrite Hfiles, Hsrc_a by (apply source_names_elem; auto).
    unfold srv.
    split; intros [Hd [rel Hrel]]; (split; [done|]); exists rel;
      (eapply selected_same_files; [|exact Hrel]); intros q [j ->];
      unfold isfile; rewrite <-app_assoc; cbn [app];
      by rewrite Hsrc_a by (apply source_names_elem; auto).
  - intros fi Hfi. destruct (Harch fi Hfi) as (data & Hsrc & Hdst). exists data.
    split; [|done]. rewrite <-Hsrc. unfold downloads_dir_of. rewrite <-app_assoc. cbn [app].
    assert (∀ j, ¬ comparable (V ++ j) (script_dir ++ ["downloads"; rec_filename fi])) as Hdl.
    { intros j. apply source_below_version_dir; [done|]. apply source_names_elem. auto. }
    rewrite Hfr_c.
    2:{ intros Hq. apply (Hdl ["private"]). by left. }
    rewrite Hfr_b.
    2:{ intros Hq. apply (Hdl ["server"]). by right. }
    symmetry. by apply Hsrc_a, source_names_elem; auto.
  - intros k Hk Hserver Hprivate Hnames'. rewrite Hfr_d.
    2:{ intros (fi & Heq & Hin)%list_elem_of_fmap. rewrite HPV, <-app_assoc in Heq.
        apply app_inv_head in Heq. by apply (Hnames' fi). }
    rewrite Hfr_c; [by apply Hnone_b|].
    rewrite HPV. intros Hq%prefix_app_inv. destruct k as [|n [|m k]]; [done| |].
    + apply prefix_cons_inv_1 in Hq. congruence.
    + apply prefix_length in Hq. simpl in Hq. lia.
Qed.

(** *** The package, described from the sources

    What the version directory of a package is to hold, by path below the
    version directory: under [server] the files of the addon's [server]
    directory that the patterns do not exclude; [private/client.zip], an
    archive of the files of [client] that the patterns do not exclude, each
    under its relative path; the manifest [private/files_info.json], the
    records of the source spec; and, beside it, the USD archives from the
    downloads directory, each with the checksum the source spec declares. *)
Inductive package_file (t : node) : path → bytes → Prop :=
  | package_server_file dirs name data :
      resolve t (script_dir ++ "server" :: dirs ++ [name]) = Some (File data) →
      ¬ excluded IGNORE_FILE_PATTERNS name →
      Forall (λ dir, ¬ excluded IGNORE_DIR_PATTERNS dir) dirs →
      package_file t ("server" :: dirs ++ [name]) data
  | package_client_archive found members :
      (∀ p rel, (p, rel) ∈ found ↔
         wanted t IGNORE_FILE_PATTERNS IGNORE_DIR_PATTERNS (script_dir ++ ["client"]) p rel) →
      NoDup found.*1 →
      Forall2 (λ x member, member.1 = x.2 ∧ resolve t x.1 = Some (File member.2))
              found members →
      package_file t ["private"; "client.zip"] (zip_bytes members)
  | package_manifest :
      package_file t ["private"; "files_info.json"] (json_dumps (records_of USD_SOURCES))
  | package_usd_archive item H data :
      item ∈ all_items USD_SOURCES →
      resolve t (downloads_dir_of ++ [str_last_segment (url item.2)]) = Some (File data) →
      hashlib (checksum_algorithm item.2) = Some H →
      digest H data = checksum item.2 →
      package_file t ["private"; str_last_segment (url item.2)] data.

(** A container (a directory, an archive) holds the package when every
    file in it is a file of the package, every server file, the manifest and
    every USD archive is in it, and a client archive is in it. *)
Definition package_contents (t : node) (holds : path → bytes → Prop) : Prop :=
  (∀ k data, holds k data → package_file t k data) ∧
  (∀ k data, package_file t k data → k ≠ ["private"; "client.zip"] → holds k data) ∧
  (∃ data, holds ["private"; "client.zip"] data).

(** The version directory holds the package. *)
Definition package_on_disk (output_dir : option path) (t : node) : Prop :=
  package_contents t (λ k data, stat t (version_dir output_dir ++ k) = Some (KFile data)).

(** The distributable archive holds [package.py] and then the package, each
    file once, under its path relative to the version directory. *)
Definition package_archived (output_dir : option path) (t : node) : Prop :=
  ∃ kind (entries : list (path * bytes)),
    stat t (script_dir ++ ["package.py"]) = Some kind ∧
    stat t (archive_path output_dir)
    = Some (KFile (zip_bytes (member_of kind "package.py" ::
                              ((λ e, (sep_join os_sep e.1, e.2)) <$> entries)))) ∧
    NoDup entries.*1 ∧
    package_contents t (λ k data, (k, data) ∈ entries).

(** Two disks with the same sources. *)
Definition same_sources (t t' : node) : Prop :=
  ∀ n k, n ∈ source_names → stat t' (script_dir ++ n :: k) = stat t (script_dir ++ n :: k).

Lemma same_sources_sym t t' : same_sources t t' → same_sources t' t.
Proof. intros Hs n k Hn. by rewrite Hs. Qed.

Lemma same_sources_trans t1 t2 t3 :
  same_sources t1 t2 → same_sources t2 t3 → same_sources t1 t3.
Proof. intros H12 H23 n k Hn. by rewrite H23, H12. Qed.

Lemma same_sources_resolve t t' n k data :
  same_sources t t' → n ∈ source_names →
  resolve t (script_dir ++ n :: k) = Some (File data) →
  resolve t' (script_dir ++ n :: k) = Some (File data).
Proof. intros Hs Hn Hres. apply stat_resolve_file. rewrite Hs by done. by apply stat_resolve_file. Qed.

Lemma wanted_same_sources t t' n file_patterns dir_patterns p rel :
  same_sources t t' → n ∈ source_names →
  wanted t file_patterns dir_patterns (script_dir ++ [n]) p rel →
  wanted t' file_patterns dir_patterns (script_dir ++ [n]) p rel.
Proof.
  intros Hs Hn (dirs & name & data & -> & -> & Hres & Hfile & Hdirs).
  exists dirs, name, data. repeat split; try done.
  rewrite <-app_assoc in *. by apply (same_sources_resolve t).
Qed.

Lemma package_file_same_sources t t' k data :
  same_sources t t' → package_file t k data → package_file t' k data.
Proof.
  intros Hs Hfile.
  assert ("downloads" ∈ source_names ∧ "server" ∈ source_names ∧ "client" ∈ source_names)
    as (Hdownloads & Hserver & Hclient) by (rewrite !source_names_elem; auto 6).
  destruct Hfile as [dirs name data Hres Hname Hdirs|found members Hfound Hnodup Hmembers|
                     |item H data Hitem Hres HH Hdig].
  - apply package_server_file; [|done..]. by apply (same_sources_resolve t).
  - apply package_client_archive with found; [|done|].
    + intros p rel. rewrite Hfound.
      split; apply wanted_same_sources; [done|done|by apply same_sources_sym|done].
    + eapply Forall2_impl_elem; [exact Hmembers|]. cbn beta.
      intros [p rel] m Hin [Hm Hres]. split; [done|].
      apply Hfound in Hin as (dirs & name & data & Hp & _). cbn [fst] in *. subst p.
      rewrite <-app_assoc in *. by apply (same_sources_resolve t).
  - apply package_manifest.
  - apply package_usd_archive with H; [done| |done..].
    unfold downloads_dir_of in *. rewrite <-app_assoc in *.
    by apply (same_sources_resolve t).
Qed.

Lemma package_contents_same_sources t t' holds :
  same_sources t t' → package_contents t holds → package_contents t' holds.
Proof.
  intros Hs (Hsound & Hcomplete & Hclient). split; [|split; [|done]].
  - intros k data Hk. by apply (package_file_same_sources t), Hsound.
  - intros k data Hk. apply Hcomplete. apply (package_file_same_sources t'); [|done].
    by apply same_sources_sym.
Qed.

Lemma write_manifest_ok od files_info w w' :
  write_manifest od files_info w = (Ok tt, w') →
  stat (fs w') (manifest_path od) = Some (KFile (json_dumps files_info)) ∧
  ∀ q, q ≠ manifest_path od → stat (fs w') q = stat (fs w) q.
Proof.
  unfold write_manifest. rewrite on_fs_run. intros [= Hok <-]. cbn [fs].
  destruct (write_file _ _ (fs w)) as [r t'] eqn:Hw. cbn [fst snd] in *. subst r.
  split; [by eapply write_file_ok|by eapply write_file_exact].
Qed.

Lemma archive_names_fresh item :
  item ∈ all_items USD_SOURCES →
  str_last_segment (url item.2) ≠ "client.zip" ∧
  str_last_segment (url item.2) ≠ "files_info.json".
Proof.
  intros Hitem. unfold all_items in Hitem. cbn in Hitem.
  rewrite !elem_of_cons, elem_of_nil in Hitem.
  destruct Hitem as [->|[->|[]]]; split; intros Heq; by vm_compute in Heq.
Qed.

Lemma fill_client_version_ok current_dir w w' :
  _fill_client_version current_dir w = (Ok tt, w') →
  stat (fs w') (current_dir ++ ["client"; ADDON_CLIENT_DIR; "version.py"])
  = Some (KFile (bytes_of_string (CLIENT_VERSION_CONTENT ADDON_NAME ADDON_VERSION))).
Proof.
  unfold _fill_client_version. rewrite on_fs_run. intros [= Hok <-]. cbn [fs].
  eapply write_file_ok. destruct (write_file _ _ (fs w)) as [[[]|?] ?] eqn:Hw; [exact Hw|done].
Qed.

Lemma elem_of_records_of fi :
  fi ∈ records_of USD_SOURCES ↔ ∃ item, fi = record_of item ∧ item ∈ all_items USD_SOURCES.
Proof.
  rewrite records_of_items, list_elem_of_In, in_map_iff.
  split; intros (item & Heq & Hin); exists item; split; try done;
    by apply list_elem_of_In.
Qed.

(** *** The version directory before the last step *)
Lemma main_builds_package od skip_zip keep_sources w w' :
  main od skip_zip keep_sources w = (Ok tt, w') →
  output_apart od →
  names_below_ok (fs w) (script_dir ++ ["server"]) →
  ∃ w5,
    finish od skip_zip keep_sources w5 = (Ok tt, w') ∧
    package_on_disk od (fs w5) ∧
    names_below_ok (fs w5) (script_dir ++ ["server"]).
Proof.
  intros (files_info & w1 & w2 & w3 & w4 & w5 & H1 & H2 & H3 & H4 & H5 & H6)%main_ok_inv
         Hapart Hnames.
  exists w5. split; [done|].
  pose proof (download_phase_ok_cached _ _ _ H1) as [-> Hcached].
  rewrite stage_split in H3. apply bind_ok in H3 as ([] & wv & Hfill & H3).
  set (V := version_dir od) in *.
  assert ("downloads" ∈ source_names ∧ "server" ∈ source_names ∧ "client" ∈ source_names)
    as (Hdownloads & Hserver & Hclient) by (rewrite !source_names_elem; auto 6).
  assert (∀ n k j, n ∈ source_names → ¬ comparable (V ++ j) (script_dir ++ n :: k)) as Hsrc.
  { intros n k j Hn. by apply source_below_version_dir. }
  (* the sources, phase by phase *)
  assert (∀ n k, n ∈ source_names → n ≠ "downloads" →
                 stat (fs w1) (script_dir ++ n :: k) = stat (fs w) (script_dir ++ n :: k))
    as Hs1.
  { intros n k Hn Hne. apply (download_phase_frame _ _ _ H1).
    unfold downloads_dir_of. by apply diverge_names. }
  assert (same_sources (fs w1) (fs w2)) as Hs2.
  { intros n k Hn. apply (frames_purge_step_below _ _ _ _ H2). intros Hq.
    apply (output_apart_below od n [] k Hapart Hn). rewrite app_nil_r. by right. }
  assert (∀ n k, n ∈ source_names → n ≠ "client" →
                 stat (fs wv) (script_dir ++ n :: k) = stat (fs w2) (script_dir ++ n :: k))
    as Hsv.
  { intros n k Hn Hne. apply (frames_fill_client_version _ _ _ _ Hfill).
    by apply diverge_names. }
  assert (same_sources (fs wv) (fs w3)) as Hs3.
  { intros n k Hn. apply (frames_stage_output _ _ _ _ _ H3).
    specialize (Hsrc n k [] Hn). by rewrite app_nil_r in Hsrc. }
  apply write_manifest_ok in H4 as [Hmanifest Hexact4].
  assert (manifest_path od = V ++ ["private"; "files_info.json"]) as HM.
  { unfold manifest_path, private_dir. by rewrite <-app_assoc. }
  assert (same_sources (fs w3) (fs w4)) as Hs4.
  { intros n k Hn. apply Hexact4. rewrite HM. intros Heq.
    apply (Hsrc n k ["private"; "files_info.json"] Hn). left. by rewrite Heq. }
  assert (same_sources (fs w4) (fs w5)) as Hs5.
  { intros n k Hn. apply (frames_zip_client_side _ _ _ _ _ H5).
    intros [Hq|Hq]; [apply (Hsrc n k ["private"] Hn)|
                     apply (Hsrc n k ["private"; "client.zip"] Hn)]; [by left|by right]. }
  assert (same_sources (fs wv) (fs w5)) as Hsrc5.
  { eapply same_sources_trans; [exact Hs3|]. eapply same_sources_trans; [exact Hs4|done]. }
  (* the server tree is the one the run began with *)
  assert (∀ k, stat (fs wv) (script_dir ++ "server" :: k)
               = stat (fs w) (script_dir ++ "server" :: k)) as Hserver_v.
  { intros k. by rewrite Hsv, Hs2, Hs1. }
  assert (names_below_ok (fs wv) (script_dir ++ ["server"])) as Hnames_v.
  { intros k Hk. apply Hnames. rewrite <-app_assoc in *. cbn [app] in *.
    by rewrite <-Hserver_v. }
  split.
  2:{ intros k Hk. apply Hnames_v. rewrite <-app_assoc in *. cbn [app] in *.
      by rewrite <-Hsrc5. }
  (* the staging *)
  destruct (stage_output_layout od _ _ _ H3) as (Hprivate & Hserver3 & Harchives & Hnone3).
  { intros k Hk. rewrite (frames_fill_client_version _ _ _ _ Hfill).
    - by apply (purge_step_clears_version_dir od w1 w2).
    - intros Hq. apply (Hsrc "client" [ADDON_CLIENT_DIR; "version.py"] k Hclient). by left. }
  { done. }
  { done. }
  set (P := private_dir od) in *.
  assert (P = V ++ ["private"]) as HPV by done.
  (* the client archive *)
  assert (stat (fs w4) (script_dir ++ ["client"]) = Some KDir) as Hclient_dir.
  { rewrite Hs4, Hs3 by done.
    apply (stat_below_dir _ _ [ADDON_CLIENT_DIR; "version.py"]); [|done].
    rewrite <-app_assoc. cbn [app]. rewrite (fill_client_version_ok _ _ _ Hfill). by eexists. }
  destruct (zip_client_side_members V script_dir w4 w5)
    as (found & members & Hfound & Hnodup & Hmembers & Hzip & Hexact5).
  { intros Hq. apply (Hsrc "client" [] ["private"; "client.zip"] Hclient). by left. }
  { done. }
  { done. }
  assert (stat (fs w5) P = Some KDir) as HP5.
  { apply (stat_below_dir _ _ ["client.zip"]); [|done].
    rewrite HPV, <-app_assoc. cbn [app]. rewrite Hzip. by eexists. }
  assert (stat (fs w5) V = Some KDir) as HV5.
  { apply (stat_below_dir _ _ ["private"]); [|done]. rewrite <-HPV, HP5. by eexists. }
  assert (∀ k, k ≠ [] → k ≠ ["private"] → k ≠ ["private"; "client.zip"] →
               k ≠ ["private"; "files_info.json"] →
               stat (fs w5) (V ++ k) = stat (fs w3) (V ++ k)) as Hrest.
  { intros k Hk1 Hk2 Hk3 Hk4. rewrite Hexact5, Hexact4.
    - done.
    - rewrite HM. by intros ?%app_inv_head.
    - intros Hq%prefix_app_inv. destruct k as [|n [|m k]]; [done| |].
      + apply prefix_cons_inv_1 in Hq. congruence.
      + apply prefix_length in Hq. simpl in Hq. lia.
    - by intros ?%app_inv_head. }
  assert (stat (fs w5) (V ++ ["private"; "files_info.json"])
          = Some (KFile (json_dumps (records_of USD_SOURCES)))) as Hmanifest5.
  { rewrite Hexact5.
    - by rewrite <-HM.
    - intros Hq%prefix_app_inv%prefix_length. simpl in Hq. lia.
    - by intros ?%app_inv_head. }
  assert (∀ item data, item ∈ all_items USD_SOURCES →
            stat (fs w3) (V ++ ["private"; str_last_segment (url item.2)]) = Some (KFile data) ↔
            resolve (fs w5) (downloads_dir_of ++ [str_last_segment (url item.2)])
            = Some (File data)) as Harchive3.
  { intros item data Hitem.
    destruct (Harchives (record_of item)) as (data' & Hsrc' & Hdst').
    { apply elem_of_records_of. by exists item. }
    cbn [record_of rec_filename] in *. rewrite HPV, <-app_assoc in Hdst'. cbn [app] in Hdst'.
    rewrite Hdst', <-stat_resolve_file. unfold downloads_dir_of in *.
    rewrite <-app_assoc in *. cbn [app] in *. by rewrite Hsrc5, Hsrc'. }
  split; [|split].
  - intros k data Hk. cbn beta in Hk. fold V in Hk.
    destruct (decide (k = ["private"; "client.zip"])) as [->|Hzipne].
    { rewrite Hzip in Hk. injection Hk as <-. apply package_client_archive with found; [|done|].
      - intros p rel. rewrite Hfound, selected_wanted.
        split; apply wanted_same_sources; [done|done|by apply same_sources_sym|done].
      - eapply Forall2_impl_elem; [exact Hmembers|]. cbn beta.
        intros [p rel] m Hin [Hm Hst]. split; [done|].
        apply Hfound, selected_wanted in Hin as (dirs & name & data' & Hp & _).
        cbn [fst] in *. subst p. rewrite <-app_assoc in *. cbn [app] in *.
        apply stat_resolve_file. by rewrite Hs5. }
    destruct (decide (k = ["private"; "files_info.json"])) as [->|Hmne].
    { rewrite Hmanifest5 in Hk. injection Hk as <-. apply package_manifest. }
    assert (k ≠ []) as Hk1 by (intros ->; rewrite app_nil_r in Hk; congruence).
    assert (k ≠ ["private"]) as Hk2 by (intros ->; rewrite <-HPV in Hk; congruence).
    rewrite Hrest in Hk by done.
    destruct (decide (["server"] `prefix_of` k)) as [[k' ->]|Hnoserver].
    { cbn [app] in Hk.
      apply Hserver3 in Hk
        as [Hd [rel (dirs & name & data' & Hp & _ & _ & Hname & Hdirs)%selected_wanted]].
      rewrite <-app_assoc in Hp. apply app_inv_head in Hp. cbn [app] in Hp.
      injection Hp as ->. cbn [app]. apply package_server_file; [|done..].
      apply stat_resolve_file. by rewrite Hsrc5. }
    destruct (decide (k ∈ (λ fi, ["private"; rec_filename fi]) <$> records_of USD_SOURCES))
      as [Hin|Hnotin].
    { apply list_elem_of_fmap in Hin as (fi & -> & (item & -> & Hitem)%elem_of_records_of).
      cbn [record_of rec_filename] in *.
      rewrite Forall_forall in Hcached.
      destruct (Hcached item Hitem) as (H & data'' & HH & Hres & Hdig).
      apply Harchive3 in Hk; [|done].
      apply package_usd_archive with H; [done..|].
      assert (data'' = data) as <-; [|done].
      unfold zip_path_of, downloads_dir_of in *. rewrite <-app_assoc in *. cbn [app] in *.
      apply stat_resolve_file in Hk, Hres.
      rewrite Hsrc5, Hsv, Hs2, Hres in Hk by done. by injection Hk. }
    rewrite Hnone3 in Hk; [done..|].
    intros fi Hfi ->. apply Hnotin, list_elem_of_fmap. by exists fi.
  - intros k data Hfile Hk. cbn beta. fold V.
    destruct Hfile as [dirs name data Hres Hname Hdirs|found' members' _ _ _|
                       |item H data Hitem Hres HH Hdig].
    + rewrite (Hrest ("server" :: dirs ++ [name])) by done. apply Hserver3.
      assert (stat (fs wv) (script_dir ++ "server" :: dirs ++ [name]) = Some (KFile data))
        as Hd by (rewrite <-Hsrc5 by done; by apply stat_resolve_file).
      split; [done|]. exists (sep_join os_sep (dirs ++ [name])). apply selected_wanted.
      exists dirs, name, data. split; [by rewrite <-app_assoc|]. split; [done|].
      split; [by apply stat_resolve_file|done].
    + done.
    + exact Hmanifest5.
    + destruct (archive_names_fresh item Hitem) as [Hn1 Hn2].
      rewrite Hrest; [by apply Harchive3|done|done|congruence|congruence].
  - exists (zip_bytes members). exact Hzip.
Qed.

(** *** The distributable archive, from the version directory *)

Lemma package_contents_iff t (holds holds' : path → bytes → Prop) :
  (∀ k data, holds k data ↔ holds' k data) →
  package_contents t holds → package_contents t holds'.
Proof.
  intros Hiff (Hsound & Hcomplete & [data Hclient]). split; [|split].
  - intros k d Hk. by apply Hsound, Hiff.
  - intros k d Hk Hne. by apply Hiff, Hcomplete.
  - exists data. by apply Hiff.
Qed.

Lemma name_ok_nonempty n : name_ok n = true → n ≠ "".
Proof.
  unfold name_ok. intros [Hn _]%andb_true_iff Heq.
  apply negb_true_iff, bool_decide_eq_false in Hn. done.
Qed.

(** No directory on the way to a file of the package has an empty name. *)
Lemma package_file_dirs t k data dirs filename :
  names_below_ok t (script_dir ++ ["server"]) →
  package_file t k data → k = dirs ++ [filename] → Forall (λ d, d ≠ "") dirs.
Proof.
  intros Hnames Hfile Hk.
  assert (∀ x : string, ["private"; x] = dirs ++ [filename] → Forall (λ d, d ≠ "") dirs)
    as Hprivate.
  { intros x Heq. change ["private"; x] with (["private"] ++ [x]) in Heq.
    apply app_inj_tail in Heq as [<- _]. by constructor. }
  destruct Hfile as [dirs0 name data Hres Hname Hdirs| | |]; [|by eapply Hprivate..].
  change ("server" :: dirs0 ++ [name]) with (("server" :: dirs0) ++ [name]) in Hk.
  apply app_inj_tail in Hk as [<- _]. constructor; [done|].
  assert (Forall (λ n, name_ok n = true) (dirs0 ++ [name])) as Hok.
  { apply Hnames. rewrite <-app_assoc. cbn [app]. apply stat_resolve_file in Hres.
    by rewrite Hres. }
  apply Forall_app in Hok as [Hok _]. eapply Forall_impl; [exact Hok|].
  intros n. apply name_ok_nonempty.
Qed.

(** The members of an archive made of files below [V], each under its
    relative path, as entries: relative path and bytes. *)
Lemma archive_entries (V : path) t (files : list (path * string)) members :
  Forall2 (λ x member, member.1 = x.2 ∧ stat t x.1 = Some (KFile member.2)) files members →
  Forall (λ x, ∃ k, x.1 = V ++ k ∧ x.2 = sep_join os_sep k) files →
  ∃ entries : list (path * bytes),
    members = (λ e, (sep_join os_sep e.1, e.2)) <$> entries ∧
    files.*1 = (λ e, V ++ e.1) <$> entries ∧
    Forall (λ e, stat t (V ++ e.1) = Some (KFile e.2)) entries.
Proof.
  induction 1 as [|[src arc] [name data] files members [Hname Hdata] _ IH]; intros Hfiles.
  { by exists []. }
  apply Forall_cons in Hfiles as [(k & Hsrc & Harc) Hfiles].
  destruct (IH Hfiles) as (entries & -> & Hsrcs & Hstats).
  cbn [fst snd] in *. subst. exists ((k, data) :: entries).
  split; [done|]. split; [by rewrite !fmap_cons, Hsrcs|]. by constructor.
Qed.

(** The last step: the archive is made of the version directory, and the
    version directory is removed or kept. *)
Lemma finish_package od skip_zip keep_sources w w' :
  finish od skip_zip keep_sources w = (Ok tt, w') →
  output_apart od →
  names_below_ok (fs w) (script_dir ++ ["server"]) →
  package_on_disk od (fs w) →
  match skip_zip, keep_sources with
  | true, _ => package_on_disk od (fs w')
  | false, true => package_archived od (fs w') ∧ package_on_disk od (fs w')
  | false, false =>
      package_archived od (fs w') ∧ ∀ q, root_dir od `prefix_of` q → stat (fs w') q = None
  end.
Proof.
  unfold finish. intros Hrun Hapart Hnames Hdisk.
  destruct skip_zip; cbn [negb when] in Hrun; [by injection Hrun as <-|].
  apply bind_ok in Hrun as ([] & w1 & Hpkg & Hclean).
  set (V := version_dir od) in *.
  pose proof (create_server_package_members script_dir (out_dir od) V ADDON_VERSION w w1)
    as Hmembers.
  cbn zeta in Hmembers.
  destruct Hmembers
    as (kind & files & members & Hkind & Harchive & Hfiles & Hnodup & Hmembers & Hexact);
    [| |exact Hpkg|].
  { apply (archive_not_under_root od [ADDON_VERSION]). }
  { intros Heq. apply (Hapart "package.py"); [apply source_names_elem; auto 6|].
    right. rewrite Heq. by apply prefix_app_r. }
  fold (archive_path od) in Harchive, Hexact.
  assert (∀ q, ¬ root_dir od `prefix_of` q → stat (fs w') q = stat (fs w1) q) as Hframe'.
  { destruct keep_sources; cbn [negb when] in Hclean; [by injection Hclean as <-|].
    rewrite on_fs_run in Hclean. injection Hclean as _ <-. cbn [fs]. intros q Hq.
    eapply shutil_rmtree_frame; [apply surjective_pairing|done]. }
  assert (same_sources (fs w) (fs w')) as Hsame.
  { intros n k Hn. rewrite Hframe', Hexact; [done| |].
    - intros Heq. apply (output_apart_below od n [package_filename ADDON_VERSION] k Hapart Hn).
      left. fold (archive_path od). by rewrite Heq.
    - intros Hq. apply (output_apart_below od n [ADDON_NAME] k Hapart Hn). by right. }
  pose proof Hdisk as (Hsound & Hcomplete & [zipdata Hclientzip]).
  cbn beta in Hsound, Hcomplete, Hclientzip. fold V in Hsound, Hcomplete, Hclientzip.
  assert (Forall (λ x : path * string, ∃ k, x.1 = V ++ k ∧ x.2 = sep_join os_sep k) files)
    as Hrel.
  { apply Forall_forall. intros [src arc] (dirs & f & -> & [d Hd]%isfile_stat & ->)%Hfiles.
    exists (dirs ++ [f]). split; [done|]. cbn [snd]. apply archive_name_relative.
    eapply package_file_dirs; [exact Hnames| |done]. apply Hsound. exact Hd. }
  destruct (archive_entries V (fs w) files members Hmembers Hrel)
    as (entries & -> & Hsrcs & Hstats).
  rewrite Forall_forall in Hstats.
  assert (∀ k data, stat (fs w) (V ++ k) = Some (KFile data) ↔ (k, data) ∈ entries)
    as Hentries.
  { intros k data. split; [|intros He; apply (Hstats _ He)]. intros Hk.
    assert (∃ dirs f, k = dirs ++ [f]) as (dirs & f & ->).
    { destruct k as [|f dirs _] using rev_ind; [|by eauto]. apply Hsound in Hk. inversion Hk. }
    assert (V ++ dirs ++ [f] ∈ files.*1) as Hin.
    { apply list_elem_of_fmap. exists (V ++ dirs ++ [f], archive_name dirs f).
      split; [done|]. apply Hfiles. exists dirs, f. split; [done|]. split; [|done].
      apply isfile_stat. by exists data. }
    rewrite Hsrcs in Hin. apply list_elem_of_fmap in Hin as ([k' data'] & Heq & He).
    cbn [fst] in Heq. apply app_inv_head in Heq as <-.
    pose proof (Hstats _ He) as Hst. cbn [fst snd] in Hst. rewrite Hk in Hst.
    by injection Hst as ->. }
  assert (package_archived od (fs w')) as Harchived.
  { exists kind, entries. split; [|split; [|split]].
    - rewrite Hframe', Hexact; [done| |].
      + intros Heq. apply (Hapart "package.py"); [apply source_names_elem; auto 6|].
        right. rewrite Heq. by apply prefix_app_r.
      + intros Hq.
        apply (output_apart_below od "package.py" [ADDON_NAME] [] Hapart);
          [apply source_names_elem; auto 6|]. by right.
    - rewrite Hframe'; [exact Harchive|].
      rewrite <-(app_nil_r (root_dir od)). apply archive_not_under_root.
    - apply (NoDup_fmap_1 (app V)). rewrite <-list_fmap_compose.
      by rewrite Hsrcs in Hnodup.
    - apply (package_contents_same_sources (fs w)); [done|].
      eapply package_contents_iff; [|exact Hdisk]. intros k data. cbn beta. fold V.
      apply Hentries. }
  destruct keep_sources; cbn [negb when] in Hclean.
  - split; [done|]. injection Hclean as <-.
    apply (package_contents_same_sources (fs w)); [done|].
    eapply package_contents_iff; [|exact Hdisk]. intros k data. cbn beta. fold V.
    rewrite Hexact; [done|]. intros Heq.
    apply (root_not_under_archive od (ADDON_VERSION :: k)). rewrite <-Heq.
    unfold V, version_dir. by rewrite <-app_assoc.
  - split; [done|]. rewrite on_fs_run in Hclean. injection Hclean as Hok <-. cbn [fs].
    apply (shutil_rmtree_ok (root_dir od) (fs w1)).
    by destruct (shutil_rmtree _ _) as [[[]|?] ?].
Qed.


End Packager.

(** ** A worked example

    A small addon checkout, with a stand-in for [hashlib.sha256] whose
    digest of a byte string is the byte string itself read as text, so that
    archives with the declared checksums can be written down. *)
Module Example.

Definition text_hash : hash_alg :=
  {| hstate := bytes;
     hnew := [];
     hupdate := λ s b, s ++ b;
     hexdigest := String.string_of_list_byte;
     hupdate_nil := λ s, app_nil_r s;
     hupdate_app := λ s a b, eq_sym (app_assoc s a b) |}.

Definition hashlib (name : string) : option hash_alg :=
  if decide (name = "sha256") then Some text_hash else None.

Definition win_zip : string := "usd-24.03_win64_py39.zip".
Definition linux_zip : string := "usd-24.03_linux_py39.zip".
Definition win_checksum : string :=
  "7d7852b9c8e3501e5f64175decc08d70e3bf1c083faaaf2c1a8aa8f9af43ab30".
Definition linux_checksum : string :=
  "27010ad67d5acd25e3c95b1ace4ab30e047b5a9e48082db0545ae44ae7ec9b09".

(** A server that delivers both archives intact, and one that delivers a
    damaged Windows archive. *)
Definition good_server (src_url : string) : option response :=
  if decide (src_url = AYON_SOURCE_URL +:+ "/" +:+ win_zip)
  then Some (Complete (bytes_of_string win_checksum))
  else if decide (src_url = AYON_SOURCE_URL +:+ "/" +:+ linux_zip)
  then Some (Complete (bytes_of_string linux_checksum))
  else None.

Definition bad_server (src_url : string) : option response :=
  if decide (src_url = AYON_SOURCE_URL +:+ "/" +:+ win_zip)
  then Some (Complete (bytes_of_string "damaged"))
  else good_server src_url.

(** The process can allocate blocks of up to 2 GiB. *)
Definition memory : Z := 2 ^ 31.

Definition zip_bytes (members : list (string * bytes)) : bytes :=
  flat_map (λ m, bytes_of_string (m.1 +:+ ":") ++ m.2 ++ bytes_of_string ";") members.

Definition json_dumps (records : list archive_record) : bytes :=
  flat_map (λ r, bytes_of_string (rec_filename r +:+ "@" +:+ rec_platform r +:+ ";")) records.

Definition text (s : string) : node := File (bytes_of_string s).

Definition server_tree : node :=
  Dir [("__init__.py", text "server");
       (".gitignore", text "*.pyc");
       ("settings.pyc", text "compiled");
       ("__pycache__", Dir [("__init__.py", text "cached")]);
       ("settings", Dir [("main.py", text "settings"); (".hidden", Dir [("x.py", text "x")])])].

Definition client_tree : node :=
  Dir [("ayon_usd", Dir [("__init__.py", text "client"); ("version.py", text "old")])].

Definition checkout (extra : entries) : node :=
  Dir [("repo", Dir ([("package.py", text "name = usd");
                     ("server", server_tree)] ++ extra))].

(** A checkout with its client code, both archives cached, and an output
    directory left by earlier runs: this version and an older one. *)
Definition cached_downloads : node :=
  Dir [(win_zip, text win_checksum); (linux_zip, text linux_checksum)].

Definition earlier_output : node :=
  Dir [("usd", Dir [("1.0.0", Dir [("stale.txt", text "stale")]);
                    ("0.9.0", Dir [("keep.txt", text "keep")])])].

Definition full_world : world :=
  World (checkout [("client", client_tree);
                   ("downloads", cached_downloads);
                   ("package", earlier_output)]) [].

(** A fresh checkout: nothing downloaded, nothing built. *)
Definition fresh_world : world := World (checkout [("client", client_tree)]) [].

(** A checkout without client code, archives cached. *)
Definition clientless_world : world :=
  World (checkout [("downloads", cached_downloads)]) [].

Definition run_main (server : string → option response) :=
  main "usd" "1.0.0" "ayon_usd" ["repo"] "/" hashlib server zip_bytes json_dumps memory.

Definition walk (src_path : path) := find_files_in_subdir "/" src_path None None.

Example walk_server :
  (walk ["repo"; "server"] full_world).1
  = Ok [(["repo"; "server"; "__init__.py"], "__init__.py");
        (["repo"; "server"; "settings"; "main.py"], "settings/main.py")].
Proof. vm_compute. reflexivity. Qed.

(** *** The walker on the example *)
Lemma find_files_in_subdir_exact_witness :
  ∃ output,
    walk ["repo"; "server"] full_world = (Ok output, full_world) ∧
    (∀ p rel,
       (p, rel) ∈ output ↔
       wanted "/" (fs full_world) IGNORE_FILE_PATTERNS IGNORE_DIR_PATTERNS
              ["repo"; "server"] p rel) ∧
    NoDup output.*1.
Proof.
  apply (find_files_in_subdir_exact "/" ["repo"; "server"] None None full_world).
  vm_compute. reflexivity.
Defined.

(** *** Checksums on the example *)
Definition one_file (data : bytes) : world := World (Dir [("f", File data)]) [].



(** *** [safe_copy_file] on the example *)
Lemma safe_copy_file_suppresses_directory_errors_witness :
  let src_path := ["repo"; "server"; "__init__.py"] in
  let dst_path := ["repo"; "package"; "usd"; "1.0.0"; "copy.py"] in
  os_makedirs (parent dst_path) (fs full_world) = (Raise FileExistsError, fs full_world) ∧
  safe_copy_file src_path dst_path full_world
  = on_fs (shutil_copy src_path dst_path) full_world.
Proof.
  apply (proj1 (proj2 (safe_copy_file_suppresses_directory_errors
                         ["repo"; "server"; "__init__.py"]
                         ["repo"; "package"; "usd"; "1.0.0"; "copy.py"] full_world
                         ltac:(discriminate) ltac:(discriminate)))).
  reflexivity.
Defined.

(** C6 as stated fails: it has every failure of the directory creation but
    that of an existing directory abort the call with that failure.  Where
    a regular file stands on the way to the destination directory,
    [os.makedirs] raises [NotADirectoryError]; the error is dropped like any
    other, the copy is attempted, and with the source missing the caller
    sees the [FileNotFoundError] of the copy. *)
Lemma makedirs_error_is_dropped_counterexample :
  ¬ (∀ src_path dst_path w e t1,
       src_path ≠ dst_path →
       os_makedirs (parent dst_path) (fs w) = (Raise e, t1) →
       e ≠ FileExistsError →
       (safe_copy_file src_path dst_path w).1 = Raise e).
Proof.
  intros Hclaim.
  specialize (Hclaim ["repo"; "absent.py"] ["repo"; "package.py"; "sub"; "copy.py"]
                     fresh_world NotADirectoryError (fs fresh_world)).
  vm_compute in Hclaim. specialize (Hclaim ltac:(discriminate) eq_refl ltac:(discriminate)).
  discriminate Hclaim.
Qed.

(** *** The download step on the example *)
Definition windows_item : string * platform_info :=
  ("windows", PlatformInfo (AYON_SOURCE_URL +:+ "/" +:+ win_zip) win_checksum "sha256").
Definition linux_item : string * platform_info :=
  ("linux", PlatformInfo (AYON_SOURCE_URL +:+ "/" +:+ linux_zip) linux_checksum "sha256").

(** The world once the downloads directory has been made. *)
Definition fresh_with_downloads : world :=
  (on_fs (path_mkdir false true ["repo"; "downloads"]) fresh_world).2.

(** Both archives missing and both delivered: the step returns the two
    records, and the Windows archive is on disk afterwards. *)
Lemma download_usd_zip_one_record_per_entry_witness :
  let run := download_usd_zip "usd" hashlib good_server memory ["repo"; "downloads"]
                              fresh_with_downloads in
  run.1 = Ok [record_of "usd" windows_item; record_of "usd" linux_item] ∧
  stat (fs run.2) ["repo"; "downloads"; win_zip]
  = Some (KFile (bytes_of_string win_checksum)).
Proof.
  destruct (proj2 (download_usd_zip_one_record_per_entry
                     "usd" hashlib good_server memory ["repo"; "downloads"]
                     fresh_with_downloads
                     (download_usd_zip "usd" hashlib good_server memory ["repo"; "downloads"]
                                       fresh_with_downloads).1
                     (download_usd_zip "usd" hashlib good_server memory ["repo"; "downloads"]
                                       fresh_with_downloads).2))
    as [(Hreturns & _ & new & _ & Hentries) _].
  - split; [reflexivity|].
    repeat constructor; (by eexists) || (vm_compute; discriminate).
  - vm_compute. reflexivity.
  - split.
    + apply Hreturns.
      apply Forall_cons. split; [|apply Forall_cons; split; [|constructor]]; right.
      * exists text_hash, (bytes_of_string win_checksum). repeat split; reflexivity.
      * exists text_hash, (bytes_of_string linux_checksum). repeat split; reflexivity.
    + destruct (Hentries [] windows_item [linux_item] eq_refl) as [[_ Hfetch] _];
        [constructor|].
      destruct Hfetch as [_ [Hfile _]]; [|exact Hfile].
      intros (H & data & _ & Hfile & _). vm_compute in Hfile. discriminate Hfile.
Defined.

Lemma checksum_mismatch_aborts_before_output_witness :
  ∃ w',
    run_main bad_server None false false fresh_world
      = (Raise (ValueError (mismatch_message "damaged" win_checksum)), w') ∧
    (∀ q, ["repo"; "package"] `prefix_of` q → stat (fs w') q = stat (fs fresh_world) q).
Proof.
  destruct (checksum_mismatch_aborts_before_output
              "usd" "1.0.0" "ayon_usd" ["repo"] "/" hashlib bad_server zip_bytes json_dumps memory
              None false false "24.03" [] windows_item [linux_item]
              fresh_world fresh_with_downloads [] fresh_with_downloads
              text_hash (bytes_of_string "damaged"))
    as (w' & _ & Hmain & _ & _ & Houtput).
  - reflexivity.
  - vm_compute. reflexivity.
  - reflexivity.
  - reflexivity.
  - left. vm_compute. reflexivity.
  - reflexivity.
  - vm_compute. discriminate.
  - exists w'. split; [exact Hmain|]. exact (Houtput eq_refl).
Defined.

(** C3 as stated fails: it has the output directory untouched by a run
    that ends with a checksum mismatch, whatever the output directory.  The
    damaged archive is in the downloads directory by then, and with the
    script's own directory given as [--output] that is inside the output
    directory. *)
Lemma mismatch_leaves_damaged_archive_counterexample :
  ¬ (∀ output_dir skip_zip keep_sources w msg w',
       run_main bad_server output_dir skip_zip keep_sources w = (Raise (ValueError msg), w') →
       ∀ q, out_dir ["repo"] output_dir `prefix_of` q → stat (fs w') q = stat (fs w) q).
Proof.
  intros Hclaim.
  specialize (Hclaim (Some ["repo"]) false false fresh_world
                     (mismatch_message "damaged" win_checksum)
                     (run_main bad_server (Some ["repo"]) false false fresh_world).2
                     ltac:(vm_compute; reflexivity)
                     ["repo"; "downloads"; win_zip] ltac:(by exists ["downloads"; win_zip])).
  vm_compute in Hclaim. discriminate Hclaim.
Qed.

(** *** The flags of [main] on the example *)
Definition after (skip_zip keep_sources : bool) : world :=
  (run_main good_server None skip_zip keep_sources fresh_world).2.

Definition example_archive : path := ["repo"; "package"; "usd-1.0.0.zip"].


(** *** The purge on the example *)
Definition older_version_file : path := ["repo"; "package"; "usd"; "0.9.0"; "keep.txt"].

(** C2 does not hold of the code: the guard looks at the version directory
    and the log line names it, but [shutil.rmtree] is given the whole output
    directory.  An older version kept beside the one being rebuilt is gone
    after the purge, and stays gone to the end of the run. *)
Theorem purge_removes_other_versions :
  stat (fs full_world) older_version_file = Some (KFile (bytes_of_string "keep")) ∧
  isdir (fs full_world) (version_dir "usd" "1.0.0" ["repo"] None) = true ∧
  (∃ w', purge_step "usd" "1.0.0" ["repo"] None full_world = (Ok tt, w') ∧
         stat (fs w') older_version_file = None ∧
         stat (fs w') ["repo"; "package"] = None) ∧
  (∃ w', run_main good_server None true false full_world = (Ok tt, w') ∧
         stat (fs w') older_version_file = None).
Proof.
  split; [reflexivity|]. split; [reflexivity|]. split.
  - eexists. split; [vm_compute; reflexivity|]. split; reflexivity.
  - eexists. split; [vm_compute; reflexivity|]. reflexivity.
Qed.

(** *** A checkout without client code *)

(** C10 does not hold of the code: [zip_client_side] does skip a missing
    client directory, but [main] has by then called [_fill_client_version],
    which opens a file inside that directory and fails. *)
Theorem missing_client_dir_aborts_main :
  isdir (fs clientless_world) ["repo"; "client"] = false ∧
  zip_client_side "/" zip_bytes ["repo"; "package"; "usd"; "1.0.0"] ["repo"] clientless_world
    = (Ok tt, clientless_world) ∧
  (∀ skip_zip keep_sources,
     (run_main good_server None skip_zip keep_sources clientless_world).1
     = Raise FileNotFoundError) ∧
  stat (fs (run_main good_server None false false clientless_world).2)
       ["repo"; "package"] = None.
Proof.
  split; [reflexivity|]. split; [reflexivity|]. split.
  - by intros [] []; vm_compute.
  - reflexivity.
Qed.

(** *** A copy into directories that are not there yet *)
Lemma safe_copy_file_creates_directories_witness :
  let src_path := ["repo"; "server"; "__init__.py"] in
  let dst_path := ["repo"; "out"; "a"; "b"; "copy.py"] in
  ∃ w',
    safe_copy_file src_path dst_path fresh_world = (Ok tt, w') ∧
    stat (fs w') dst_path = Some (KFile (bytes_of_string "server")) ∧
    stat (fs w') ["repo"; "out"; "a"] = Some KDir.
Proof.
  destruct (safe_copy_file_creates_directories
              ["repo"; "server"; "__init__.py"] ["repo"; "out"; "a"; "b"; "copy.py"]
              fresh_world (bytes_of_string "server"))
    as (w' & Hrun & Hdst & _ & Hdirs & _).
  - discriminate.
  - discriminate.
  - reflexivity.
  - reflexivity.
  - vm_compute. discriminate.
  - exists w'. split; [exact Hrun|]. split; [exact Hdst|].
    apply Hdirs. by exists ["b"].
Defined.

(** *** A walk that does not start at a directory *)
Lemma find_files_in_subdir_needs_directory_witness :
  ∃ e, walk ["repo"; "package.py"] fresh_world = (Raise e, fresh_world) ∧
       (e = NotADirectoryError ∨ e = FileNotFoundError) ∧
       (is_Some (stat (fs fresh_world) ["repo"; "package.py"]) → e = NotADirectoryError).
Proof.
  apply (proj1 (find_files_in_subdir_needs_directory
                  "/" ["repo"; "package.py"] None None [] [] fresh_world)).
  vm_compute. discriminate.
Defined.

(** *** The order of a walk *)
Definition deep_tree : node :=
  Dir [("a", Dir [("b", Dir [("deep.py", text "3")]); ("mid.py", text "2")]);
       ("top.py", text "1");
       ("z", Dir [("late.py", text "2")])].

Definition deep_world : world := World (Dir [("root", deep_tree)]) [].

Example walk_deep :
  (walk ["root"] deep_world).1
  = Ok [(["root"; "top.py"], "top.py");
        (["root"; "a"; "mid.py"], "a/mid.py");
        (["root"; "z"; "late.py"], "z/late.py");
        (["root"; "a"; "b"; "deep.py"], "a/b/deep.py")].
Proof. vm_compute. reflexivity. Qed.

Lemma find_files_in_subdir_breadth_first_witness :
  StronglySorted by_depth
    [(["root"; "top.py"], "top.py");
     (["root"; "a"; "mid.py"], "a/mid.py");
     (["root"; "z"; "late.py"], "z/late.py");
     (["root"; "a"; "b"; "deep.py"], "a/b/deep.py")].
Proof.
  refine (proj1 (find_files_in_subdir_breadth_first "/" ["root"] None None deep_world
                   _ deep_world _)).
  vm_compute. reflexivity.
Defined.

(** *** The default patterns on the example *)
Lemma default_patterns_skip_hidden_and_compiled_witness :
  ∃ dirs name,
    ["repo"; "server"; "settings"; "main.py"] = ["repo"; "server"] ++ dirs ++ [name] ∧
    "settings/main.py" = sep_join "/" (dirs ++ [name]) ∧
    String.prefix "." name = false ∧
    str_endswith ".pyc" name = false ∧
    Forall (λ d, String.prefix "." d = false ∧ d ≠ "__pycache__") dirs.
Proof.
  apply (default_patterns_skip_hidden_and_compiled "/" ["repo"; "server"] full_world
           [(["repo"; "server"; "__init__.py"], "__init__.py");
            (["repo"; "server"; "settings"; "main.py"], "settings/main.py")]
           full_world).
  - vm_compute. reflexivity.
  - apply elem_of_cons. right. apply elem_of_cons. by left.
Defined.

Lemma pattern_order_is_immaterial_witness :
  find_files_in_subdir "/" ["repo"; "server"]
    (Some [re_leading_dot; re_pyc]) (Some [re_leading_dot; re_pycache]) full_world
  = find_files_in_subdir "/" ["repo"; "server"]
      (Some [re_pyc; re_leading_dot]) (Some [re_pycache; re_leading_dot]) full_world.
Proof.
  apply (pattern_order_is_immaterial "/" ["repo"; "server"]
           [re_leading_dot; re_pyc] [re_pyc; re_leading_dot]
           [re_leading_dot; re_pycache] [re_pycache; re_leading_dot] full_world);
    apply perm_swap.
Defined.

(** *** The version stamp on the example *)
Lemma fill_client_version_regenerates_witness :
  let version_py := ["repo"; "client"; "ayon_usd"; "version.py"] in
  ∃ w',
    _fill_client_version "usd" "1.0.0" "ayon_usd" ["repo"] fresh_world = (Ok tt, w') ∧
    stat (fs fresh_world) version_py = Some (KFile (bytes_of_string "old")) ∧
    stat (fs w') version_py
    = Some (KFile (bytes_of_string (CLIENT_VERSION_CONTENT "usd" "1.0.0"))).
Proof.
  destruct (fill_client_version_regenerates "usd" "1.0.0" "ayon_usd" ["repo"] fresh_world)
    as (w' & Hrun & Hfile & _).
  - reflexivity.
  - vm_compute. discriminate.
  - exists w'. split; [exact Hrun|]. split; [reflexivity|exact Hfile].
Defined.

(** *** Downloads that fail, and downloads that are not needed *)

(** A server that is down, and a checkout with an outdated Windows
    archive. *)
Definition no_server (src_url : string) : option response := None.

Definition stale_world : world :=
  World (checkout [("downloads", Dir [(win_zip, text "outdated")])]) [].

(** A server whose connection breaks after five bytes. *)
Definition flaky_server (src_url : string) : option response :=
  Some (Broken (bytes_of_string "7d785") ContentTooShortError).

Lemma failed_download_leaves_what_arrived_witness :
  let zip_path := ["repo"; "downloads"; win_zip] in
  stat (fs stale_world) zip_path = Some (KFile (bytes_of_string "outdated")) ∧
  (∃ w',
     download_one "usd" hashlib no_server memory ["repo"; "downloads"] [] windows_item
                  stale_world
     = (Raise URLError, w') ∧
     stat (fs w') zip_path = None) ∧
  (∃ w',
     download_one "usd" hashlib flaky_server memory ["repo"; "downloads"] [] windows_item
                  stale_world
     = (Raise ContentTooShortError, w') ∧
     stat (fs w') zip_path = Some (KFile (bytes_of_string "7d785"))).
Proof.
  split; [reflexivity|]. split.
  - destruct (proj2 (proj1 (failed_download_leaves_what_arrived
                              "usd" hashlib no_server memory ["repo"; "downloads"] []
                              windows_item stale_world) eq_refl)
                    text_hash (bytes_of_string "outdated"))
      as (w' & Hrun & Hgone & _).
    + reflexivity.
    + reflexivity.
    + vm_compute. discriminate.
    + exists w'. split; [exact Hrun|exact Hgone].
  - destruct (proj2 (failed_download_leaves_what_arrived
                       "usd" hashlib flaky_server memory ["repo"; "downloads"] []
                       windows_item stale_world)
                    (bytes_of_string "7d785") ContentTooShortError text_hash)
      as (w' & Hrun & Hfile & _).
    + reflexivity.
    + reflexivity.
    + reflexivity.
    + vm_compute. discriminate.
    + intros (H & data & HH & Hfile & Hdig). vm_compute in HH, Hfile.
      injection HH as <-. injection Hfile as <-. vm_compute in Hdig. discriminate Hdig.
    + exists w'. split; [exact Hrun|exact Hfile].
Defined.

(** The disk after the download step has run on the fresh checkout. *)
Definition downloaded : world :=
  (download_usd_zip "usd" hashlib good_server memory ["repo"; "downloads"] fresh_with_downloads).2.

Lemma download_usd_zip_touches_archives_only_witness :
  stat (fs downloaded) ["repo"; "downloads"; "notes.txt"]
  = stat (fs fresh_with_downloads) ["repo"; "downloads"; "notes.txt"].
Proof.
  apply (download_usd_zip_touches_archives_only
           "usd" hashlib good_server memory USD_SOURCES ["repo"; "downloads"] fresh_with_downloads
           (download_usd_zip "usd" hashlib good_server memory ["repo"; "downloads"]
                             fresh_with_downloads).1 downloaded).
  - reflexivity.
  - apply (bool_decide_unpack _). vm_compute. exact I.
Defined.

Lemma download_usd_zip_second_run_is_cached_witness :
  download_usd_zip "usd" hashlib good_server memory ["repo"; "downloads"] downloaded
  = (Ok (records_of "usd" USD_SOURCES), downloaded).
Proof.
  apply (proj2 (download_usd_zip_second_run_is_cached
                  "usd" hashlib good_server memory ["repo"; "downloads"] fresh_with_downloads
                  (records_of "usd" USD_SOURCES) downloaded)).
  vm_compute. reflexivity.
Defined.

(** *** What a full run leaves alone *)
Lemma main_leaves_sources_alone_witness :
  stat (fs (after false false)) ["repo"; "server"; "settings"; "main.py"]
  = stat (fs fresh_world) ["repo"; "server"; "settings"; "main.py"].
Proof.
  destruct (main_leaves_sources_alone
              "usd" "1.0.0" "ayon_usd" ["repo"] "/" hashlib good_server zip_bytes json_dumps memory
              None false false fresh_world
              (run_main good_server None false false fresh_world).1 (after false false))
    as [_ Hsources].
  - vm_compute. reflexivity.
  - destruct (Hsources eq_refl) as [Hserver _]. exact (Hserver ["settings"; "main.py"]).
Defined.

(** *** The archives in the built package *)
Lemma packaged_archives_have_declared_checksums_witness :
  ∃ H data,
    hashlib "sha256" = Some H ∧ digest H data = win_checksum ∧
    stat (fs (after true false)) ["repo"; "package"; "usd"; "1.0.0"; "private"; win_zip]
    = Some (KFile data).
Proof.
  destruct (packaged_archives_have_declared_checksums
              "usd" "1.0.0" "ayon_usd" ["repo"] "/" hashlib good_server zip_bytes json_dumps memory
              true false fresh_world (after true false)) as [Harchives _].
  - vm_compute. reflexivity.
  - left. reflexivity.
  - apply (Harchives windows_item). left.
Defined.

(** *** The client archive of the example *)
Definition client_zipped : world :=
  (zip_client_side "/" zip_bytes ["repo"; "out"] ["repo"] fresh_world).2.

Lemma zip_client_side_archives_selected_files_witness :
  ∃ found members,
    (["repo"; "client"; "ayon_usd"; "__init__.py"], "ayon_usd/__init__.py") ∈ found ∧
    Forall2 (λ (x : path * string) (member : string * bytes),
               member.1 = x.2 ∧ stat (fs fresh_world) x.1 = Some (KFile member.2))
            found members ∧
    stat (fs client_zipped) ["repo"; "out"; "private"; "client.zip"]
    = Some (KFile (zip_bytes members)).
Proof.
  destruct (zip_client_side_archives_selected_files
              "/" zip_bytes ["repo"; "out"] ["repo"] fresh_world client_zipped)
    as (found & members & Hfound & _ & Hmembers & Hzip & _).
  - intros [k Hk]. discriminate Hk.
  - reflexivity.
  - vm_compute. reflexivity.
  - exists found, members. split; [|split; [exact Hmembers|exact Hzip]].
    apply Hfound. exists ["ayon_usd"], "__init__.py".
    split; [reflexivity|]. split; [reflexivity|]. split; [reflexivity|].
    split; [reflexivity|]. repeat constructor.
Defined.

(** *** The package archive of the example *)
Definition packaged : world :=
  (create_server_package "usd" "/" zip_bytes ["repo"] ["repo"; "package"]
                         ["repo"; "package"; "usd"; "1.0.0"] "1.0.0" (after true false)).2.

Lemma create_server_package_archives_version_dir_witness :
  ∃ files members,
    (["repo"; "package"; "usd"; "1.0.0"; "server"; "settings"; "main.py"],
     "server/settings/main.py") ∈ files ∧
    Forall2 (λ (x : path * string) (member : string * bytes),
               member.1 = x.2 ∧ stat (fs (after true false)) x.1 = Some (KFile member.2))
            files members ∧
    stat (fs packaged) example_archive
    = Some (KFile (zip_bytes (("package.py", bytes_of_string "name = usd") :: members))).
Proof.
  destruct (create_server_package_archives_version_dir
              "usd" "/" zip_bytes ["repo"] ["repo"; "package"]
              ["repo"; "package"; "usd"; "1.0.0"] "1.0.0" (after true false) packaged)
    as (k & files & members & Hk & Hzip & Hfiles & _ & Hmembers & _).
  - intros [k Hk]. discriminate Hk.
  - discriminate.
  - vm_compute. reflexivity.
  - vm_compute in Hk. injection Hk as <-. exists files, members.
    split; [|split; [exact Hmembers|exact Hzip]].
    apply Hfiles. exists ["server"; "settings"], "main.py".
    split; [reflexivity|]. split; vm_compute; reflexivity.
Defined.

(** *** The server code copied into an output directory *)
Lemma copy_server_content_mirrors_selected_witness :
  ∃ w',
    copy_server_content "/" ["repo"; "client"] ["repo"] fresh_world = (Ok tt, w') ∧
    stat (fs w') ["repo"; "client"; "server"; "settings"; "main.py"]
    = Some (KFile (bytes_of_string "settings")) ∧
    stat (fs w') ["repo"; "client"; "server"; "settings.pyc"] = None.
Proof.
  destruct (copy_server_content_mirrors_selected
              "/" ["repo"; "client"] ["repo"]
              (match server_tree with Dir es => es | File _ => [] end) fresh_world)
    as (w' & Hrun & Hfiles & Hdirs & _).
  - reflexivity.
  - reflexivity.
  - reflexivity.
  - vm_compute. reflexivity.
  - exists w'. split; [exact Hrun|]. split.
    + apply (Hfiles ["settings"; "main.py"]). split; [reflexivity|].
      exists "settings/main.py", ["settings"], "main.py".
      split; [reflexivity|]. split; [reflexivity|]. split; [reflexivity|].
      split; [reflexivity|]. repeat constructor.
    + destruct (stat (fs w') ["repo"; "client"; "server"; "settings.pyc"]) as [[d|]|] eqn:Hs;
        [| |reflexivity].
      * apply (Hfiles ["settings.pyc"]) in Hs as (_ & rel & dirs & name & Hp & _ & _ & Hkeep & _).
        apply app_inv_head in Hp.
        destruct dirs as [|m [|m' dirs]]; simpl in Hp; [|discriminate Hp..].
        injection Hp as <-. discriminate Hkeep.
      * destruct (Hdirs ["settings.pyc"] Hs) as (k' & d & Hk' & Hd).
        apply (Hfiles (["settings.pyc"] ++ k')) in Hd as [Hd _].
        destruct Hk'.
        apply (file_no_children (fs fresh_world) ["repo"; "server"; "settings.pyc"] k'
                 (bytes_of_string "compiled")); [reflexivity|].
        change (is_Some (stat (fs fresh_world)
                              ((["repo"] ++ ["server"]) ++ ["settings.pyc"] ++ k'))).
        by rewrite Hd.
Defined.

End Example.

(** * The runtime bootstrap: [client/ayon_usd/__init__.py] *)
Module Bootstrap.

(** The state [initialize_environment] acts on: [sys.path] and
    [os.environ]. *)
Record process := Process {
  sys_path : list string;
  environ : gmap string string;
}.

Section InitializeEnvironment.

(** [os.path.join] and [os.pathsep] of the platform; the directory
    [get_downloaded_usd_root()] of the absent [.utils] returns; and
    [USD_ADDON_DIR] of [.addon], the directory of that module. *)
Variable os_path_join : string → list string → string.
Variable os_pathsep : string.
Variable get_downloaded_usd_root : string.
Variable USD_ADDON_DIR : string.

Definition os_getenv (p : process) (key : string) : option string := environ p !! key.

(** What an f-string makes of [os.getenv]'s result. *)
Definition format_optional (value : option string) : string := default "None" value.

Definition setenv (key value : string) (p : process) : process :=
  Process (sys_path p) (<[key := value]> (environ p)).

Definition initialize_environment (p : process) : process :=
  let p := Process (sys_path p ++ [os_path_join get_downloaded_usd_root ["lib"; "python"]])
                   (environ p) in
  let p := setenv "PXR_PLUGINPATH_NAME" USD_ADDON_DIR p in
  let p := setenv "USD_ASSET_RESOLVER" "" p in
  let p := setenv "TF_DEBUG" "1" p in
  let p := setenv "PYTHONPATH" (os_path_join get_downloaded_usd_root ["lib"; "python"]) p in
  let p := setenv "PATH" (format_optional (os_getenv p "PATH") +:+ os_pathsep +:+
                          os_path_join get_downloaded_usd_root ["bin"]) p in
  let p := setenv "AYONLOGGERLOGLVL" "WARN" p in
  let p := setenv "AYONLOGGERSFILELOGGING" "1" p in
  setenv "AYONLOGGERSFILEPOS" ".log" p.

(** The variables the function assigns: five for USD and three for the
    logger. *)
Definition assigned_variables : list string :=
  ["PXR_PLUGINPATH_NAME"; "USD_ASSET_RESOLVER"; "TF_DEBUG"; "PYTHONPATH"; "PATH";
   "AYONLOGGERLOGLVL"; "AYONLOGGERSFILELOGGING"; "AYONLOGGERSFILEPOS"].

(** C7, as amended: one entry is appended to the module search path; the
    plugin path, the (emptied) asset resolver, the debug flag and the Python
    path are set; the USD executables directory is appended to [PATH]
    behind whatever [PATH] held; three logger variables are set; and no
    other variable changes. *)
Theorem initialize_environment_effect p :
  let p' := initialize_environment p in
  let lib_python := os_path_join get_downloaded_usd_root ["lib"; "python"] in
  sys_path p' = sys_path p ++ [lib_python] ∧
  environ p' !! "PXR_PLUGINPATH_NAME" = Some USD_ADDON_DIR ∧
  environ p' !! "USD_ASSET_RESOLVER" = Some "" ∧
  environ p' !! "TF_DEBUG" = Some "1" ∧
  environ p' !! "PYTHONPATH" = Some lib_python ∧
  environ p' !! "PATH"
    = Some (format_optional (environ p !! "PATH") +:+ os_pathsep +:+
            os_path_join get_downloaded_usd_root ["bin"]) ∧
  (∀ old, environ p !! "PATH" = Some old →
          ∃ appended, environ p' !! "PATH" = Some (old +:+ appended)) ∧
  environ p' !! "AYONLOGGERLOGLVL" = Some "WARN" ∧
  environ p' !! "AYONLOGGERSFILELOGGING" = Some "1" ∧
  environ p' !! "AYONLOGGERSFILEPOS" = Some ".log" ∧
  (∀ key, key ∉ assigned_variables → environ p' !! key = environ p !! key).
Proof.
  destruct p as [sp env]. cbn zeta.
  unfold initialize_environment, setenv, os_getenv. cbn [sys_path environ].
  repeat split; try by simplify_map_eq.
  - intros old Hold. eexists. simplify_map_eq. done.
  - intros key Hkey. unfold assigned_variables in Hkey.
    rewrite !not_elem_of_cons in Hkey. destruct_and!. by simplify_map_eq.
Qed.

(** What one call does, variable by variable. *)
Lemma initialize_environment_sys_path p :
  sys_path (initialize_environment p)
  = sys_path p ++ [os_path_join get_downloaded_usd_root ["lib"; "python"]].
Proof. by destruct p. Qed.

Lemma initialize_environment_path p :
  environ (initialize_environment p) !! "PATH"
  = Some (format_optional (environ p !! "PATH") +:+ os_pathsep +:+
          os_path_join get_downloaded_usd_root ["bin"]).
Proof.
  destruct p as [sp env]. unfold initialize_environment, setenv, os_getenv.
  cbn [sys_path environ]. by simplify_map_eq.
Qed.

Definition constant_value (key : string) : option string :=
  if decide (key = "PXR_PLUGINPATH_NAME") then Some USD_ADDON_DIR
  else if decide (key = "USD_ASSET_RESOLVER") then Some ""
  else if decide (key = "TF_DEBUG") then Some "1"
  else if decide (key = "PYTHONPATH")
       then Some (os_path_join get_downloaded_usd_root ["lib"; "python"])
  else if decide (key = "AYONLOGGERLOGLVL") then Some "WARN"
  else if decide (key = "AYONLOGGERSFILELOGGING") then Some "1"
  else if decide (key = "AYONLOGGERSFILEPOS") then Some ".log"
  else None.

Lemma initialize_environment_other p key :
  key ≠ "PATH" →
  environ (initialize_environment p) !! key
  = match constant_value key with Some v => Some v | None => environ p !! key end.
Proof.
  intros Hkey. destruct p as [sp env].
  unfold initialize_environment, setenv, os_getenv, constant_value. cbn [sys_path environ].
  repeat case_decide; subst; by simplify_map_eq.
Qed.

(** X16: [initialize_environment] is not idempotent.  Called a second
    time it appends the same entry to the module search path again and the
    USD executables directory to [PATH] again, so both hold it twice; every
    other variable is as the first call left it. *)
Theorem initialize_environment_twice p :
  let p1 := initialize_environment p in
  let p2 := initialize_environment p1 in
  let lib_python := os_path_join get_downloaded_usd_root ["lib"; "python"] in
  let bin := os_path_join get_downloaded_usd_root ["bin"] in
  sys_path p2 = sys_path p ++ [lib_python; lib_python] ∧
  environ p2 !! "PATH"
    = Some ((format_optional (environ p !! "PATH") +:+ os_pathsep +:+ bin)
            +:+ os_pathsep +:+ bin) ∧
  (∀ key, key ≠ "PATH" → environ p2 !! key = environ p1 !! key) ∧
  p2 ≠ p1.
Proof.
  cbn zeta. split; [|split; [|split]].
  - rewrite !initialize_environment_sys_path. by rewrite <-app_assoc.
  - by rewrite !initialize_environment_path.
  - intros key Hkey. rewrite !initialize_environment_other by done.
    by destruct (constant_value key).
  - intros Heq. apply (f_equal (λ q, length (sys_path q))) in Heq.
    rewrite !initialize_environment_sys_path, !length_app in Heq. simpl in Heq. lia.
Qed.

End InitializeEnvironment.

(** C7 as stated fails: it has two logger variables set and every other
    variable untouched, and there are three.  Started from an empty
    environment, no choice of two logger variables covers what changed. *)
Lemma two_logger_variables_counterexample :
  ¬ (∀ os_path_join os_pathsep usd_root addon_dir p,
       ∃ logger1 logger2,
         ∀ key,
           key ∉ ["PXR_PLUGINPATH_NAME"; "USD_ASSET_RESOLVER"; "TF_DEBUG"; "PYTHONPATH";
                  "PATH"; logger1; logger2] →
           environ (initialize_environment os_path_join os_pathsep usd_root addon_dir p)
             !! key = environ p !! key).
Proof.
  intros Hclaim.
  destruct (Hclaim (λ root parts, root) ":" "/usd" "/addon" (Process [] ∅))
    as (l1 & l2 & Hframe).
  assert (∀ key, key ∈ ["AYONLOGGERLOGLVL"; "AYONLOGGERSFILELOGGING"; "AYONLOGGERSFILEPOS"] →
                 key = l1 ∨ key = l2) as Hlogger.
  { intros key Hkey.
    destruct (decide (key = l1)) as [|Hl1]; [by left|].
    destruct (decide (key = l2)) as [|Hl2]; [by right|].
    exfalso.
    assert (key ∉ ["PXR_PLUGINPATH_NAME"; "USD_ASSET_RESOLVER"; "TF_DEBUG"; "PYTHONPATH";
                   "PATH"; l1; l2]) as Hnot.
    { rewrite !elem_of_cons in Hkey. rewrite !not_elem_of_cons.
      destruct Hkey as [->|[->|[->|[]%elem_of_nil]]];
        repeat split; (done || apply not_elem_of_nil). }
    specialize (Hframe key Hnot). rewrite !elem_of_cons in Hkey.
    destruct Hkey as [->|[->|[->|[]%elem_of_nil]]]; by vm_compute in Hframe. }
  assert (∀ a b c : string, a ≠ b → a ≠ c → b ≠ c →
            (a = l1 ∨ a = l2) → (b = l1 ∨ b = l2) → (c = l1 ∨ c = l2) → False) as Hpigeon.
  { intros a b c Hab Hac Hbc [Ha|Ha] [Hb|Hb] [Hc|Hc]; congruence. }
  apply (Hpigeon "AYONLOGGERLOGLVL" "AYONLOGGERSFILELOGGING" "AYONLOGGERSFILEPOS");
    try done; apply Hlogger; rewrite !elem_of_cons; by auto.
Qed.

End Bootstrap.

(** * [ZipFileLongPaths] *)
Module LongPaths.

(** [str.lower()] on ASCII, which is what [platform.system()] returns. *)
Definition ascii_lower (c : ascii) : ascii :=
  let n := nat_of_ascii c in
  if (65 <=? n) && (n <=? 90) then ascii_of_nat (n + 32) else c.

Fixpoint str_lower (s : string) : string :=
  match s with
  | EmptyString => EmptyString
  | String c s' => String (ascii_lower c) (str_lower s')
  end.

Fixpoint str_drop (n : nat) (s : string) : string :=
  match n, s with
  | S n', String _ s' => str_drop n' s'
  | _, _ => s
  end.

Section ZipFile.

(** The archive object, members, and what extraction and writing return
    are [zipfile]'s own. *)
Variables archive member result : Type.

(** The two methods of [zipfile.ZipFile] at stake: the extraction of one
    member to a target path, and the writing of a file under an archive
    name. *)
Record zipfile_class := ZipFileClass {
  _extract_member : member → string → option bytes → archive → result * archive;
  write : string → option string → archive → result * archive;
}.

Variable ZipFile : zipfile_class.
(** [platform.system()] and [os.path.abspath]. *)
Variable platform_system : string.
Variable os_path_abspath : string → string.

Definition _is_windows : bool := bool_decide (str_lower platform_system = "windows").

Definition unc_prefix : string := "\\?\UNC\".
Definition long_prefix : string := "\\?\".

(** The target path [_extract_member] hands on to the base class. *)
Definition extended_tpath (tpath : string) : string :=
  if _is_windows then
    let tpath := os_path_abspath tpath in
    if String.prefix "\\" tpath then unc_prefix +:+ str_drop 2 tpath
    else long_prefix +:+ tpath
  else tpath.

(** The subclass overrides [_extract_member] and inherits the rest. *)
Definition ZipFileLongPaths : zipfile_class :=
  {| _extract_member := λ m tpath pwd,
       _extract_member ZipFile m (extended_tpath tpath) pwd;
     write := write ZipFile |}.

Lemma prefix_app_literal (p s : string) : String.prefix p (p +:+ s) = true.
Proof.
  induction p as [|c p IH]; simpl; [by destruct s|].
  by destruct (ascii_dec c c).
Qed.

(** C8: off Windows the target path reaches the standard extraction as it
    came; on Windows it reaches it made absolute and behind the
    extended-length prefix; and writing is the standard writing on every
    platform. *)
Theorem long_paths_only_on_windows_extraction :
  (str_lower platform_system ≠ "windows" →
   ∀ m tpath pwd z,
     extended_tpath tpath = tpath ∧
     _extract_member ZipFileLongPaths m tpath pwd z = _extract_member ZipFile m tpath pwd z) ∧
  (∀ m tpath pwd z,
     _extract_member ZipFileLongPaths m tpath pwd z
     = _extract_member ZipFile m (extended_tpath tpath) pwd z) ∧
  (str_lower platform_system = "windows" →
   ∀ tpath, String.prefix long_prefix (extended_tpath tpath) = true ∧
            ∃ rest, extended_tpath tpath = long_prefix +:+ rest ∧
                    (rest = os_path_abspath tpath ∨
                     rest = "UNC\" +:+ str_drop 2 (os_path_abspath tpath))) ∧
  (∀ filename arcname z,
     write ZipFileLongPaths filename arcname z = write ZipFile filename arcname z).
Proof.
  split; [|split; [|split]].
  - intros Hsys m tpath pwd z. cbn [_extract_member ZipFileLongPaths].
    unfold extended_tpath, _is_windows. by rewrite bool_decide_false.
  - done.
  - intros Hsys tpath. unfold extended_tpath, _is_windows. rewrite bool_decide_true by done.
    cbn zeta. destruct (String.prefix "\\" (os_path_abspath tpath)).
    + split; [done|]. eexists. split; [|by right]. done.
    + split; [apply prefix_app_literal|]. eexists. split; [done|by left].
  - done.
Qed.

End ZipFile.

(** On Linux a member goes where it was sent, on Windows behind the
    prefix. *)
Definition recording : zipfile_class (list string) unit unit :=
  {| _extract_member := λ _ tpath _ log, (tt, log ++ [tpath]);
     write := λ filename _ log, (tt, log ++ [filename]) |}.

Definition win_abspath (p : string) : string := "C:\work\" +:+ p.

Example extract_on_linux :
  _extract_member _ _ _ (ZipFileLongPaths _ _ _ recording "Linux" (λ p, p)) tt
                  "out/a.txt" None []
  = (tt, ["out/a.txt"]).
Proof. reflexivity. Qed.

Example extract_on_windows :
  _extract_member _ _ _ (ZipFileLongPaths _ _ _ recording "Windows" win_abspath) tt
                  "a.txt" None []
  = (tt, ["\\?\C:\work\a.txt"]).
Proof. reflexivity. Qed.

Lemma long_paths_only_on_windows_extraction_witness :
  extended_tpath "Darwin" (λ p, p) "out/a.txt" = "out/a.txt" ∧
  _extract_member _ _ _ (ZipFileLongPaths _ _ _ recording "Darwin" (λ p, p))
                  tt "out/a.txt" None []
  = _extract_member _ _ _ recording tt "out/a.txt" None [].
Proof.
  apply (proj1 (long_paths_only_on_windows_extraction
                  (list string) unit unit recording "Darwin" (λ p, p))).
  vm_compute. discriminate.
Defined.

End LongPaths.
